(** * Audio pipeline of the call-signalling relay (app/index.js)

    A shallow embedding of the per-connection speech-to-text pipeline:
    the payload helpers ([isValidLanguageCode],
    [normalizeTranslationLanguageCode], [resolveTargetLanguage],
    [normalizeAudioToBase64], [isRateLimited], [parseAudioPayload]) as
    functions, and the [audioRecording] handler with its promise chain
    [socket.data.sttQueue] as a labelled transition function on the
    connection's state.

    Modelling conventions.
    - A JavaScript string is a [string]: a sequence of UTF-16 code units,
      each a natural number (below 65536 in JavaScript; nothing here depends
      on the bound).  The white-space class of [trim] and of [\s] is
      the one of ECMAScript (WhiteSpace and LineTerminator).  The case
      conversions [toLowerCase] and [toUpperCase] are computed for a string
      of ASCII code units, where they touch the letters A-Z and a-z only;
      the conversion of a string with a code unit outside ASCII is taken
      from the runtime.
    - A JavaScript number is [number]: NaN, the two infinities, or a finite
      value carried as a rational.  Millisecond clock readings and the
      pending counter are integers and are carried as [Z].
    - What the runtime does outside the program text (reading a string or an
      object as a number, the byte length of a decoded base64 string, the
      Unicode case conversions) is a [Runtime], a variable of the section
      [Pipeline]; the constants read from the environment are a [Config].
    - The event loop is a transition function [step]: one event per turn,
      with the clock reading of the turn.  The callbacks chained on
      [sttQueue] are events of their own, enabled when the promise they
      wait on is settled; the order in which enabled events happen is left
      open, which covers every timing of the services.
    - An awaited call of a service resolves to a response of the shape the
      callback reads, or is rejected with some value; a response of another
      shape makes the callback throw a [TypeError] inside its [try] block,
      which is the case of a rejection with that error.
    - Console output is not modelled, except that the [catch] block reads
      [processingError.message] for it.  A chain left rejected is an
      unhandled rejection, on which Node may end the process; the history of
      the connection ends there, and a history cut short is a history. *)

From Stdlib Require Import ZArith NArith QArith List Bool Lia.
From Stdlib.Strings Require Import Byte.
From stdpp Require Import base list sorting.
Import ListNotations.

Set Warnings "-register-all".

(** ** JavaScript strings *)

(** A UTF-16 code unit. *)
Definition codeUnit : Type := N.

Bind Scope N_scope with codeUnit.

Inductive string : Type :=
| EmptyString
| String (c : codeUnit) (r : string).

(** A string literal stands for the string of its ASCII codes; a code unit
    outside ASCII is written as a number. *)
Module Literal.

Fixpoint parse (bytes : list Byte.byte) : option string :=
  match bytes with
  | [] => Some EmptyString
  | b :: rest =>
      if (Byte.to_N b <? 128)%N
      then option_map (String (Byte.to_N b)) (parse rest)
      else None
  end.

Fixpoint print (s : string) : option (list Byte.byte) :=
  match s with
  | EmptyString => Some []
  | String c r =>
      match Byte.of_N c, print r with
      | Some b, Some rest => if (c <? 128)%N then Some (b :: rest) else None
      | _, _ => None
      end
  end.

End Literal.

Declare Scope js_scope.
Delimit Scope js_scope with js.
Bind Scope js_scope with string.
String Notation string Literal.parse Literal.print : js_scope.

Local Open Scope js_scope.
Local Open Scope Z_scope.

(** The code units the program names. *)
Abbreviation SPACE := 32%N (only parsing).
Abbreviation PLUS_SIGN := 43%N (only parsing).
Abbreviation COMMA := 44%N (only parsing).
Abbreviation HYPHEN_MINUS := 45%N (only parsing).
Abbreviation SOLIDUS := 47%N (only parsing).
Abbreviation COLON := 58%N (only parsing).
Abbreviation EQUALS_SIGN := 61%N (only parsing).

Module JsString.

Fixpoint append (a b : string) : string :=
  match a with
  | EmptyString => b
  | String c r => String c (append r b)
  end.

Fixpoint length (s : string) : nat :=
  match s with
  | EmptyString => O
  | String _ r => S (length r)
  end.

(** [a === b] *)
Fixpoint eqb (a b : string) : bool :=
  match a, b with
  | EmptyString, EmptyString => true
  | String c r, String d t => (c =? d)%N && eqb r t
  | _, _ => false
  end.

Fixpoint get (n : nat) (s : string) {struct s} : option codeUnit :=
  match s, n with
  | EmptyString, _ => None
  | String c _, O => Some c
  | String _ r, S m => get m r
  end.

Fixpoint units (s : string) : list codeUnit :=
  match s with
  | EmptyString => []
  | String c r => c :: units r
  end.


(** WhiteSpace and LineTerminator of ECMAScript, the class that [trim]
    strips and [\s] matches: TAB, LF, VT, FF, CR, SPACE, U+00A0, U+1680,
    U+2000 to U+200A, U+2028, U+2029, U+202F, U+205F, U+3000 and U+FEFF. *)
Definition isWhiteSpace (c : codeUnit) : bool :=
  (((0x0009 <=? c) && (c <=? 0x000d))
   || (c =? 0x0020) || (c =? 0x00a0) || (c =? 0x1680)
   || ((0x2000 <=? c) && (c <=? 0x200a))
   || (c =? 0x2028) || (c =? 0x2029) || (c =? 0x202f) || (c =? 0x205f)
   || (c =? 0x3000) || (c =? 0xfeff))%N.

Definition isUpper (c : codeUnit) : bool := ((65 <=? c) && (c <=? 90))%N.

Definition isLower (c : codeUnit) : bool := ((97 <=? c) && (c <=? 122))%N.

Definition isDigit (c : codeUnit) : bool := ((48 <=? c) && (c <=? 57))%N.

(** [[A-Za-z]], also with the flag [i]: without the flag [u] a code unit
    outside ASCII is never matched by an ASCII letter. *)
Definition isLetter (c : codeUnit) : bool := isUpper c || isLower c.

Definition isAsciiUnit (c : codeUnit) : bool := (c <? 128)%N.

Definition lowerUnit (c : codeUnit) : codeUnit :=
  if isUpper c then (c + 32)%N else c.

Definition upperUnit (c : codeUnit) : codeUnit :=
  if isLower c then (c - 32)%N else c.

Fixpoint map (f : codeUnit -> codeUnit) (s : string) : string :=
  match s with
  | EmptyString => EmptyString
  | String c r => String (f c) (map f r)
  end.

Fixpoint forallb (p : codeUnit -> bool) (s : string) : bool :=
  match s with
  | EmptyString => true
  | String c r => p c && forallb p r
  end.

Definition isAscii (s : string) : bool := forallb isAsciiUnit s.

Definition isEmpty (s : string) : bool :=
  match s with EmptyString => true | String _ _ => false end.

Fixpoint trimStart (s : string) : string :=
  match s with
  | EmptyString => EmptyString
  | String c r => if isWhiteSpace c then trimStart r else s
  end.

Fixpoint trimEnd (s : string) : string :=
  match s with
  | EmptyString => EmptyString
  | String c r =>
      let r' := trimEnd r in
      if isWhiteSpace c && isEmpty r' then EmptyString else String c r'
  end.

Definition trim (s : string) : string := trimEnd (trimStart s).

(** [s.startsWith(p)] *)
Fixpoint startsWith (s p : string) {struct p} : bool :=
  match p with
  | EmptyString => true
  | String c p' =>
      match s with
      | EmptyString => false
      | String d s' => (c =? d)%N && startsWith s' p'
      end
  end.

(** [s.indexOf(c)] for a one-character needle: [-1] when absent. *)
Fixpoint indexOfFrom (c : codeUnit) (s : string) (i : Z) : Z :=
  match s with
  | EmptyString => -1
  | String d r => if (c =? d)%N then i else indexOfFrom c r (i + 1)
  end.

Definition indexOf (s : string) (c : codeUnit) : Z := indexOfFrom c s 0.

Fixpoint drop (n : nat) (s : string) : string :=
  match n, s with
  | O, _ => s
  | S _, EmptyString => EmptyString
  | S m, String _ r => drop m r
  end.

(** [s.slice(start)]: a negative start counts from the end, and the start
    is clamped to the string. *)
Definition slice (s : string) (start : Z) : string :=
  let len := Z.of_nat (length s) in
  let from := if start <? 0 then Z.max (len + start) 0 else Z.min start len in
  drop (Z.to_nat from) s.

(** [s.replace(/\s/g, "")] *)
Fixpoint removeWhiteSpace (s : string) : string :=
  match s with
  | EmptyString => EmptyString
  | String c r =>
      if isWhiteSpace c then removeWhiteSpace r
      else String c (removeWhiteSpace r)
  end.

(** [s.split(c)[0]]: the part of [s] before the first [c], all of [s] when
    there is none. *)
Fixpoint splitFirst (s : string) (c : codeUnit) : string :=
  match s with
  | EmptyString => EmptyString
  | String d r => if (c =? d)%N then EmptyString else String d (splitFirst r c)
  end.

(** [parts.join(sep)] *)
Fixpoint join (sep : string) (parts : list string) : string :=
  match parts with
  | [] => EmptyString
  | [p] => p
  | p :: rest => append p (append sep (join sep rest))
  end.

End JsString.

Infix "++" := JsString.append (right associativity, at level 60) : js_scope.

Arguments JsString.isWhiteSpace : simpl never.
Arguments JsString.isUpper : simpl never.
Arguments JsString.isLower : simpl never.
Arguments JsString.isDigit : simpl never.
Arguments JsString.isAsciiUnit : simpl never.
Arguments JsString.lowerUnit : simpl never.
Arguments JsString.upperUnit : simpl never.

(** ** JavaScript values *)

Inductive number : Type :=
| NaN
| Infinity (negative : bool)
| Finite (q : Q).

Inductive value : Type :=
| VUndefined
| VNull
| VBool (b : bool)
| VNumber (n : number)
| VString (s : string)
| VBuffer (bytes : list Byte.byte)
| VUint8Array (bytes : list Byte.byte)
| VArray (items : list value)
| VObject (fields : list (string * value)).

Module Js.

Definition Qltb (a b : Q) : bool := negb (Qle_bool b a).

(** [a < b] on numbers: false as soon as one side is NaN. *)
Definition ltb (a b : number) : bool :=
  match a, b with
  | NaN, _ | _, NaN => false
  | Infinity true, Infinity true => false
  | Infinity true, _ => true
  | _, Infinity true => false
  | Infinity false, _ => false
  | _, Infinity false => true
  | Finite x, Finite y => Qltb x y
  end.

Definition gtb (a b : number) : bool := ltb b a.

Definition isNaN (n : number) : bool :=
  match n with NaN => true | _ => false end.

Definition ofZ (z : Z) : number := Finite (inject_Z z).

(** ToBoolean *)
Definition truthy (v : value) : bool :=
  match v with
  | VUndefined | VNull => false
  | VBool b => b
  | VNumber NaN => false
  | VNumber (Infinity _) => true
  | VNumber (Finite q) => negb (Qeq_bool q 0)
  | VString s => negb (JsString.isEmpty s)
  | VBuffer _ | VUint8Array _ | VArray _ | VObject _ => true
  end.

(** [a || b] *)
Definition or (a b : value) : value := if truthy a then a else b.

(** [a ?? b] *)
Definition nullish (a b : value) : value :=
  match a with VUndefined | VNull => b | _ => a end.

(** [v == null]: null or undefined. *)
Definition isNullish (v : value) : bool :=
  match v with VUndefined | VNull => true | _ => false end.

(** [typeof v === "object"] *)
Definition isObject (v : value) : bool :=
  match v with
  | VNull | VBuffer _ | VUint8Array _ | VArray _ | VObject _ => true
  | _ => false
  end.

Fixpoint assoc (key : string) (fields : list (string * value)) : value :=
  match fields with
  | [] => VUndefined
  | (k, v) :: rest => if JsString.eqb k key then v else assoc key rest
  end.

(** [data.key], for the property names the handler reads (none of them is
    a property of arrays or buffers). *)
Definition get (data : value) (key : string) : value :=
  match data with
  | VObject fields => assoc key fields
  | _ => VUndefined
  end.

(** The object [data] with its property [key] set to [v]; a value that is not
    a plain object is left as it is. *)
Definition set (key : string) (v : value) (data : value) : value :=
  match data with
  | VObject fields => VObject ((key, v) :: fields)
  | _ => data
  end.

(** ToUint8 of a number: NaN and the infinities give 0, a finite value is
    truncated towards zero and reduced modulo 256. *)
Definition toUint8 (n : number) : Byte.byte :=
  match n with
  | Finite q =>
      let t := Z.quot (Qnum q) (Zpos (Qden q)) in
      match Byte.of_N (Z.to_N (t mod 256)) with
      | Some b => b
      | None => Byte.x00
      end
  | _ => Byte.x00
  end.

End Js.

(** ** Base64 text of a byte sequence ([buffer.toString("base64")]) *)

Module Base64.

Definition alphabet : string :=
  "ABCDEFGHIJKLMNOPQRSTUVWXYZabcdefghijklmnopqrstuvwxyz0123456789+/".

Definition digit (i : N) : codeUnit :=
  match JsString.get (N.to_nat i) alphabet with
  | Some c => c
  | None => EQUALS_SIGN
  end.

Definition octet (b : Byte.byte) : N := Byte.to_N b.

Fixpoint encode (bytes : list Byte.byte) : string :=
  match bytes with
  | [] => EmptyString
  | [a] =>
      let x := octet a in
      String (digit (N.shiftr x 2))
        (String (digit (N.shiftl (N.land x 3) 4)) "==")
  | [a; b] =>
      let x := octet a in
      let y := octet b in
      String (digit (N.shiftr x 2))
        (String (digit (N.lor (N.shiftl (N.land x 3) 4) (N.shiftr y 4)))
           (String (digit (N.shiftl (N.land y 15) 2)) "="))
  | a :: b :: c :: rest =>
      let x := octet a in
      let y := octet b in
      let z := octet c in
      String (digit (N.shiftr x 2))
        (String (digit (N.lor (N.shiftl (N.land x 3) 4) (N.shiftr y 4)))
           (String (digit (N.lor (N.shiftl (N.land y 15) 2) (N.shiftr z 6)))
              (String (digit (N.land z 63)) (encode rest))))
  end.

(** Base64 text read back (RFC 4648), to state what [encode] writes: the
    value of a digit, and the bytes of a text of groups of four digits whose
    last group may be padded with one or two [=]. *)
Definition value (c : codeUnit) : option N :=
  if JsString.isUpper c then Some (c - 65)%N
  else if JsString.isLower c then Some (c - 71)%N
  else if JsString.isDigit c then Some (c + 4)%N
  else if (c =? PLUS_SIGN)%N then Some 62%N
  else if (c =? SOLIDUS)%N then Some 63%N
  else None.



(** A character of the class [[A-Za-z0-9+/=]]. *)
Definition isBase64Char (c : codeUnit) : bool :=
  JsString.isLetter c || JsString.isDigit c
  || (c =? PLUS_SIGN)%N || (c =? SOLIDUS)%N || (c =? EQUALS_SIGN)%N.

(** [/^[A-Za-z0-9+/=]+$/.test(s)] *)
Definition test (s : string) : bool :=
  negb (JsString.isEmpty s) && JsString.forallb isBase64Char s.

End Base64.

Arguments Base64.isBase64Char : simpl never.

(** ** Results of code that can throw *)

Inductive result (A : Type) : Type :=
| Ok (a : A)
| Throw (message : string).

Arguments Ok {A} a.
Arguments Throw {A} message.

Definition bind {A B : Type} (r : result A) (k : A -> result B) : result B :=
  match r with
  | Ok a => k a
  | Throw m => Throw m
  end.

Notation "x <- r ;; k" := (bind r (fun x => k))
  (at level 100, r at next level, right associativity).

(** [if (cond) throw new Error(message)] *)
Definition throwIf (cond : bool) (message : string) : result unit :=
  if cond then Throw message else Ok tt.


(** ** Language codes *)

(** The automaton of [/^[a-z]{2,3}(?:-[A-Za-z]{2,8})*$/i]: runs of letters
    separated by single hyphens, the first run of 2 to 3 letters and every
    later one of 2 to 8.  [first] tells whether the current run is the first,
    [count] how many letters of it have been read. *)
Definition runLengthOk (first : bool) (count : nat) : bool :=
  ((2 <=? count) && (count <=? (if first then 3 else 8)))%nat.

Fixpoint languageTagRuns (first : bool) (count : nat) (s : string) : bool :=
  match s with
  | EmptyString => runLengthOk first count
  | String c r =>
      if JsString.isLetter c then languageTagRuns first (S count) r
      else if (c =? HYPHEN_MINUS)%N then runLengthOk first count && languageTagRuns false 0 r
      else false
  end.

Definition languageTagTest (s : string) : bool := languageTagRuns true 0 s.

Definition isValidLanguageCode (languageCode : value) : bool :=
  match languageCode with
  | VString s => languageTagTest (JsString.trim s)
  | _ => false
  end.

(** ** Configuration and runtime *)

(** The constants read from the environment when the module loads; the
    numbers are taken to be integers. *)
Record Config : Type := {
  MAX_AUDIO_BYTES : Z;
  RATE_LIMIT_WINDOW_MS : Z;
  RATE_LIMIT_MAX_REQUESTS : Z;
  MAX_STT_PENDING_REQUESTS : Z;
  projectId : option string
}.

Definition defaultConfig (project : option string) : Config := {|
  MAX_AUDIO_BYTES := 1024 * 1024;
  RATE_LIMIT_WINDOW_MS := 10000;
  RATE_LIMIT_MAX_REQUESTS := 20;
  MAX_STT_PENDING_REQUESTS := 8;
  projectId := project
|}.

Definition ALLOWED_ENCODINGS : list string :=
  ["LINEAR16"; "WEBM_OPUS"; "OGG_OPUS"; "FLAC"; "MULAW"; "AMR"; "AMR_WB";
   "SPEEX_WITH_HEADER_BYTE"].

(** [ALLOWED_ENCODINGS.has(e)] *)
Definition allowedEncoding (e : string) : bool :=
  existsb (JsString.eqb e) ALLOWED_ENCODINGS.

(** What the program takes from the JavaScript runtime: [Number(s)] for a
    string, [Number(o)] for an array, buffer or object,
    [Buffer.from(s, "base64").length], and [s.toLowerCase()] and
    [s.toUpperCase()] for a string with a code unit outside ASCII (the
    case conversions of Unicode). *)
Record Runtime : Type := {
  StringToNumber : string -> number;
  ObjectToNumber : value -> number;
  base64ByteLength : string -> nat;
  UnicodeToLowerCase : string -> string;
  UnicodeToUpperCase : string -> string
}.

(** [s.toLowerCase()]: on ASCII only the letters A-Z change. *)
Definition toLowerCase (rt : Runtime) (s : string) : string :=
  if JsString.isAscii s then JsString.map JsString.lowerUnit s
  else UnicodeToLowerCase rt s.

(** [s.toUpperCase()]: on ASCII only the letters a-z change. *)
Definition toUpperCase (rt : Runtime) (s : string) : string :=
  if JsString.isAscii s then JsString.map JsString.upperUnit s
  else UnicodeToUpperCase rt s.

(** Every call site passes a string (the parsed source language, or a
    requested target that passed [isValidLanguageCode]), so the argument is a
    string here; the only falsy string is the empty one. *)
Definition normalizeTranslationLanguageCode
    (rt : Runtime) (languageCode : string) : string :=
  if JsString.isEmpty languageCode then "en"
  else
    let normalized := toLowerCase rt (JsString.trim languageCode) in
    if JsString.startsWith normalized "my" then "my"
    else if JsString.startsWith normalized "en" then "en"
    else JsString.splitFirst normalized HYPHEN_MINUS.

Definition resolveTargetLanguage
    (rt : Runtime) (sourceLanguageCode : string) (requestedTargetLanguage : value)
    : string :=
  let automatic :=
    let source := normalizeTranslationLanguageCode rt sourceLanguageCode in
    if JsString.eqb source "en" then "my" else "en" in
  match requestedTargetLanguage with
  | VString requested =>
      if isValidLanguageCode requestedTargetLanguage then
        let normalizedRequested := normalizeTranslationLanguageCode rt requested in
        if JsString.eqb normalizedRequested "en" || JsString.eqb normalizedRequested "my"
        then normalizedRequested
        else automatic
      else automatic
  | _ => automatic
  end.

(** The validated request built by [parseAudioPayload]. *)
Record AudioPayload : Type := {
  audioBase64 : string;
  sourceLanguageCode : string;
  targetLanguageCode : string;
  recipientId : string;
  sampleRateHertz : number;
  encoding : string;
  sequenceId : value
}.

(** The theorems below hold for every runtime.  To evaluate the sample
    inputs one runtime is fixed here.  It agrees with JavaScript on the empty
    string, on white space and on unsigned decimal integers where a string
    is read as a number (any other string, and any object, is read as NaN;
    no sample has one where a number is read), and gives a base64 text three
    bytes for every four characters before the padding.  Its case
    conversions cover the Latin-1 Supplement and the code units whose
    upper-case form is made of ASCII letters; any other code unit is left as
    it is. *)
Module Reference.

Fixpoint digitsValue (acc : Z) (s : string) : option Z :=
  match s with
  | EmptyString => Some acc
  | String c r =>
      if JsString.isDigit c
      then digitsValue (acc * 10 + (Z.of_N c - 48)) r
      else None
  end.

Definition stringToNumber (s : string) : number :=
  match JsString.trim s with
  | EmptyString => Js.ofZ 0
  | t => match digitsValue 0 t with Some z => Js.ofZ z | None => NaN end
  end.

Definition byteLength (s : string) : nat :=
  (JsString.length (JsString.splitFirst s EQUALS_SIGN) * 3 / 4)%nat.

Definition lowerUnit (c : codeUnit) : codeUnit :=
  if ((0xc0 <=? c) && (c <=? 0xde) && negb (c =? 0xd7))%N then (c + 32)%N
  else JsString.lowerUnit c.

Definition upperUnits (c : codeUnit) : string :=
  if ((0xe0 <=? c) && (c <=? 0xfe) && negb (c =? 0xf7))%N
  then String (c - 32) ""
  else if (c =? 0xdf)%N then "SS"
  else if (c =? 0xff)%N then String 0x178 ""
  else if (c =? 0xb5)%N then String 0x39c ""
  else if (c =? 0x131)%N then "I"
  else if (c =? 0x17f)%N then "S"
  else if (c =? 0xfb00)%N then "FF"
  else if (c =? 0xfb01)%N then "FI"
  else if (c =? 0xfb02)%N then "FL"
  else if (c =? 0xfb03)%N then "FFI"
  else if (c =? 0xfb04)%N then "FFL"
  else if ((c =? 0xfb05) || (c =? 0xfb06))%N then "ST"
  else String (JsString.upperUnit c) "".

Fixpoint upperCase (s : string) : string :=
  match s with
  | EmptyString => EmptyString
  | String c r => upperUnits c ++ upperCase r
  end.

Definition runtime : Runtime := {|
  StringToNumber := stringToNumber;
  ObjectToNumber := fun _ => NaN;
  base64ByteLength := byteLength;
  UnicodeToLowerCase := JsString.map lowerUnit;
  UnicodeToUpperCase := upperCase
|}.

End Reference.

(** ** The classes of code units, listed

    The white-space class and the letters as lists, to state what the
    program does to a string without the functions it is written with. *)
Module Listed.

(** WhiteSpace and LineTerminator of ECMAScript. *)
Definition whiteSpace : list codeUnit :=
  [ 0x0009; 0x000a; 0x000b; 0x000c; 0x000d; 0x0020; 0x00a0; 0x1680;
    0x2000; 0x2001; 0x2002; 0x2003; 0x2004; 0x2005; 0x2006; 0x2007;
    0x2008; 0x2009; 0x200a; 0x2028; 0x2029; 0x202f; 0x205f; 0x3000;
    0xfeff ]%N.

(** The letters of ASCII: capital and small. *)
Definition letters : list (codeUnit * codeUnit) :=
  [ (65, 97); (66, 98); (67, 99); (68, 100); (69, 101); (70, 102); (71, 103);
    (72, 104); (73, 105); (74, 106); (75, 107); (76, 108); (77, 109);
    (78, 110); (79, 111); (80, 112); (81, 113); (82, 114); (83, 115);
    (84, 116); (85, 117); (86, 118); (87, 119); (88, 120); (89, 121);
    (90, 122) ]%N.



(** Every code unit of the string is white space. *)
Definition blank (s : string) : Prop :=
  Forall (fun c => In c whiteSpace) (JsString.units s).

(** The string is not empty and neither starts nor ends with white space. *)
Definition solid (s : string) : Prop :=
  exists c,
    hd_error (JsString.units s) = Some c
    /\ ~ In c whiteSpace
    /\ ~ In (List.last (JsString.units s) c) whiteSpace.

(** [raw] is [core] with white space before and after it. *)
Definition padded (raw core : string) : Prop :=
  solid core
  /\ exists before after, blank before /\ blank after /\ raw = before ++ core ++ after.



Definition smallOf (c : codeUnit) : codeUnit :=
  match List.find (fun entry => N.eqb (fst entry) c) letters with
  | Some entry => snd entry
  | None => c
  end.


Definition smalls (s : string) : string := JsString.map smallOf s.

(** Every code unit of the string is an ASCII one. *)
Definition ascii (s : string) : Prop :=
  Forall (fun c => (c < 128)%N) (JsString.units s).


End Listed.

(** The parsed request with another sample rate, and with another encoding. *)
Definition withSampleRate (rate : number) (p : AudioPayload) : AudioPayload := {|
  audioBase64 := audioBase64 p;
  sourceLanguageCode := sourceLanguageCode p;
  targetLanguageCode := targetLanguageCode p;
  recipientId := recipientId p;
  sampleRateHertz := rate;
  encoding := encoding p;
  sequenceId := sequenceId p
|}.


(** ** What the connection sends and asks for *)

(** The payload of [sttError]; the ISO timestamp is carried as the clock
    reading it is printed from. *)
Module SttError.
Record t : Type := { code : string; message : string; timestamp : Z }.
End SttError.

(** The payload of [sttResult]. *)
Module SttResult.
Record t : Type := {
  text : string;
  translated : string;
  from : string;
  to : string;
  sequenceId : value
}.
End SttResult.

(** The argument of [client.recognize]: [config] and [audio.content]. *)
Module SttRequest.
Record t : Type := {
  encoding : string;
  sampleRateHertz : number;
  languageCode : string;
  enableAutomaticPunctuation : bool;
  content : string
}.
End SttRequest.

(** The argument of [translationClient.translateText]. *)
Module TranslateRequest.
Record t : Type := {
  parent : string;
  contents : list string;
  mimeType : string;
  sourceLanguageCode : string;
  targetLanguageCode : string
}.
End TranslateRequest.

Inductive emission : Type :=
| ToSender (e : SttError.t)                  (* socket.emit("sttError", e) *)
| ToRoom (room : string) (r : SttResult.t).  (* socket.to(room).emit("sttResult", r) *)

Inductive request : Type :=
| Recognize (r : SttRequest.t)
| TranslateText (r : TranslateRequest.t).

(** One result of the speech service: [result.alternatives?.[0]?.transcript]. *)
Record SpeechResult : Type := { transcript : option string }.

(** The first component of what [client.recognize] resolves to. *)
Record SttResponse : Type := { results : option (list SpeechResult) }.

Record Translation : Type := { translatedText : option string }.

(** The first component of what [translateText] resolves to. *)
Record TranslationResponse : Type := { translations : option (list Translation) }.

(** How an awaited call of a service ends: resolved with a response, or
    rejected with any value. *)
Inductive settled (A : Type) : Type :=
| Resolved (a : A)
| Rejected (reason : value).

Arguments Resolved {A} a.
Arguments Rejected {A} reason.

(** [s || d] for a string that may be undefined. *)
Definition orString (s : option string) (d : string) : string :=
  match s with
  | Some t => if JsString.isEmpty t then d else t
  | None => d
  end.

(** ** The connection *)

(** A unit of work chained on [socket.data.sttQueue] by one accepted
    [audioRecording] event: the [then] stage and the [finally] stage behind
    it.  [fulfilled] tells whether the promise of the stage is fulfilled or
    rejected. *)
Inductive task : Type :=
| Queued (data : value)                 (* the then stage has not reacted *)
| AwaitRecognize (parsedPayload : AudioPayload)
| AwaitTranslate (parsedPayload : AudioPayload) (transcription : string)
| Settled (fulfilled : bool)            (* the promise of then is settled *)
| Finished (fulfilled : bool).          (* the finally callback has run *)

(** [socket.user] and [socket.data], with the units chained on [sttQueue]
    oldest first, everything emitted so far and every service call made so
    far.  An emission or a call is tagged with the unit it comes from, [None]
    for the event handler itself. *)
Record Socket : Type := {
  user : string;
  sttRateTimestamps : list Z;
  pendingSttRequests : Z;
  sttQueue : list task;
  emitted : list (option nat * emission);
  requests : list (nat * request)
}.

(** What the [connection] handler leaves in a fresh socket. *)
Definition connect (callerId : string) : Socket := {|
  user := callerId;
  sttRateTimestamps := [];
  pendingSttRequests := 0;
  sttQueue := [];
  emitted := [];
  requests := []
|}.

Definition emit (origin : option nat) (e : emission) (socket : Socket) : Socket := {|
  user := user socket;
  sttRateTimestamps := sttRateTimestamps socket;
  pendingSttRequests := pendingSttRequests socket;
  sttQueue := sttQueue socket;
  emitted := (emitted socket ++ [(origin, e)])%list;
  requests := requests socket
|}.

Definition call (unit : nat) (r : request) (socket : Socket) : Socket := {|
  user := user socket;
  sttRateTimestamps := sttRateTimestamps socket;
  pendingSttRequests := pendingSttRequests socket;
  sttQueue := sttQueue socket;
  emitted := emitted socket;
  requests := (requests socket ++ [(unit, r)])%list
|}.

Definition setTask (unit : nat) (t : task) (socket : Socket) : Socket := {|
  user := user socket;
  sttRateTimestamps := sttRateTimestamps socket;
  pendingSttRequests := pendingSttRequests socket;
  sttQueue := <[unit := t]> (sttQueue socket);
  emitted := emitted socket;
  requests := requests socket
|}.

Definition setRateTimestamps (timestamps : list Z) (socket : Socket) : Socket := {|
  user := user socket;
  sttRateTimestamps := timestamps;
  pendingSttRequests := pendingSttRequests socket;
  sttQueue := sttQueue socket;
  emitted := emitted socket;
  requests := requests socket
|}.

Definition setPending (pending : Z) (socket : Socket) : Socket := {|
  user := user socket;
  sttRateTimestamps := sttRateTimestamps socket;
  pendingSttRequests := pending;
  sttQueue := sttQueue socket;
  emitted := emitted socket;
  requests := requests socket
|}.

(** [socket.data.sttQueue = socket.data.sttQueue.then(...).finally(...)] *)
Definition chain (data : value) (socket : Socket) : Socket := {|
  user := user socket;
  sttRateTimestamps := sttRateTimestamps socket;
  pendingSttRequests := pendingSttRequests socket;
  sttQueue := (sttQueue socket ++ [Queued data])%list;
  emitted := emitted socket;
  requests := requests socket
|}.

Definition emitSttError
    (origin : option nat) (code message : string) (now : Z) (socket : Socket) : Socket :=
  emit origin
    (ToSender {| SttError.code := code; SttError.message := message;
                 SttError.timestamp := now |})
    socket.

(** What happens on a connection, one turn of the event loop each. *)
Inductive event : Type :=
| AudioRecording (data : value)     (* the client's audioRecording event *)
| RunUnit (unit : nat)              (* the then stage of a unit reacts *)
| RecognizeSettles (unit : nat) (outcome : settled SttResponse)
| TranslateSettles (unit : nat) (outcome : settled TranslationResponse)
| RunFinally (unit : nat).          (* the finally callback of a unit is called *)

(** The unit whose callback an event calls. *)
Definition eventUnit (e : event) : option nat :=
  match e with
  | AudioRecording _ => None
  | RunUnit unit | RecognizeSettles unit _ | TranslateSettles unit _
  | RunFinally unit => Some unit
  end.

(** The then stage of the unit has reacted. *)
Definition started (t : task) : bool :=
  match t with Queued _ => false | _ => true end.

(** The finally callback of the unit has run. *)
Definition finished (t : task) : bool :=
  match t with Finished _ => true | _ => false end.

(** The unit is being processed: started and not finished. *)
Definition inProgress (t : task) : bool := started t && negb (finished t).

(** The promise of the then stage of the unit is not settled yet. *)
Definition working (t : task) : bool :=
  match t with
  | Queued _ | AwaitRecognize _ | AwaitTranslate _ _ => true
  | Settled _ | Finished _ => false
  end.

(** The units that emitted, in the order of their emissions. *)
Definition origins (socket : Socket) : list nat := omap fst (emitted socket).

(** How many units of a chain have not finished. *)
Definition unfinished (queue : list task) : nat :=
  List.length (List.filter (fun t => negb (finished t)) queue).

(** What holds of a connection throughout its life. *)
Record invariant (socket : Socket) : Prop := {
  inv_order :
    forall i j ti tj,
      (i < j)%nat ->
      sttQueue socket !! i = Some ti -> sttQueue socket !! j = Some tj ->
      started tj = true -> finished ti = true;
  inv_origins :
    forall o, o ∈ origins socket ->
      exists t, sttQueue socket !! o = Some t /\ working t = false;
  inv_sorted : StronglySorted lt (origins socket);
  inv_pending :
    pendingSttRequests socket = Z.of_nat (unfinished (sttQueue socket))
}.

Section Pipeline.

Variable rt : Runtime.
Variable cfg : Config.

(** [Number(v)] *)
Definition ToNumber (v : value) : number :=
  match v with
  | VUndefined => NaN
  | VNull => Js.ofZ 0
  | VBool b => Js.ofZ (if b then 1 else 0)
  | VNumber n => n
  | VString s => StringToNumber rt s
  | VBuffer _ | VUint8Array _ | VArray _ | VObject _ => ObjectToNumber rt v
  end.

(** [Buffer.from(items)] for an array: every item goes through ToNumber and
    ToUint8. *)
Definition bufferFromArray (items : list value) : list Byte.byte :=
  List.map (fun item => Js.toUint8 (ToNumber item)) items.

Definition normalizeAudioToBase64 (audio : value) : result string :=
  match audio with
  | VString s =>
      let withoutPrefix :=
        if JsString.startsWith s "data:"
        then JsString.slice s (JsString.indexOf s COMMA + 1)
        else s in
      let normalized := JsString.removeWhiteSpace withoutPrefix in
      _ <- throwIf (JsString.isEmpty normalized) "Empty audio payload" ;;
      _ <- throwIf (negb (Base64.test normalized))
             "Audio payload is not valid base64" ;;
      Ok normalized
  | VBuffer bytes => Ok (Base64.encode bytes)
  | VUint8Array bytes => Ok (Base64.encode bytes)
  | VArray items => Ok (Base64.encode (bufferFromArray items))
  | _ => Throw "Unsupported audio payload type"
  end.

(** [isRateLimited]: the verdict and the list stored back in
    [socket.data.sttRateTimestamps]. *)
Definition isRateLimited (now : Z) (sttRateTimestamps : list Z) : bool * list Z :=
  let recentTimestamps :=
    List.filter (fun timestamp => now - timestamp <? RATE_LIMIT_WINDOW_MS cfg)
      sttRateTimestamps in
  if RATE_LIMIT_MAX_REQUESTS cfg <=? Z.of_nat (List.length recentTimestamps)
  then (true, recentTimestamps)
  else (false, (recentTimestamps ++ [now])%list).

Definition parseAudioPayload (data : value) : result AudioPayload :=
  _ <- throwIf (negb (Js.truthy data) || negb (Js.isObject data))
         "Invalid payload" ;;
  match Js.get data "to" with
  | VString to =>
      _ <- throwIf (JsString.isEmpty (JsString.trim to)) "Missing recipient id" ;;
      let sourceLanguageCode :=
        match Js.get data "language" with
        | VString language =>
            if isValidLanguageCode (VString language)
            then JsString.trim language
            else "en-US"
        | _ => "en-US"
        end in
      let targetLanguageCode :=
        resolveTargetLanguage rt sourceLanguageCode (Js.get data "targetLanguage") in
      let normalizedEncoding :=
        match Js.get data "encoding" with
        | VString e => Some (toUpperCase rt (JsString.trim e))
        | _ => None
        end in
      let encoding :=
        match normalizedEncoding with
        | Some e => if allowedEncoding e then e else "LINEAR16"
        | None => "LINEAR16"
        end in
      let sampleRateHertz :=
        ToNumber (Js.or (Js.get data "sampleRateHertz") (VNumber (Js.ofZ 16000))) in
      _ <- throwIf (Js.isNaN sampleRateHertz
                    || Js.ltb sampleRateHertz (Js.ofZ 8000)
                    || Js.gtb sampleRateHertz (Js.ofZ 48000))
             "Invalid sample rate" ;;
      audioBase64 <- normalizeAudioToBase64 (Js.get data "audio") ;;
      let audioSizeInBytes := Z.of_nat (base64ByteLength rt audioBase64) in
      _ <- throwIf ((audioSizeInBytes =? 0) || (MAX_AUDIO_BYTES cfg <? audioSizeInBytes))
             "Audio payload size is invalid" ;;
      Ok {| audioBase64 := audioBase64;
            sourceLanguageCode := sourceLanguageCode;
            targetLanguageCode := targetLanguageCode;
            recipientId := JsString.trim to;
            sampleRateHertz := sampleRateHertz;
            encoding := encoding;
            sequenceId := Js.nullish (Js.get data "sequenceId") VNull |}
  | _ => Throw "Missing recipient id"
  end.

(** The handler of [audioRecording], up to the point where it returns: the
    backpressure check, the counter and the new link of the chain. *)
Definition audioRecording (data : value) (now : Z) (socket : Socket) : Socket :=
  if MAX_STT_PENDING_REQUESTS cfg <=? pendingSttRequests socket
  then emitSttError None "STT_BACKPRESSURE" "Too many queued audio chunks" now socket
  else chain data (setPending (pendingSttRequests socket + 1) socket).

(** The promise a unit is chained on, once it is settled: the first unit
    hangs off [Promise.resolve()], a later one off the [finally] stage of the
    unit before, which passes on how the then stage before it ended. *)
Definition predecessor (unit : nat) (socket : Socket) : option bool :=
  match unit with
  | O => Some true
  | S before =>
      match sttQueue socket !! before with
      | Some (Finished fulfilled) => Some fulfilled
      | _ => None
      end
  end.

Definition sttRequest (parsedPayload : AudioPayload) : SttRequest.t := {|
  SttRequest.encoding := encoding parsedPayload;
  SttRequest.sampleRateHertz := sampleRateHertz parsedPayload;
  SttRequest.languageCode := sourceLanguageCode parsedPayload;
  SttRequest.enableAutomaticPunctuation := true;
  SttRequest.content := audioBase64 parsedPayload
|}.

(** The then callback from its start to [await client.recognize]. *)
Definition runUnit (unit : nat) (data : value) (now : Z) (socket : Socket) : Socket :=
  let (limited, timestamps) := isRateLimited now (sttRateTimestamps socket) in
  let socket := setRateTimestamps timestamps socket in
  if limited then
    setTask unit (Settled true)
      (emitSttError (Some unit) "STT_RATE_LIMITED"
         "Too many audio requests in a short time" now socket)
  else
    match parseAudioPayload data with
    | Throw message =>
        setTask unit (Settled true)
          (emitSttError (Some unit) "STT_INVALID_PAYLOAD" message now socket)
    | Ok parsedPayload =>
        setTask unit (AwaitRecognize parsedPayload)
          (call unit (Recognize (sttRequest parsedPayload)) socket)
    end.

Definition transcriptionOf (sttResponse : SttResponse) : string :=
  JsString.trim
    (JsString.join " "
       (List.map (fun result => orString (transcript result) "")
          (match results sttResponse with Some rs => rs | None => [] end))).

(** The transcripts of the results of an answer: the transcript of the
    first alternative of each, the empty string where there is none. *)
Definition transcripts (sttResponse : SttResponse) : list string :=
  List.map (fun result => orString (transcript result) "")
    (match results sttResponse with Some rs => rs | None => [] end).

Definition sttResult
    (socket : Socket) (parsedPayload : AudioPayload)
    (transcription translatedText : string) : emission :=
  ToRoom (recipientId parsedPayload)
    {| SttResult.text := transcription;
       SttResult.translated := translatedText;
       SttResult.from := user socket;
       SttResult.to := recipientId parsedPayload;
       SttResult.sequenceId := sequenceId parsedPayload |}.

(** The [catch] block.  It reads [processingError.message] for the log
    before it emits, which throws a [TypeError] when the service rejected
    with null or undefined: the block is left, nothing is emitted and the
    promise of the then stage is rejected. *)
Definition processingFailed
    (unit : nat) (processingError : value) (now : Z) (socket : Socket) : Socket :=
  if Js.isNullish processingError then setTask unit (Settled false) socket
  else
    setTask unit (Settled true)
      (emitSttError (Some unit) "STT_PROCESSING_FAILED"
         "Unable to process this audio chunk" now socket).

(** A then stage chained on a rejected promise: its callback is not called
    and the rejection is passed on. *)
Definition skipUnit (unit : nat) (socket : Socket) : Socket :=
  setTask unit (Settled false) socket.

Definition translateRequest
    (project : string) (parsedPayload : AudioPayload)
    (transcription source : string) : TranslateRequest.t := {|
  TranslateRequest.parent := "projects/" ++ project ++ "/locations/global";
  TranslateRequest.contents := [transcription];
  TranslateRequest.mimeType := "text/plain";
  TranslateRequest.sourceLanguageCode := source;
  TranslateRequest.targetLanguageCode := targetLanguageCode parsedPayload
|}.

(** [!projectId]: the variable is undefined or the empty string. *)
Definition project : option string :=
  match projectId cfg with
  | Some p => if JsString.isEmpty p then None else Some p
  | None => None
  end.

(** The then callback from the answer of the speech service to
    [await translationClient.translateText] or to its end. *)
Definition recognizeSettles
    (unit : nat) (parsedPayload : AudioPayload) (outcome : settled SttResponse)
    (now : Z) (socket : Socket) : Socket :=
  match outcome with
  | Rejected processingError => processingFailed unit processingError now socket
  | Resolved sttResponse =>
      let transcription := transcriptionOf sttResponse in
      if JsString.isEmpty transcription then setTask unit (Settled true) socket
      else
        let source :=
          normalizeTranslationLanguageCode rt (sourceLanguageCode parsedPayload) in
        match project with
        | None =>
            setTask unit (Settled true)
              (emit (Some unit)
                 (sttResult socket parsedPayload transcription transcription) socket)
        | Some p =>
            if negb (JsString.eqb source (targetLanguageCode parsedPayload)) then
              setTask unit (AwaitTranslate parsedPayload transcription)
                (call unit
                   (TranslateText (translateRequest p parsedPayload transcription source))
                   socket)
            else
              setTask unit (Settled true)
                (emit (Some unit)
                   (sttResult socket parsedPayload transcription transcription) socket)
        end
  end.

(** [translationResponse?.translations?.[0]?.translatedText || transcription] *)
Definition translatedTextOf
    (translationResponse : TranslationResponse) (transcription : string) : string :=
  orString
    (match translations translationResponse with
     | Some (first :: _) => translatedText first
     | _ => None
     end)
    transcription.

(** The then callback from the answer of the translation service to its end. *)
Definition translateSettles
    (unit : nat) (parsedPayload : AudioPayload) (transcription : string)
    (outcome : settled TranslationResponse) (now : Z) (socket : Socket) : Socket :=
  match outcome with
  | Rejected processingError => processingFailed unit processingError now socket
  | Resolved translationResponse =>
      setTask unit (Settled true)
        (emit (Some unit)
           (sttResult socket parsedPayload transcription
              (translatedTextOf translationResponse transcription))
           socket)
  end.

(** The finally callback; the promise of the finally stage settles the way
    the promise of the then stage did. *)
Definition runFinally (unit : nat) (fulfilled : bool) (socket : Socket) : Socket :=
  setTask unit (Finished fulfilled)
    (setPending (Z.max 0 (pendingSttRequests socket - 1)) socket).

(** One turn of the event loop at clock reading [now]; [None] when the event
    cannot happen in this state (a callback is called only when the promise
    it waits on is settled, and only once). *)
Definition step (socket : Socket) (now : Z) (e : event) : option Socket :=
  match e with
  | AudioRecording data => Some (audioRecording data now socket)
  | RunUnit unit =>
      match sttQueue socket !! unit with
      | Some (Queued data) =>
          match predecessor unit socket with
          | Some true => Some (runUnit unit data now socket)
          | Some false => Some (skipUnit unit socket)
          | None => None
          end
      | _ => None
      end
  | RecognizeSettles unit outcome =>
      match sttQueue socket !! unit with
      | Some (AwaitRecognize parsedPayload) =>
          Some (recognizeSettles unit parsedPayload outcome now socket)
      | _ => None
      end
  | TranslateSettles unit outcome =>
      match sttQueue socket !! unit with
      | Some (AwaitTranslate parsedPayload transcription) =>
          Some (translateSettles unit parsedPayload transcription outcome now socket)
      | _ => None
      end
  | RunFinally unit =>
      match sttQueue socket !! unit with
      | Some (Settled fulfilled) => Some (runFinally unit fulfilled socket)
      | _ => None
      end
  end.

(** A history of the connection: the events with their clock readings. *)
Fixpoint run (socket : Socket) (history : list (Z * event)) : option Socket :=
  match history with
  | [] => Some socket
  | (now, e) :: rest =>
      match step socket now e with
      | Some next => run next rest
      | None => None
      end
  end.

(** The four things a turn can do to a connection. *)
Inductive effect (socket next : Socket) : Prop :=
| Accepted (data : value) :
    sttQueue next = (sttQueue socket ++ [Queued data])%list ->
    pendingSttRequests next = pendingSttRequests socket + 1 ->
    emitted next = emitted socket ->
    effect socket next
| Refused (e : emission) :
    sttQueue next = sttQueue socket ->
    pendingSttRequests next = pendingSttRequests socket ->
    emitted next = (emitted socket ++ [(None, e)])%list ->
    effect socket next
| Progress (unit : nat) (t t' : task) :
    sttQueue socket !! unit = Some t ->
    working t = true ->
    started t = true \/ is_Some (predecessor unit socket) ->
    sttQueue next = <[unit := t']> (sttQueue socket) ->
    started t' = true -> finished t' = false ->
    pendingSttRequests next = pendingSttRequests socket ->
    emitted next = emitted socket
    \/ (exists e, emitted next = (emitted socket ++ [(Some unit, e)])%list)
       /\ working t' = false ->
    effect socket next
| Completed (unit : nat) (fulfilled : bool) :
    sttQueue socket !! unit = Some (Settled fulfilled) ->
    sttQueue next = <[unit := Finished fulfilled]> (sttQueue socket) ->
    pendingSttRequests next = Z.max 0 (pendingSttRequests socket - 1) ->
    emitted next = emitted socket ->
    effect socket next.

End Pipeline.

(** ** Sample inputs *)

Module Sample.

Definition config : Config := defaultConfig (Some "demo-project").

(** [{to: "B", audio: "aGVsbG8=", language: "en-US"}] *)
Definition chunk : value :=
  VObject [("to", VString "B"); ("audio", VString "aGVsbG8=");
           ("language", VString "en-US")].

(** The same chunk with further properties in front. *)
Definition chunkWith (more : list (string * value)) : value :=
  match chunk with
  | VObject fields => VObject (more ++ fields)%list
  | other => other
  end.

Definition hello : SttResponse :=
  {| results := Some [{| transcript := Some "hello" |}] |}.

Definition silence : SttResponse := {| results := Some [] |}.

(** Two results, one with a transcript of a no-break space and a space, one
    with no alternative. *)
Definition blankAnswer : SttResponse :=
  {| results := Some [ {| transcript := Some (String 0xa0 " ") |};
                       {| transcript := None |} ] |}.

(** A no-break space, U+00A0. *)
Definition nbsp : string := String 0xa0 "".

Definition socketAfter (history : list (Z * event)) : Socket :=
  match run Reference.runtime config (connect "A") history with
  | Some socket => socket
  | None => connect "A"
  end.

(** Eight chunks submitted and none of them finished. *)
Definition busyHistory : list (Z * event) :=
  List.map (fun now => (now, AudioRecording chunk)) [1; 2; 3; 4; 5; 6; 7; 8].

Definition busy : Socket := socketAfter busyHistory.

(** One chunk submitted, its turn not yet come. *)
Definition waiting : Socket := socketAfter [(1, AudioRecording chunk)].

(** A chunk in English that asks for English. *)
Definition english : value := chunkWith [("targetLanguage", VString "en")].

Definition parsedEnglish : AudioPayload := {|
  audioBase64 := "aGVsbG8=";
  sourceLanguageCode := "en-US";
  targetLanguageCode := "en";
  recipientId := "B";
  sampleRateHertz := Js.ofZ 16000;
  encoding := "LINEAR16";
  sequenceId := VNull
|}.

(** The English chunk submitted and handed to the speech service. *)
Definition listening : Socket :=
  socketAfter [(1, AudioRecording english); (2, RunUnit 0%nat)].

(** Two chunks, the first one answered by a rejection with [undefined]. *)
Definition rejectedChain : list (Z * event) :=
  [ (1, AudioRecording chunk);
    (2, AudioRecording chunk);
    (3, RunUnit 0%nat);
    (4, RecognizeSettles 0%nat (Rejected VUndefined));
    (5, RunFinally 0%nat);
    (6, RunUnit 1%nat);
    (7, RunFinally 1%nat) ].

(** Three chunks: the first is transcribed and its translation fails, the
    second has a sample rate out of range, the third is answered with
    silence; the third is submitted while the first waits for the speech
    service. *)
Definition threeChunks : list (Z * event) :=
  [ (1, AudioRecording chunk);
    (2, AudioRecording (chunkWith [("sampleRateHertz", VNumber (Js.ofZ 50000))]));
    (3, RunUnit 0%nat);
    (4, AudioRecording chunk);
    (5, RecognizeSettles 0%nat (Resolved hello));
    (6, TranslateSettles 0%nat (Rejected (VObject [("message", VString "UNAVAILABLE")])));
    (7, RunFinally 0%nat);
    (8, RunUnit 1%nat);
    (9, RunFinally 1%nat);
    (10, RunUnit 2%nat);
    (11, RecognizeSettles 2%nat (Resolved silence)) ].

End Sample.

(** ** Strings and code units *)

(** Decides a goal about the classes of code units by arithmetic. *)
Ltac units :=
  unfold Base64.isBase64Char, JsString.isWhiteSpace, JsString.isLetter,
    JsString.isUpper, JsString.isLower, JsString.isDigit, JsString.isAsciiUnit in *;
  repeat first
    [ rewrite orb_true_iff in * | rewrite andb_true_iff in *
    | rewrite orb_false_iff in * | rewrite andb_false_iff in *
    | rewrite negb_true_iff in * | rewrite negb_false_iff in *
    | rewrite N.leb_le in * | rewrite N.leb_gt in *
    | rewrite N.ltb_lt in * | rewrite N.ltb_ge in *
    | rewrite N.eqb_eq in * | rewrite N.eqb_neq in * ];
  lia.

Lemma string_eqb_eq (a b : string) : JsString.eqb a b = true <-> a = b.
Proof.
  revert b. induction a as [| c r IH]; intros [| d t]; cbn;
    try (split; [discriminate | congruence]); [tauto |].
  rewrite andb_true_iff, N.eqb_eq, IH. split; [intros [-> ->] | intros [= -> ->]]; auto.
Qed.

Lemma string_eqb_refl (a : string) : JsString.eqb a a = true.
Proof. now apply string_eqb_eq. Qed.

Lemma string_eqb_neq (a b : string) : JsString.eqb a b = false <-> a <> b.
Proof.
  destruct (JsString.eqb a b) eqn:H.
  - apply string_eqb_eq in H. split; [discriminate | congruence].
  - split; [| reflexivity]. intros _ Heq. apply string_eqb_eq in Heq. congruence.
Qed.

(** *** The listed classes and the classes of the program *)

Lemma isWhiteSpace_listed (c : codeUnit) :
  JsString.isWhiteSpace c = true <-> In c Listed.whiteSpace.
Proof.
  unfold Listed.whiteSpace. cbn [In]. split; intros H; units.
Qed.


Lemma not_listed_white (c : codeUnit) :
  ~ In c Listed.whiteSpace <-> JsString.isWhiteSpace c = false.
Proof.
  rewrite <- isWhiteSpace_listed. destruct (JsString.isWhiteSpace c); split;
    congruence.
Qed.

Lemma blank_forallb (s : string) :
  Listed.blank s <-> JsString.forallb JsString.isWhiteSpace s = true.
Proof.
  unfold Listed.blank. induction s as [| c r IH]; cbn [JsString.units JsString.forallb].
  - split; [reflexivity | constructor].
  - rewrite Forall_cons, andb_true_iff, IH, isWhiteSpace_listed. reflexivity.
Qed.

Lemma ascii_isAscii (s : string) :
  Listed.ascii s <-> JsString.isAscii s = true.
Proof.
  unfold Listed.ascii, JsString.isAscii.
  induction s as [| c r IH]; cbn [JsString.units JsString.forallb].
  - split; [reflexivity | constructor].
  - rewrite Forall_cons, andb_true_iff, IH. unfold JsString.isAsciiUnit.
    now rewrite N.ltb_lt.
Qed.


Lemma smallOf_lower (c : codeUnit) : Listed.smallOf c = JsString.lowerUnit c.
Proof.
  unfold Listed.smallOf, Listed.letters, JsString.lowerUnit.
  repeat (cbn [List.find snd fst];
          match goal with
          | |- context [N.eqb ?a c] =>
              destruct (N.eqb_spec a c) as [<- | ?]; [reflexivity |]
          end).
  cbn [List.find].
  destruct (JsString.isUpper c) eqn:Hc; [units | reflexivity].
Qed.


Lemma smalls_lower (s : string) :
  Listed.smalls s = JsString.map JsString.lowerUnit s.
Proof.
  unfold Listed.smalls. induction s as [| c r IH]; [reflexivity |].
  cbn [JsString.map]. now rewrite smallOf_lower, IH.
Qed.



Lemma isEmpty_false (s : string) : JsString.isEmpty s = false <-> s <> "".
Proof. destruct s; cbn; split; congruence. Qed.


(** *** Appending *)

Lemma append_nil_r (s : string) : s ++ "" = s.
Proof. induction s as [| c r IH]; cbn; [reflexivity | now rewrite IH]. Qed.

Lemma units_append (a b : string) :
  JsString.units (a ++ b) = (JsString.units a ++ JsString.units b)%list.
Proof. induction a as [| c r IH]; cbn; [reflexivity | now rewrite IH]. Qed.

(** *** Trimming *)

Lemma trimStart_blank (s : string) :
  JsString.forallb JsString.isWhiteSpace s = true -> JsString.trimStart s = "".
Proof.
  induction s as [| c r IH]; [reflexivity |].
  cbn. intros H. apply andb_prop in H as [Hc Hr]. rewrite Hc. exact (IH Hr).
Qed.

Lemma trimEnd_blank (s : string) :
  JsString.forallb JsString.isWhiteSpace s = true -> JsString.trimEnd s = "".
Proof.
  induction s as [| c r IH]; [reflexivity |].
  cbn. intros H. apply andb_prop in H as [Hc Hr]. now rewrite (IH Hr), Hc.
Qed.

Lemma trimStart_app_blank (before s : string) :
  JsString.forallb JsString.isWhiteSpace before = true ->
  JsString.trimStart (before ++ s) = JsString.trimStart s.
Proof.
  induction before as [| c r IH]; [reflexivity |].
  cbn. intros H. apply andb_prop in H as [Hc Hr]. rewrite Hc. exact (IH Hr).
Qed.

Lemma trimEnd_app_blank (s after : string) :
  JsString.forallb JsString.isWhiteSpace after = true ->
  JsString.trimEnd (s ++ after) = JsString.trimEnd s.
Proof.
  intros H. induction s as [| c r IH]; [now apply trimEnd_blank |].
  cbn. now rewrite IH.
Qed.

Lemma trimEnd_solid (s : string) (c : codeUnit) :
  s <> "" ->
  JsString.isWhiteSpace (List.last (JsString.units s) c) = false ->
  JsString.trimEnd s = s.
Proof.
  induction s as [| d r IH]; [congruence |]. intros _ Hlast.
  destruct r as [| e r'].
  - cbn in Hlast |- *. now rewrite Hlast.
  - assert (Hr : JsString.trimEnd (String e r') = String e r').
    { apply IH; [discriminate | exact Hlast]. }
    change (JsString.trimEnd (String d (String e r')))
      with (if JsString.isWhiteSpace d
               && JsString.isEmpty (JsString.trimEnd (String e r'))
            then "" else String d (JsString.trimEnd (String e r'))).
    rewrite Hr. cbn [JsString.isEmpty]. now rewrite andb_false_r.
Qed.

Lemma trimEnd_idempotent (s : string) :
  JsString.trimEnd (JsString.trimEnd s) = JsString.trimEnd s.
Proof.
  induction s as [| c r IH]; [reflexivity |].
  cbn. destruct (JsString.isWhiteSpace c && JsString.isEmpty (JsString.trimEnd r))
    eqn:Hc; [reflexivity |].
  cbn. now rewrite IH, Hc.
Qed.

Lemma trimStart_head (s : string) :
  JsString.trimStart s = ""
  \/ exists c r, JsString.trimStart s = String c r /\ JsString.isWhiteSpace c = false.
Proof.
  induction s as [| c r IH]; [now left |].
  cbn. destruct (JsString.isWhiteSpace c) eqn:Hc; [exact IH |].
  right. now exists c, r.
Qed.

Lemma trim_shape (s : string) :
  JsString.trim s = ""
  \/ exists c r,
       JsString.trim s = String c (JsString.trimEnd r)
       /\ JsString.isWhiteSpace c = false.
Proof.
  unfold JsString.trim.
  destruct (trimStart_head s) as [-> | (c & r & -> & Hc)]; [now left |].
  right. exists c, r. split; [| exact Hc].
  cbn. now rewrite Hc.
Qed.

Lemma trim_idempotent (s : string) :
  JsString.trim (JsString.trim s) = JsString.trim s.
Proof.
  destruct (trim_shape s) as [-> | (c & r & -> & Hc)]; [reflexivity |].
  unfold JsString.trim. cbn [JsString.trimStart]. rewrite Hc.
  cbn [JsString.trimEnd]. rewrite Hc, trimEnd_idempotent. reflexivity.
Qed.

(** White space around a string that neither starts nor ends with white
    space is what [trim] takes away. *)
Lemma trim_padded (raw core : string) :
  Listed.padded raw core -> JsString.trim raw = core.
Proof.
  intros [(c & Hhead & Hc & Hlast) (before & after & Hb & Ha & ->)].
  apply blank_forallb in Hb, Ha. apply not_listed_white in Hc, Hlast.
  unfold JsString.trim. rewrite (trimStart_app_blank _ _ Hb).
  destruct core as [| d r]; [discriminate Hhead |].
  cbn in Hhead. injection Hhead as ->.
  change (String c r ++ after) with (String c (r ++ after)).
  cbn [JsString.trimStart]. rewrite Hc.
  change (String c (r ++ after)) with (String c r ++ after).
  rewrite (trimEnd_app_blank _ _ Ha).
  apply (trimEnd_solid _ c); [discriminate | exact Hlast].
Qed.

Lemma trim_blank (s : string) : Listed.blank s -> JsString.trim s = "".
Proof.
  intros H. apply blank_forallb in H. unfold JsString.trim.
  now rewrite (trimStart_blank s H).
Qed.

Lemma trimStart_split (s : string) :
  exists before,
    JsString.forallb JsString.isWhiteSpace before = true
    /\ s = before ++ JsString.trimStart s.
Proof.
  induction s as [| c r (before & Hb & Hs)]; [now exists "" |].
  cbn [JsString.trimStart]. destruct (JsString.isWhiteSpace c) eqn:Hc.
  - exists (String c before). cbn. rewrite Hc, Hb. split; [reflexivity |].
    now rewrite <- Hs.
  - now exists "".
Qed.

Lemma trimEnd_split (s : string) :
  exists after,
    JsString.forallb JsString.isWhiteSpace after = true
    /\ s = JsString.trimEnd s ++ after.
Proof.
  induction s as [| c r (after & Ha & Hs)]; [now exists "" |].
  cbn [JsString.trimEnd].
  destruct (JsString.isWhiteSpace c && JsString.isEmpty (JsString.trimEnd r)) eqn:Hc.
  - apply andb_prop in Hc as [Hc Hr].
    destruct (JsString.trimEnd r); [| discriminate Hr].
    exists (String c after). cbn in Hs |- *. rewrite Hc, Ha. split; [reflexivity |].
    now rewrite <- Hs.
  - exists after. split; [exact Ha |]. cbn. now rewrite <- Hs.
Qed.

Lemma trimEnd_last (s : string) (c : codeUnit) :
  JsString.trimEnd s <> "" ->
  JsString.isWhiteSpace (List.last (JsString.units (JsString.trimEnd s)) c) = false.
Proof.
  induction s as [| d r IH]; [cbn; congruence |].
  cbn [JsString.trimEnd].
  destruct (JsString.isWhiteSpace d && JsString.isEmpty (JsString.trimEnd r)) eqn:Hd;
    [congruence |].
  intros _. cbn [JsString.units].
  destruct (JsString.trimEnd r) as [| e t] eqn:Hr.
  - cbn. cbn in Hd. now rewrite andb_true_r in Hd.
  - change (List.last (d :: JsString.units (String e t)) c)
      with (List.last (JsString.units (String e t)) c).
    apply IH. discriminate.
Qed.

(** Every string is white space all through, or a string that neither
    starts nor ends with white space, which is its trimmed form, with white
    space around it. *)
Lemma trim_cases (s : string) :
  (Listed.blank s /\ JsString.trim s = "") \/ Listed.padded s (JsString.trim s).
Proof.
  destruct (trimStart_split s) as (before & Hb & Hs).
  destruct (trimStart_head s) as [Hnone | (c & r & Hsome & Hc)].
  - left. rewrite Hnone, append_nil_r in Hs. subst before.
    split; [now apply blank_forallb | unfold JsString.trim; now rewrite Hnone].
  - right. destruct (trimEnd_split (JsString.trimStart s)) as (after & Ha & Ht).
    fold (JsString.trim s) in Ht.
    assert (Hshape : JsString.trim s = String c (JsString.trimEnd r)).
    { unfold JsString.trim. rewrite Hsome. cbn. now rewrite Hc. }
    split.
    + exists c. rewrite Hshape at 1. split; [reflexivity |].
      split; [now apply not_listed_white |].
      apply not_listed_white. unfold JsString.trim. apply trimEnd_last.
      fold (JsString.trim s). rewrite Hshape. discriminate.
    + exists before, after.
      split; [now apply blank_forallb |]. split; [now apply blank_forallb |].
      now rewrite <- Ht.
Qed.

Lemma solid_trimmed (s : string) :
  Listed.solid s <-> s <> "" /\ JsString.trim s = s.
Proof.
  split.
  - intros H. split.
    + destruct H as (c & Hhead & _). destruct s; [discriminate Hhead | discriminate].
    + apply trim_padded. split; [exact H |]. exists "", "".
      split; [constructor |]. split; [constructor |]. cbn. now rewrite append_nil_r.
  - intros [Hne Htrim]. destruct (trim_cases s) as [[_ Hnone] | [Hsolid _]].
    + congruence.
    + now rewrite Htrim in Hsolid.
Qed.

Lemma trim_empty_blank (s : string) :
  JsString.isEmpty (JsString.trim s) = true <-> Listed.blank s.
Proof.
  split.
  - intros Hempty. destruct (trim_cases s) as [[Hblank _] | [Hsolid _]].
    + exact Hblank.
    + apply solid_trimmed in Hsolid as [Hne _].
      apply isEmpty_false in Hne. congruence.
  - intros Hblank. now rewrite (trim_blank s Hblank).
Qed.

Lemma blank_append (a b : string) :
  Listed.blank (a ++ b) <-> Listed.blank a /\ Listed.blank b.
Proof.
  unfold Listed.blank. rewrite units_append. apply Forall_app.
Qed.

Lemma join_blank (parts : list string) :
  Listed.blank (JsString.join " " parts) <-> Forall Listed.blank parts.
Proof.
  induction parts as [| part rest IH].
  - split; constructor.
  - destruct rest as [| next rest'].
    + cbn [JsString.join]. split.
      * intros H. now repeat constructor.
      * intros H. now apply Forall_cons in H as [H _].
    + change (JsString.join " " (part :: next :: rest'))
        with (part ++ " " ++ JsString.join " " (next :: rest')).
      assert (Hspace : Listed.blank " ").
      { apply blank_forallb. reflexivity. }
      split.
      * intros H. apply blank_append in H as [Hp H].
        apply blank_append in H as [_ H].
        constructor; [exact Hp | now apply IH].
      * intros H. apply Forall_cons in H as [Hp H].
        apply blank_append. split; [exact Hp |].
        apply blank_append. split; [exact Hspace | now apply IH].
Qed.

(** *** Case conversion *)

Lemma toLowerCase_ascii (rt : Runtime) (s : string) :
  JsString.isAscii s = true ->
  toLowerCase rt s = JsString.map JsString.lowerUnit s.
Proof. intros H. unfold toLowerCase. now rewrite H. Qed.


(** *** Base64 *)













(** ** Properties of the helpers *)

Section Properties.

Variable rt : Runtime.
Variable cfg : Config.

Lemma normalize_cases (languageCode : string) :
  let normalized := toLowerCase rt (JsString.trim languageCode) in
  normalizeTranslationLanguageCode rt languageCode =
    if JsString.isEmpty languageCode then "en"
    else if JsString.startsWith normalized "my" then "my"
    else if JsString.startsWith normalized "en" then "en"
    else JsString.splitFirst normalized HYPHEN_MINUS.
Proof. reflexivity. Qed.

Lemma resolveTargetLanguage_supported (source : string) (requested : value) :
  resolveTargetLanguage rt source requested = "en"
  \/ resolveTargetLanguage rt source requested = "my".
Proof.
  assert (Hauto :
    (if JsString.eqb (normalizeTranslationLanguageCode rt source) "en"
     then "my" else "en") = "en"
    \/ (if JsString.eqb (normalizeTranslationLanguageCode rt source) "en"
        then "my" else "en") = "my").
  { destruct (JsString.eqb _ "en"); [right | left]; reflexivity. }
  unfold resolveTargetLanguage.
  destruct requested as [| | b | n | s | bs | bs | xs | fs]; try exact Hauto.
  destruct (isValidLanguageCode (VString s)); [| exact Hauto].
  destruct (JsString.eqb (normalizeTranslationLanguageCode rt s) "en") eqn:Hen; simpl.
  - left. now apply string_eqb_eq.
  - destruct (JsString.eqb (normalizeTranslationLanguageCode rt s) "my") eqn:Hmy.
    + right. now apply string_eqb_eq.
    + exact Hauto.
Qed.

Lemma automatic_target (source : string) :
  let automatic := if JsString.eqb source "en" then "my" else "en" in
  (source = "en" -> automatic = "my") /\ (source <> "en" -> automatic = "en").
Proof.
  cbv zeta. destruct (JsString.eqb source "en") eqn:H.
  - apply string_eqb_eq in H. split; [reflexivity | congruence].
  - apply string_eqb_neq in H. split; [congruence | reflexivity].
Qed.

(** C3 (as amended): coarse normalization gives "my" for a code whose
    trimmed, lower-cased form starts with "my", "en" for the empty code and
    for one that starts with "en", and for any other code the part of the
    trimmed, lower-cased form before its first hyphen, whatever that is;
    the trimmed, lower-cased form of a code of ASCII code units with white
    space around it is that code with its capitals made small.  It is the
    resolved target language that is "en" or "my" for every source and every
    requested target: the coarse form of a requested target that is a valid
    code when that form is "en" or "my", and otherwise, also for a valid
    code of another language, "my" when the source normalizes to "en" and
    "en" when it does not. *)
Theorem coarse_normalization_forms (languageCode : string) (requested : value) :
  let normalized := toLowerCase rt (JsString.trim languageCode) in
  (JsString.startsWith normalized "my" = true ->
     normalizeTranslationLanguageCode rt languageCode = "my")
  /\ (JsString.startsWith normalized "my" = false ->
      JsString.startsWith normalized "en" = true ->
      normalizeTranslationLanguageCode rt languageCode = "en")
  /\ (languageCode = "" -> normalizeTranslationLanguageCode rt languageCode = "en")
  /\ (languageCode <> "" ->
      JsString.startsWith normalized "my" = false ->
      JsString.startsWith normalized "en" = false ->
      normalizeTranslationLanguageCode rt languageCode
        = JsString.splitFirst normalized HYPHEN_MINUS)
  /\ (forall core,
        Listed.padded languageCode core -> Listed.ascii core ->
        normalized = Listed.smalls core)
  /\ (resolveTargetLanguage rt languageCode requested = "en"
      \/ resolveTargetLanguage rt languageCode requested = "my")
  /\ (forall r,
        requested = VString r -> isValidLanguageCode requested = true ->
        normalizeTranslationLanguageCode rt r = "en"
        \/ normalizeTranslationLanguageCode rt r = "my" ->
        resolveTargetLanguage rt languageCode requested
        = normalizeTranslationLanguageCode rt r)
  /\ ((forall r,
         requested = VString r -> isValidLanguageCode requested = true ->
         normalizeTranslationLanguageCode rt r <> "en"
         /\ normalizeTranslationLanguageCode rt r <> "my") ->
      (normalizeTranslationLanguageCode rt languageCode = "en" ->
       resolveTargetLanguage rt languageCode requested = "my")
      /\ (normalizeTranslationLanguageCode rt languageCode <> "en" ->
          resolveTargetLanguage rt languageCode requested = "en")).
Proof.
  intros normalized. rewrite normalize_cases. fold normalized.
  split; [| split; [| split; [| split; [| split; [| split; [| split]]]]]].
  - intros Hmy. destruct languageCode as [| c r]; [discriminate Hmy |].
    simpl JsString.isEmpty. cbv iota. now rewrite Hmy.
  - intros Hmy Hen. destruct (JsString.isEmpty languageCode); [reflexivity |].
    now rewrite Hmy, Hen.
  - intros ->. reflexivity.
  - intros Hne Hmy Hen. destruct languageCode as [| c r]; [congruence |].
    simpl JsString.isEmpty. cbv iota. now rewrite Hmy, Hen.
  - intros core Hpadded Hascii. subst normalized.
    rewrite (trim_padded _ _ Hpadded), smalls_lower.
    apply toLowerCase_ascii. now apply ascii_isAscii.
  - apply resolveTargetLanguage_supported.
  - intros r -> Hvalid Hsupported. unfold resolveTargetLanguage. rewrite Hvalid.
    destruct Hsupported as [H | H]; rewrite H; reflexivity.
  - intros Hother.
    pose proof (automatic_target (normalizeTranslationLanguageCode rt languageCode))
      as Hauto. cbv zeta in Hauto.
    unfold resolveTargetLanguage.
    destruct requested as [| | b | n | r | bs | bs | xs | fs]; try exact Hauto.
    destruct (isValidLanguageCode (VString r)) eqn:Hvalid; [| exact Hauto].
    destruct (Hother r eq_refl eq_refl) as [Hen Hmy].
    apply string_eqb_neq in Hen, Hmy. rewrite Hen, Hmy. exact Hauto.
Qed.


(** *** [parseAudioPayload] *)

(** What a successful parse tells about the payload. *)
Lemma parseAudioPayload_Ok (data : value) (p : AudioPayload) :
  parseAudioPayload rt cfg data = Ok p ->
  exists to,
    Js.get data "to" = VString to
    /\ JsString.isEmpty (JsString.trim to) = false
    /\ recipientId p = JsString.trim to
    /\ sampleRateHertz p
         = ToNumber rt (Js.or (Js.get data "sampleRateHertz") (VNumber (Js.ofZ 16000)))
    /\ Js.isNaN (sampleRateHertz p) = false
    /\ Js.ltb (sampleRateHertz p) (Js.ofZ 8000) = false
    /\ Js.gtb (sampleRateHertz p) (Js.ofZ 48000) = false
    /\ encoding p
         = match Js.get data "encoding" with
           | VString e =>
               let normalizedEncoding := toUpperCase rt (JsString.trim e) in
               if allowedEncoding normalizedEncoding
               then normalizedEncoding else "LINEAR16"
           | _ => "LINEAR16"
           end
    /\ normalizeAudioToBase64 rt (Js.get data "audio") = Ok (audioBase64 p)
    /\ 0 < Z.of_nat (base64ByteLength rt (audioBase64 p)) <= MAX_AUDIO_BYTES cfg.
Proof.
  unfold parseAudioPayload, bind.
  destruct (throwIf (negb (Js.truthy data) || negb (Js.isObject data)) _);
    [| discriminate].
  destruct (Js.get data "to") as [| | | | to | | | |]; try discriminate.
  unfold throwIf.
  destruct (JsString.isEmpty (JsString.trim to)) eqn:Hto; [discriminate |].
  set (rate := ToNumber rt _).
  destruct (Js.isNaN rate) eqn:Hnan; [discriminate |].
  destruct (Js.ltb rate (Js.ofZ 8000)) eqn:Hlow; [discriminate |].
  destruct (Js.gtb rate (Js.ofZ 48000)) eqn:Hhigh; [discriminate |].
  cbn [orb].
  destruct (normalizeAudioToBase64 rt (Js.get data "audio")) as [b64 |] eqn:Haudio;
    [| discriminate].
  destruct (Z.of_nat (base64ByteLength rt b64) =? 0) eqn:Hzero; [discriminate |].
  destruct (MAX_AUDIO_BYTES cfg <? Z.of_nat (base64ByteLength rt b64)) eqn:Hbig;
    [discriminate |].
  cbn [orb]. intros [= <-]. exists to. cbn.
  repeat split; try assumption; try reflexivity.
  - destruct (Js.get data "encoding"); reflexivity.
  - apply Z.eqb_neq in Hzero. lia.
  - apply Z.ltb_ge in Hbig. exact Hbig.
Qed.

Lemma parse_language (data : value) (p : AudioPayload) :
  parseAudioPayload rt cfg data = Ok p ->
  sourceLanguageCode p
  = match Js.get data "language" with
    | VString language =>
        if isValidLanguageCode (VString language)
        then JsString.trim language else "en-US"
    | _ => "en-US"
    end
  /\ targetLanguageCode p
     = resolveTargetLanguage rt (sourceLanguageCode p) (Js.get data "targetLanguage")
  /\ sequenceId p = Js.nullish (Js.get data "sequenceId") VNull.
Proof.
  unfold parseAudioPayload, bind.
  destruct (throwIf (negb (Js.truthy data) || negb (Js.isObject data)) _);
    [| discriminate].
  destruct (Js.get data "to") as [| | | | to | | | |]; try discriminate.
  destruct (throwIf (JsString.isEmpty (JsString.trim to)) _); [| discriminate].
  destruct (throwIf _ "Invalid sample rate"); [| discriminate].
  destruct (normalizeAudioToBase64 rt (Js.get data "audio")); [| discriminate].
  destruct (throwIf _ "Audio payload size is invalid"); [| discriminate].
  intros [= <-]. cbn. auto.
Qed.










(** *** Strings *)

Lemma base64Char_not_space (c : codeUnit) :
  Base64.isBase64Char c = true -> JsString.isWhiteSpace c = false.
Proof. intros H. units. Qed.

Lemma base64Char_not_colon (c : codeUnit) :
  Base64.isBase64Char c = true -> (COLON =? c)%N = false.
Proof. intros H. units. Qed.

Lemma removeWhiteSpace_base64 (s : string) :
  JsString.forallb Base64.isBase64Char s = true ->
  JsString.removeWhiteSpace s = s.
Proof.
  induction s as [| c r IH]; [reflexivity |].
  cbn. intros H. apply andb_prop in H as [Hc Hr].
  rewrite (base64Char_not_space c Hc). now rewrite IH.
Qed.

Lemma base64_not_data_uri (s : string) :
  JsString.forallb Base64.isBase64Char s = true ->
  JsString.startsWith s "data:" = false.
Proof.
  destruct s as [| c1 [| c2 [| c3 [| c4 [| c5 r]]]]];
    cbn [JsString.startsWith JsString.forallb]; intros H;
    try (now rewrite ?andb_false_r).
  apply andb_prop in H as [_ H]. apply andb_prop in H as [_ H].
  apply andb_prop in H as [_ H]. apply andb_prop in H as [_ H].
  apply andb_prop in H as [H _].
  rewrite (base64Char_not_colon c5 H).
  cbn [andb]. now rewrite !andb_false_r.
Qed.






(** *** [normalizeAudioToBase64] *)

Lemma normalize_string (s : string) :
  JsString.startsWith s "data:" = false ->
  Base64.test (JsString.removeWhiteSpace s) = true ->
  normalizeAudioToBase64 rt (VString s) = Ok (JsString.removeWhiteSpace s).
Proof.
  intros Hplain Htest. unfold normalizeAudioToBase64. rewrite Hplain.
  unfold Base64.test in *. apply andb_prop in Htest as [Hne Hall].
  unfold bind, throwIf.
  destruct (JsString.isEmpty (JsString.removeWhiteSpace s)); [discriminate Hne |].
  rewrite Hall. reflexivity.
Qed.


(** *** Steps of a unit *)


(** Once the promise of the then stage of a unit is settled, the only
    callback of the unit still to come is its finally callback, which
    neither emits nor calls a service; after that none is left. *)
Lemma settled_unit_quiet (socket : Socket) (unit : nat) (t : task) (now : Z)
    (e : event) (next : Socket) :
  sttQueue socket !! unit = Some t -> working t = false ->
  eventUnit e = Some unit ->
  step rt cfg socket now e = Some next ->
  e = RunFinally unit
  /\ (exists fulfilled, t = Settled fulfilled)
  /\ emitted next = emitted socket
  /\ requests next = requests socket.
Proof.
  intros Htask Hended He Hstep.
  destruct e as [data | u | u outcome | u outcome | u]; cbn in He;
    try discriminate He; injection He as ->; cbn in Hstep;
    rewrite Htask in Hstep;
    destruct t as [data | p | p tr | ok | ok];
    try discriminate Hended; try discriminate Hstep.
  injection Hstep as <-. eauto.
Qed.





(** *** The handler and the callbacks *)

(** C2: an [audioRecording] event that arrives while the pending counter is
    at the ceiling gets STT_BACKPRESSURE in the same turn and leaves
    everything else as it was: no link is added to the chain, the counter is
    not incremented and no service is called. *)
Theorem backpressure_rejects_at_submission
    (socket : Socket) (data : value) (now : Z) :
  MAX_STT_PENDING_REQUESTS cfg <= pendingSttRequests socket ->
  exists next,
    step rt cfg socket now (AudioRecording data) = Some next
    /\ emitted next
       = (emitted socket
          ++ [(None,
               ToSender {| SttError.code := "STT_BACKPRESSURE";
                           SttError.message := "Too many queued audio chunks";
                           SttError.timestamp := now |})])%list
    /\ sttQueue next = sttQueue socket
    /\ pendingSttRequests next = pendingSttRequests socket
    /\ requests next = requests socket
    /\ sttRateTimestamps next = sttRateTimestamps socket.
Proof.
  intros Hfull. eexists. split; [reflexivity |].
  unfold audioRecording.
  apply Z.leb_le in Hfull. rewrite Hfull. cbn. auto 6.
Qed.

(** C5: when the turn of a queued unit comes (the promise it is chained on
    is fulfilled), the timestamps are pruned to
    those less than the window old; with the ceiling reached among them the
    sender gets STT_RATE_LIMITED, the unit ends there with no service called
    and the pruned list is stored with nothing appended; otherwise the clock
    reading is appended to the pruned list and the unit goes on to parse its
    payload and, if that succeeds, to call the speech service. *)
Theorem rate_limit_at_turn
    (socket : Socket) (unit : nat) (data : value) (now : Z) :
  sttQueue socket !! unit = Some (Queued data) ->
  predecessor unit socket = Some true ->
  let recent :=
    List.filter (fun timestamp => now - timestamp <? RATE_LIMIT_WINDOW_MS cfg)
      (sttRateTimestamps socket) in
  exists next,
    step rt cfg socket now (RunUnit unit) = Some next
    /\ pendingSttRequests next = pendingSttRequests socket
    /\ (RATE_LIMIT_MAX_REQUESTS cfg <= Z.of_nat (List.length recent) ->
        sttRateTimestamps next = recent
        /\ emitted next
           = (emitted socket
              ++ [(Some unit,
                   ToSender
                     {| SttError.code := "STT_RATE_LIMITED";
                        SttError.message := "Too many audio requests in a short time";
                        SttError.timestamp := now |})])%list
        /\ requests next = requests socket
        /\ sttQueue next = <[unit := Settled true]> (sttQueue socket))
    /\ (Z.of_nat (List.length recent) < RATE_LIMIT_MAX_REQUESTS cfg ->
        sttRateTimestamps next = (recent ++ [now])%list
        /\ match parseAudioPayload rt cfg data with
           | Ok parsedPayload =>
               emitted next = emitted socket
               /\ requests next
                  = (requests socket
                     ++ [(unit, Recognize (sttRequest parsedPayload))])%list
               /\ sttQueue next
                  = <[unit := AwaitRecognize parsedPayload]> (sttQueue socket)
           | Throw reason =>
               emitted next
               = (emitted socket
                  ++ [(Some unit,
                       ToSender {| SttError.code := "STT_INVALID_PAYLOAD";
                                   SttError.message := reason;
                                   SttError.timestamp := now |})])%list
               /\ requests next = requests socket
               /\ sttQueue next = <[unit := Settled true]> (sttQueue socket)
           end).
Proof.
  intros Hqueued Hpred recent.
  exists (runUnit rt cfg unit data now socket). split.
  { cbn. now rewrite Hqueued, Hpred. }
  unfold runUnit, isRateLimited. fold recent.
  destruct (RATE_LIMIT_MAX_REQUESTS cfg <=? Z.of_nat (List.length recent)) eqn:Hmax.
  - apply Z.leb_le in Hmax. cbn. repeat split; try reflexivity; try lia.
  - apply Z.leb_gt in Hmax.
    destruct (parseAudioPayload rt cfg data) as [p | reason]; cbn;
      repeat split; try reflexivity; lia.
Qed.

(** C7: when the coarse form of the source language of a unit is its
    resolved target language, the answer of the speech service never leads
    to a call of the translation service, whatever the answer is: the unit
    calls no service in that turn, ends there, and calls none afterwards;
    and when the transcript is not empty the result emitted to the recipient
    carries the transcript itself as its translated text. *)
Theorem same_language_skips_translation
    (socket : Socket) (unit : nat) (parsedPayload : AudioPayload)
    (outcome : settled SttResponse) (now : Z) :
  sttQueue socket !! unit = Some (AwaitRecognize parsedPayload) ->
  normalizeTranslationLanguageCode rt (sourceLanguageCode parsedPayload)
    = targetLanguageCode parsedPayload ->
  exists next,
    step rt cfg socket now (RecognizeSettles unit outcome) = Some next
    /\ requests next = requests socket
    /\ (exists fulfilled, sttQueue next !! unit = Some (Settled fulfilled))
    /\ (forall later e after,
          eventUnit e = Some unit ->
          step rt cfg next later e = Some after ->
          requests after = requests socket /\ emitted after = emitted next)
    /\ (forall sttResponse,
          outcome = Resolved sttResponse ->
          JsString.isEmpty (transcriptionOf sttResponse) = false ->
          emitted next
          = (emitted socket
             ++ [(Some unit,
                  ToRoom (recipientId parsedPayload)
                    {| SttResult.text := transcriptionOf sttResponse;
                       SttResult.translated := transcriptionOf sttResponse;
                       SttResult.from := user socket;
                       SttResult.to := recipientId parsedPayload;
                       SttResult.sequenceId := sequenceId parsedPayload |})])%list).
Proof.
  intros Hawait Hsame.
  set (next := recognizeSettles rt cfg unit parsedPayload outcome now socket).
  exists next.
  split; [cbn; now rewrite Hawait |].
  assert (Hlt : (unit < List.length (sttQueue socket))%nat)
    by (eapply lookup_lt_Some; exact Hawait).
  assert (Hshape :
    (exists fulfilled, next = setTask unit (Settled fulfilled) socket)
    \/ (exists e, next = setTask unit (Settled true) (emit (Some unit) e socket))).
  { subst next. unfold recognizeSettles, processingFailed, emitSttError.
    destruct outcome as [sttResponse | reason].
    - destruct (JsString.isEmpty (transcriptionOf sttResponse)); [eauto |].
      rewrite Hsame, string_eqb_refl. cbn [negb].
      destruct (project cfg); eauto.
    - destruct (Js.isNullish reason); eauto. }
  assert (Hrequests : requests next = requests socket).
  { destruct Hshape as [[ok ->] | [e ->]]; reflexivity. }
  assert (Hq : exists fulfilled, sttQueue next !! unit = Some (Settled fulfilled)).
  { destruct Hshape as [[ok ->] | [e ->]]; eexists; cbn;
      now apply list_lookup_insert_eq. }
  split; [exact Hrequests |]. split; [exact Hq |]. split.
  - intros later e after He Hstep. destruct Hq as [ok Hq].
    destruct (settled_unit_quiet next unit _ later e after Hq eq_refl He Hstep)
      as (_ & _ & Hem & Hreq).
    now rewrite Hem, Hreq.
  - intros sttResponse -> Hheard. subst next. unfold recognizeSettles.
    rewrite Hheard, Hsame, string_eqb_refl. cbn [negb].
    destruct (project cfg); reflexivity.
Qed.

Lemma blank_transcripts_silent (sttResponse : SttResponse) :
  transcriptionOf sttResponse = ""
  <-> Forall Listed.blank (transcripts sttResponse).
Proof.
  unfold transcriptionOf. fold (transcripts sttResponse).
  rewrite <- join_blank, <- trim_empty_blank.
  destruct (JsString.trim _); cbn; split; congruence.
Qed.

(** C8: when the transcript put together from the answer of the speech
    service is empty after trimming, which is the case when every result
    has no first alternative or a transcript of white space only, that of
    Unicode included, the unit ends without emitting anything and without
    calling a service, and nothing it does afterwards emits. *)
Theorem empty_transcript_is_silent
    (socket : Socket) (unit : nat) (parsedPayload : AudioPayload)
    (sttResponse : SttResponse) (now : Z) :
  sttQueue socket !! unit = Some (AwaitRecognize parsedPayload) ->
  JsString.isEmpty (transcriptionOf sttResponse) = true
  \/ Forall Listed.blank (transcripts sttResponse) ->
  exists next,
    step rt cfg socket now (RecognizeSettles unit (Resolved sttResponse)) = Some next
    /\ emitted next = emitted socket
    /\ requests next = requests socket
    /\ sttQueue next !! unit = Some (Settled true)
    /\ (forall later e after,
          eventUnit e = Some unit ->
          step rt cfg next later e = Some after ->
          emitted after = emitted socket /\ requests after = requests socket).
Proof.
  intros Hawait Hblank.
  assert (Hsilent : JsString.isEmpty (transcriptionOf sttResponse) = true).
  { destruct Hblank as [H | H]; [exact H |].
    apply blank_transcripts_silent in H. now rewrite H. }
  clear Hblank.
  exists (setTask unit (Settled true) socket).
  assert (Hlt : (unit < List.length (sttQueue socket))%nat)
    by (eapply lookup_lt_Some; exact Hawait).
  split.
  { cbn. rewrite Hawait. unfold recognizeSettles. now rewrite Hsilent. }
  set (next := setTask unit (Settled true) socket).
  assert (Hq : sttQueue next !! unit = Some (Settled true))
    by (cbn; now apply list_lookup_insert_eq).
  split; [reflexivity | split; [reflexivity | split; [exact Hq |]]].
  intros later e after He Hstep.
  destruct (settled_unit_quiet next unit _ later e after Hq eq_refl He Hstep)
    as (_ & _ & Hem & Hreq).
  now rewrite Hem, Hreq.
Qed.

(** *** The chain of units *)

Lemma step_effect (socket : Socket) (now : Z) (e : event) (next : Socket) :
  step rt cfg socket now e = Some next -> effect socket next.
Proof.
  destruct e as [data | u | u outcome | u outcome | u]; cbn; intros Hstep.
  - injection Hstep as <-. unfold audioRecording.
    destruct (MAX_STT_PENDING_REQUESTS cfg <=? pendingSttRequests socket).
    + eapply Refused; reflexivity.
    + eapply Accepted; reflexivity.
  - destruct (sttQueue socket !! u) as [[data | | | |] |] eqn:Hq;
      try discriminate Hstep.
    destruct (predecessor u socket) as [[] |] eqn:Hpred; [| | discriminate Hstep];
      injection Hstep as <-.
    + unfold runUnit.
      destruct (isRateLimited cfg now (sttRateTimestamps socket)) as [[] ts].
      * eapply Progress; eauto; cbn; eauto.
      * destruct (parseAudioPayload rt cfg data);
          eapply Progress; eauto; cbn; eauto.
    + eapply Progress; eauto; cbn; eauto.
  - destruct (sttQueue socket !! u) as [[| p | | |] |] eqn:Hq;
      try discriminate Hstep.
    injection Hstep as <-. unfold recognizeSettles, processingFailed.
    destruct outcome as [sttResponse | reason].
    + destruct (JsString.isEmpty (transcriptionOf sttResponse)).
      * eapply Progress; eauto; cbn; eauto.
      * destruct (project cfg);
          [destruct (negb (JsString.eqb _ _)) |];
          eapply Progress; eauto; cbn; eauto.
    + destruct (Js.isNullish reason); eapply Progress; eauto; cbn; eauto.
  - destruct (sttQueue socket !! u) as [[| | p transcription | |] |] eqn:Hq;
      try discriminate Hstep.
    injection Hstep as <-. unfold translateSettles, processingFailed.
    destruct outcome as [translationResponse | reason];
      [| destruct (Js.isNullish reason)]; eapply Progress; eauto; cbn; eauto.
  - destruct (sttQueue socket !! u) as [[| | | ok | ok] |] eqn:Hq;
      try discriminate Hstep.
    injection Hstep as <-. eapply Completed; eauto.
Qed.

Lemma unfinished_snoc (queue : list task) (data : value) :
  unfinished (queue ++ [Queued data]) = S (unfinished queue).
Proof.
  unfold unfinished. rewrite List.filter_app, List.length_app. cbn. lia.
Qed.

Lemma unfinished_cons (head : task) (rest : list task) :
  unfinished (head :: rest)
  = if finished head then unfinished rest else S (unfinished rest).
Proof. unfold unfinished. cbn. destruct (finished head); reflexivity. Qed.

Lemma unfinished_insert (queue : list task) (unit : nat) (t t' : task) :
  queue !! unit = Some t -> finished t = false ->
  (1 <= unfinished queue)%nat
  /\ unfinished (<[unit := t']> queue)
     = if finished t' then Nat.pred (unfinished queue) else unfinished queue.
Proof.
  revert unit. induction queue as [| head rest IH]; intros unit Hq Ht.
  - discriminate Hq.
  - destruct unit as [| unit]; cbn in Hq.
    + injection Hq as ->.
      change (<[0%nat := t']> (t :: rest)) with (t' :: rest).
      rewrite !unfinished_cons, Ht.
      split; [lia |]. destruct (finished t'); reflexivity.
    + destruct (IH unit Hq Ht) as [Hpos Hrest].
      change (<[S unit := t']> (head :: rest)) with (head :: <[unit := t']> rest).
      rewrite !unfinished_cons, Hrest.
      destruct (finished head), (finished t'); split; lia.
Qed.

Lemma predecessors_finished (socket : Socket) (unit : nat) (t : task) :
  invariant socket ->
  sttQueue socket !! unit = Some t ->
  started t = true \/ is_Some (predecessor unit socket) ->
  forall i ti, (i < unit)%nat -> sttQueue socket !! i = Some ti -> finished ti = true.
Proof.
  intros Hinv Hq [Hstarted | [ok Hpred]] i ti Hlt Hi.
  - exact (inv_order _ Hinv i unit ti t Hlt Hi Hq Hstarted).
  - destruct unit as [| before]; [lia |]. cbn in Hpred.
    destruct (sttQueue socket !! before) as [[| | | | before_ok] |] eqn:Hb;
      try discriminate Hpred.
    destruct (decide (i = before)) as [-> | Hne].
    + rewrite Hb in Hi. now injection Hi as <-.
    + apply (inv_order _ Hinv i before ti (Finished before_ok)); auto. lia.
Qed.

(** Replacing the task of a unit that has not finished keeps the order of
    the chain, provided every unit before it has finished when the new task
    is a started one. *)
Lemma order_insert (queue : list task) (unit : nat) (t t' : task) :
  (forall i j ti tj, (i < j)%nat -> queue !! i = Some ti -> queue !! j = Some tj ->
     started tj = true -> finished ti = true) ->
  queue !! unit = Some t ->
  finished t = false \/ finished t' = true ->
  (started t' = true ->
   forall i ti, (i < unit)%nat -> queue !! i = Some ti -> finished ti = true) ->
  forall i j ti tj, (i < j)%nat ->
    <[unit := t']> queue !! i = Some ti -> <[unit := t']> queue !! j = Some tj ->
    started tj = true -> finished ti = true.
Proof.
  intros Hold Hq Hkeep Hbefore i j ti tj Hlt Hi Hj Hstarted.
  assert (Hin : (unit < List.length queue)%nat) by (eapply lookup_lt_Some; eauto).
  destruct (decide (unit = j)) as [<- | Hju].
  - rewrite list_lookup_insert_eq in Hj by exact Hin. injection Hj as <-.
    rewrite list_lookup_insert_ne in Hi by lia.
    exact (Hbefore Hstarted i ti Hlt Hi).
  - rewrite list_lookup_insert_ne in Hj by exact Hju.
    destruct (decide (unit = i)) as [<- | Hiu].
    + rewrite list_lookup_insert_eq in Hi by exact Hin. injection Hi as <-.
      destruct Hkeep as [Hnot | Hdone]; [| exact Hdone].
      pose proof (Hold unit j t tj Hlt Hq Hj Hstarted) as Hcontra.
      congruence.
    + rewrite list_lookup_insert_ne in Hi by exact Hiu.
      exact (Hold i j ti tj Hlt Hi Hj Hstarted).
Qed.

Lemma invariant_connect (callerId : string) : invariant (connect callerId).
Proof.
  split; cbn.
  - intros i j ti tj _ Hi. discriminate Hi.
  - intros o Ho. inversion Ho.
  - constructor.
  - reflexivity.
Qed.

Lemma origins_snoc (socket next : Socket) (tag : option nat) (e : emission) :
  emitted next = (emitted socket ++ [(tag, e)])%list ->
  origins next
  = (origins socket ++ match tag with Some unit => [unit] | None => [] end)%list.
Proof.
  intros Hem. unfold origins. rewrite Hem, omap_app. now destruct tag.
Qed.

Lemma effect_invariant (socket next : Socket) :
  invariant socket -> effect socket next -> invariant next.
Proof.
  intros Hinv Heffect.
  destruct Heffect
    as [data Hq Hp He | em Hq Hp He
       | unit t t' Hunit Hwork Hturn Hq Hstarted Hfinished Hp He
       | unit ok Hunit Hq Hp He].
  - (* a unit is chained *)
    split.
    + intros i j ti tj Hlt Hi Hj Hs. rewrite Hq in Hi, Hj.
      apply lookup_snoc_Some in Hj as [[Hjlt Hj] | [-> <-]]; [| discriminate Hs].
      apply lookup_snoc_Some in Hi as [[_ Hi] | [-> _]]; [| lia].
      exact (inv_order _ Hinv i j ti tj Hlt Hi Hj Hs).
    + intros o Ho. unfold origins in Ho. rewrite He in Ho. rewrite Hq.
      destruct (inv_origins _ Hinv o Ho) as (t & Ht & Hended).
      exists t. split; [now apply lookup_app_l_Some | exact Hended].
    + unfold origins. rewrite He. exact (inv_sorted _ Hinv).
    + rewrite Hp, Hq, unfinished_snoc, (inv_pending _ Hinv). lia.
  - (* the event is refused *)
    assert (Ho : origins next = origins socket).
    { rewrite (origins_snoc socket next None em He). apply app_nil_r. }
    split.
    + rewrite Hq. exact (inv_order _ Hinv).
    + rewrite Ho, Hq. exact (inv_origins _ Hinv).
    + rewrite Ho. exact (inv_sorted _ Hinv).
    + rewrite Hp, Hq. exact (inv_pending _ Hinv).
  - (* the then stage of a unit moves on *)
    assert (Hin : (unit < List.length (sttQueue socket))%nat)
      by (eapply lookup_lt_Some; eauto).
    assert (Hnotdone : finished t = false) by (now destruct t).
    assert (Hearlier : forall o, o ∈ origins socket -> (o < unit)%nat).
    { intros o Ho.
      destruct (inv_origins _ Hinv o Ho) as (to & Hto & Hended).
      destruct (lt_eq_lt_dec o unit) as [[Hlt | ->] | Hgt]; [exact Hlt | |].
      - rewrite Hunit in Hto. injection Hto as <-. congruence.
      - assert (Hs : started to = true) by (now destruct to).
        pose proof (inv_order _ Hinv unit o t to Hgt Hunit Hto Hs). congruence. }
    split.
    + rewrite Hq. apply (order_insert _ unit t t' (inv_order _ Hinv) Hunit).
      * now left.
      * intros _. exact (predecessors_finished socket unit t Hinv Hunit Hturn).
    + intros o Ho. rewrite Hq.
      destruct He as [He | [[em He] Hended]].
      * unfold origins in Ho. rewrite He in Ho.
        pose proof (Hearlier o Ho) as Hlt.
        rewrite list_lookup_insert_ne by lia.
        exact (inv_origins _ Hinv o Ho).
      * rewrite (origins_snoc socket next (Some unit) em He) in Ho.
        apply elem_of_app in Ho as [Ho | Ho].
        -- pose proof (Hearlier o Ho) as Hlt.
           rewrite list_lookup_insert_ne by lia.
           exact (inv_origins _ Hinv o Ho).
        -- apply list_elem_of_singleton in Ho as ->.
           exists t'. split; [now apply list_lookup_insert_eq | exact Hended].
    + destruct He as [He | [[em He] _]].
      * unfold origins. rewrite He. exact (inv_sorted _ Hinv).
      * rewrite (origins_snoc socket next (Some unit) em He).
        apply StronglySorted_app_2;
          [| exact (inv_sorted _ Hinv) | repeat constructor].
        intros x1 x2 Hx1 Hx2. apply list_elem_of_singleton in Hx2 as ->.
        now apply Hearlier.
    + rewrite Hp, Hq, (inv_pending _ Hinv).
      destruct (unfinished_insert _ unit t t' Hunit Hnotdone) as [_ ->].
      now rewrite Hfinished.
  - (* the finally callback of a unit runs *)
    assert (Hin : (unit < List.length (sttQueue socket))%nat)
      by (eapply lookup_lt_Some; eauto).
    split.
    + rewrite Hq.
      apply (order_insert _ unit (Settled ok) (Finished ok) (inv_order _ Hinv) Hunit).
      * now right.
      * intros _.
        exact (predecessors_finished socket unit (Settled ok) Hinv Hunit
                 (or_introl eq_refl)).
    + intros o Ho. unfold origins in Ho. rewrite He in Ho. rewrite Hq.
      destruct (decide (unit = o)) as [<- | Hne].
      * exists (Finished ok). split; [now apply list_lookup_insert_eq | reflexivity].
      * rewrite list_lookup_insert_ne by exact Hne.
        exact (inv_origins _ Hinv o Ho).
    + unfold origins. rewrite He. exact (inv_sorted _ Hinv).
    + rewrite Hp, Hq, (inv_pending _ Hinv).
      destruct (unfinished_insert _ unit (Settled ok) (Finished ok) Hunit eq_refl)
        as [Hpos ->].
      cbn [finished]. lia.
Qed.

Lemma run_invariant (history : list (Z * event)) (socket next : Socket) :
  invariant socket -> run rt cfg socket history = Some next -> invariant next.
Proof.
  revert socket. induction history as [| [now e] rest IH]; intros socket Hinv Hrun.
  - cbn in Hrun. now injection Hrun as <-.
  - cbn in Hrun.
    destruct (step rt cfg socket now e) as [mid |] eqn:Hstep; [| discriminate Hrun].
    apply (IH mid); [| exact Hrun].
    apply (effect_invariant socket mid Hinv).
    exact (step_effect socket now e mid Hstep).
Qed.

(** In a list of emissions whose origins increase, an emission of a unit
    that comes before an emission of another unit is of the earlier unit. *)
Lemma sorted_origins_lookup (log : list (option nat * emission)) :
  StronglySorted lt (omap fst log) ->
  forall a b u v ea eb, (a < b)%nat ->
    log !! a = Some (Some u, ea) -> log !! b = Some (Some v, eb) -> (u < v)%nat.
Proof.
  induction log as [| [tag e] rest IH]; intros Hsorted a b u v ea eb Hlt Ha Hb.
  - discriminate Ha.
  - destruct b as [| b]; [lia |]. cbn in Hb.
    destruct a as [| a]; cbn in Ha.
    + injection Ha as -> ->. cbn in Hsorted.
      apply StronglySorted_cons in Hsorted as [Hall _].
      rewrite Forall_forall in Hall. apply Hall.
      apply list_elem_of_omap. exists (Some v, eb). split; [| reflexivity].
      apply list_elem_of_lookup. now exists b.
    + apply (IH) with (a := a) (b := b) (ea := ea) (eb := eb); try assumption; [| lia].
      destruct tag as [w |]; cbn in Hsorted; [| exact Hsorted].
      now apply StronglySorted_cons in Hsorted as [_ Htail].
Qed.

Lemma enabled_turn (socket : Socket) (unit : nat) (now : Z) (e : event)
    (next : Socket) :
  eventUnit e = Some unit ->
  step rt cfg socket now e = Some next ->
  exists t,
    sttQueue socket !! unit = Some t
    /\ (started t = true \/ is_Some (predecessor unit socket)).
Proof.
  intros He Hstep.
  destruct e as [data | u | u outcome | u outcome | u]; cbn in He;
    try discriminate He; injection He as ->; cbn in Hstep;
    destruct (sttQueue socket !! unit) as [[data | p | p tr | ok | ok] |];
    try discriminate Hstep.
  - destruct (predecessor unit socket) as [ok |]; [| discriminate Hstep].
    eexists. split; [reflexivity | right; now exists ok].
  - eexists. split; [reflexivity | now left].
  - eexists. split; [reflexivity | now left].
  - eexists. split; [reflexivity | now left].
Qed.

(** C1: in every state a connection can reach, a unit whose then stage has
    reacted has only finished units before it, so at most one unit is being
    processed at a time, and while a unit has not finished no callback of a
    later unit can run, however the answers of the services are timed; an
    accepted event is chained behind all earlier ones; and of two outcomes
    emitted by units of the chain the one emitted first comes from the unit
    submitted first. *)
Theorem sttQueue_serializes
    (callerId : string) (history : list (Z * event)) (socket : Socket) :
  run rt cfg (connect callerId) history = Some socket ->
  (forall i j ti tj,
     (i < j)%nat ->
     sttQueue socket !! i = Some ti -> sttQueue socket !! j = Some tj ->
     started tj = true -> finished ti = true)
  /\ (forall i j ti tj,
        sttQueue socket !! i = Some ti -> sttQueue socket !! j = Some tj ->
        inProgress ti = true -> inProgress tj = true -> i = j)
  /\ (forall i j ti now e,
        (i < j)%nat ->
        sttQueue socket !! i = Some ti -> finished ti = false ->
        eventUnit e = Some j ->
        step rt cfg socket now e = None)
  /\ (forall data now next,
        pendingSttRequests socket < MAX_STT_PENDING_REQUESTS cfg ->
        step rt cfg socket now (AudioRecording data) = Some next ->
        sttQueue next = (sttQueue socket ++ [Queued data])%list)
  /\ (forall a b u v ea eb,
        (a < b)%nat ->
        emitted socket !! a = Some (Some u, ea) ->
        emitted socket !! b = Some (Some v, eb) ->
        (u < v)%nat)
  /\ (forall a u ea,
        emitted socket !! a = Some (Some u, ea) ->
        exists t, sttQueue socket !! u = Some t /\ working t = false).
Proof.
  intros Hrun.
  pose proof (run_invariant history _ _ (invariant_connect callerId) Hrun) as Hinv.
  split; [exact (inv_order _ Hinv) |].
  split.
  { intros i j ti tj Hi Hj Hpi Hpj.
    unfold inProgress in Hpi, Hpj.
    apply andb_prop in Hpi as [Hsi Hfi]. apply andb_prop in Hpj as [Hsj Hfj].
    destruct (lt_eq_lt_dec i j) as [[Hlt | Heq] | Hgt]; [| exact Heq |].
    - rewrite (inv_order _ Hinv i j ti tj Hlt Hi Hj Hsj) in Hfi. discriminate Hfi.
    - rewrite (inv_order _ Hinv j i tj ti Hgt Hj Hi Hsi) in Hfj. discriminate Hfj. }
  split.
  { intros i j ti now e Hlt Hi Hfi He.
    destruct (step rt cfg socket now e) as [next |] eqn:Hstep; [| reflexivity].
    destruct (enabled_turn socket j now e next He Hstep) as (tj & Hj & Hturn).
    rewrite (predecessors_finished socket j tj Hinv Hj Hturn i ti Hlt Hi) in Hfi.
    discriminate Hfi. }
  split.
  { intros data now next Hroom Hstep. cbn in Hstep. injection Hstep as <-.
    unfold audioRecording.
    apply Z.leb_gt in Hroom. now rewrite Hroom. }
  split.
  { exact (sorted_origins_lookup _ (inv_sorted _ Hinv)). }
  intros a u ea Ha. apply (inv_origins _ Hinv).
  unfold origins. apply list_elem_of_omap. exists (Some u, ea).
  split; [| reflexivity]. apply list_elem_of_lookup. now exists a.
Qed.

Lemma unit_step_task (socket : Socket) (unit : nat) (now : Z) (e : event)
    (next : Socket) :
  eventUnit e = Some unit -> e <> RunFinally unit ->
  step rt cfg socket now e = Some next ->
  pendingSttRequests next = pendingSttRequests socket
  /\ exists t',
       sttQueue next !! unit = Some t'
       /\ ((exists fulfilled, t' = Settled fulfilled)
           \/ (exists p, t' = AwaitRecognize p)
           \/ (exists p transcription, t' = AwaitTranslate p transcription)).
Proof.
  intros He Hnot Hstep.
  destruct e as [data | u | u outcome | u outcome | u]; cbn in He;
    try discriminate He; injection He as ->; cbn in Hstep.
  - destruct (sttQueue socket !! unit) as [[data | | | |] |] eqn:Hq;
      try discriminate Hstep.
    apply lookup_lt_Some in Hq.
    destruct (predecessor unit socket) as [[] |]; [| | discriminate Hstep];
      injection Hstep as <-.
    + unfold runUnit.
      destruct (isRateLimited cfg now (sttRateTimestamps socket)) as [[] ts];
        [| destruct (parseAudioPayload rt cfg data)];
        cbn; (split; [reflexivity |]); eexists;
        (split; [now apply list_lookup_insert_eq |]); eauto.
    + cbn. split; [reflexivity |]. eexists.
      split; [now apply list_lookup_insert_eq |]. eauto.
  - destruct (sttQueue socket !! unit) as [[| p | | |] |] eqn:Hq;
      try discriminate Hstep.
    apply lookup_lt_Some in Hq.
    injection Hstep as <-. unfold recognizeSettles, processingFailed.
    destruct outcome as [sttResponse | reason];
      [destruct (JsString.isEmpty (transcriptionOf sttResponse));
         [| destruct (project cfg); [destruct (negb (JsString.eqb _ _)) |]]
      | destruct (Js.isNullish reason)];
      cbn; (split; [reflexivity |]); eexists;
      (split; [now apply list_lookup_insert_eq |]); eauto.
  - destruct (sttQueue socket !! unit) as [[| | p transcription | |] |] eqn:Hq;
      try discriminate Hstep.
    apply lookup_lt_Some in Hq.
    injection Hstep as <-. unfold translateSettles, processingFailed.
    destruct outcome as [translationResponse | reason];
      [| destruct (Js.isNullish reason)];
      cbn; (split; [reflexivity |]); eexists;
      (split; [now apply list_lookup_insert_eq |]); eauto.
  - congruence.
Qed.

(** C6: in every state a connection can reach the pending counter is the
    number of chained units that have not finished, so it is never negative;
    whichever way the then stage of a unit goes (rate limit, invalid
    payload, failed service, silence, result, an exception thrown by the
    callback, a rejection passed on) it leaves the counter alone and the unit
    waiting for a service or settled; the finally callback of a settled
    unit, fulfilled or rejected, can run, takes exactly one off the counter,
    which is what [Math.max(0, pending - 1)] gives, and finishes the unit;
    and a finished unit has no callback left, so it is counted down once. *)
Theorem pending_decremented_once_per_unit
    (callerId : string) (history : list (Z * event)) (socket : Socket) :
  run rt cfg (connect callerId) history = Some socket ->
  0 <= pendingSttRequests socket
  /\ pendingSttRequests socket = Z.of_nat (unfinished (sttQueue socket))
  /\ (forall unit now e next,
        eventUnit e = Some unit -> e <> RunFinally unit ->
        step rt cfg socket now e = Some next ->
        pendingSttRequests next = pendingSttRequests socket
        /\ exists t',
             sttQueue next !! unit = Some t'
             /\ ((exists fulfilled, t' = Settled fulfilled)
                 \/ (exists p, t' = AwaitRecognize p)
                 \/ (exists p transcription, t' = AwaitTranslate p transcription)))
  /\ (forall unit fulfilled now,
        sttQueue socket !! unit = Some (Settled fulfilled) ->
        exists next,
          step rt cfg socket now (RunFinally unit) = Some next
          /\ pendingSttRequests next = Z.max 0 (pendingSttRequests socket - 1)
          /\ pendingSttRequests next = pendingSttRequests socket - 1
          /\ sttQueue next !! unit = Some (Finished fulfilled))
  /\ (forall unit fulfilled now e,
        sttQueue socket !! unit = Some (Finished fulfilled) ->
        eventUnit e = Some unit ->
        step rt cfg socket now e = None).
Proof.
  intros Hrun.
  pose proof (run_invariant history _ _ (invariant_connect callerId) Hrun) as Hinv.
  pose proof (inv_pending _ Hinv) as Hcount.
  split; [lia |]. split; [exact Hcount |].
  split; [intros unit now e next; apply unit_step_task |].
  split.
  - intros unit ok now Hsettled.
    exists (runFinally unit ok socket). split; [cbn; now rewrite Hsettled |].
    destruct (unfinished_insert _ unit (Settled ok) (Finished ok) Hsettled eq_refl)
      as [Hpos _].
    cbn [runFinally setTask setPending pendingSttRequests sttQueue].
    split; [reflexivity |]. split; [lia |].
    apply list_lookup_insert_eq. eapply lookup_lt_Some; eauto.
  - intros unit ok now e Hdone He.
    destruct (step rt cfg socket now e) as [next |] eqn:Hstep; [| reflexivity].
    destruct (settled_unit_quiet socket unit _ now e next Hdone eq_refl He Hstep)
      as (_ & [b Hb] & _). discriminate Hb.
Qed.

End Properties.

(** ** The claims on sample inputs *)

(** C3, the claim as stated fails: the code "ja-JP" is in neither family
    and normalizes to "ja". *)
Lemma coarse_normalization_not_binary :
  normalizeTranslationLanguageCode Reference.runtime "ja-JP" = "ja"
  /\ "ja" <> "en" /\ "ja" <> "my".
Proof. split; [reflexivity | split; discriminate]. Qed.

Example base64_hello :
  Base64.encode [Byte.x68; Byte.x65; Byte.x6c; Byte.x6c; Byte.x6f] = "aGVsbG8=".
Proof. reflexivity. Qed.


Example sample_rate_absent_defaults :
  parseAudioPayload Reference.runtime Sample.config Sample.chunk
  = Ok {| audioBase64 := "aGVsbG8=";
          sourceLanguageCode := "en-US";
          targetLanguageCode := "my";
          recipientId := "B";
          sampleRateHertz := Js.ofZ 16000;
          encoding := "LINEAR16";
          sequenceId := VNull |}.
Proof. vm_compute. reflexivity. Qed.

Example sample_rate_zero_defaults :
  sampleRateHertz
    <$> match parseAudioPayload Reference.runtime Sample.config
                (Sample.chunkWith [("sampleRateHertz", VNumber (Js.ofZ 0))]) with
        | Ok p => Some p
        | Throw _ => None
        end
  = Some (Js.ofZ 16000).
Proof. vm_compute. reflexivity. Qed.

Example encoding_padded_lowercase :
  encoding
    <$> match parseAudioPayload Reference.runtime Sample.config
                (Sample.chunkWith [("encoding", VString " linear16 ")]) with
        | Ok p => Some p
        | Throw _ => None
        end
  = Some "LINEAR16"
  /\ encoding
       <$> match parseAudioPayload Reference.runtime Sample.config
                   (Sample.chunkWith [("encoding", VString "Ogg_Opus")]) with
           | Ok p => Some p
           | Throw _ => None
           end
     = Some "OGG_OPUS"
  /\ encoding
       <$> match parseAudioPayload Reference.runtime Sample.config
                   (Sample.chunkWith [("encoding", VNumber (Js.ofZ 16))]) with
           | Ok p => Some p
           | Throw _ => None
           end
     = Some "LINEAR16".
Proof. vm_compute. auto. Qed.

Example audio_data_uri :
  normalizeAudioToBase64 Reference.runtime (VString "data:audio/wav;base64,aGVs bG8=")
  = Ok "aGVsbG8="
  /\ normalizeAudioToBase64 Reference.runtime (VString "!!!invalid_base64!!!")
     = Throw "Audio payload is not valid base64"
  /\ normalizeAudioToBase64 Reference.runtime (VString "  ")
     = Throw "Empty audio payload"
  /\ normalizeAudioToBase64 Reference.runtime
       (VArray [VNumber (Js.ofZ 104); VNumber (Js.ofZ 357)])
     = Ok "aGU=".
Proof. vm_compute. auto. Qed.

Example language_unicode :
  normalizeTranslationLanguageCode Reference.runtime (String 0xc9 "N-us")
  = String 0xe9 "n"
  /\ normalizeTranslationLanguageCode Reference.runtime (Sample.nbsp ++ "MY-mm ")
     = "my"
  /\ resolveTargetLanguage Reference.runtime "en-US" (VString "ja") = "my"
  /\ resolveTargetLanguage Reference.runtime "my-MM" (VString (Sample.nbsp ++ "my"))
     = "my"
  /\ resolveTargetLanguage Reference.runtime "my-MM" (VString "ja") = "en".
Proof. vm_compute. auto 6. Qed.

Example sample_rate_replaced :
  parseAudioPayload Reference.runtime Sample.config
    (Js.set "sampleRateHertz" (VString "") Sample.english)
  = Ok (withSampleRate (Js.ofZ 16000) Sample.parsedEnglish)
  /\ parseAudioPayload Reference.runtime Sample.config
       (Js.set "sampleRateHertz" (VNumber (Js.ofZ 44100)) Sample.english)
     = Ok (withSampleRate (Js.ofZ 44100) Sample.parsedEnglish)
  /\ parseAudioPayload Reference.runtime Sample.config
       (Js.set "sampleRateHertz" (VNumber (Js.ofZ 7999)) Sample.english)
     = Throw "Invalid sample rate".
Proof. vm_compute. auto. Qed.

Example encoding_unicode :
  encoding
    <$> match parseAudioPayload Reference.runtime Sample.config
                (Sample.chunkWith
                   [("encoding", VString (Sample.nbsp ++ "flac" ++ Sample.nbsp))]) with
        | Ok p => Some p
        | Throw _ => None
        end
  = Some "FLAC"
  /\ encoding
       <$> match parseAudioPayload Reference.runtime Sample.config
                   (Sample.chunkWith [("encoding", VString (String 0xfb02 "ac"))]) with
           | Ok p => Some p
           | Throw _ => None
           end
     = Some "FLAC"
  /\ encoding
       <$> match parseAudioPayload Reference.runtime Sample.config
                   (Sample.chunkWith [("encoding", VString "mp3")]) with
           | Ok p => Some p
           | Throw _ => None
           end
     = Some "LINEAR16".
Proof. vm_compute. auto. Qed.

Example audio_unicode_space :
  normalizeAudioToBase64 Reference.runtime (VString ("aGVs" ++ Sample.nbsp ++ "bG8="))
  = Ok "aGVsbG8="
  /\ normalizeAudioToBase64 Reference.runtime (VString (Sample.nbsp ++ String 0x2003 ""))
     = Throw "Empty audio payload"
  /\ normalizeAudioToBase64 Reference.runtime
       (VArray [VNumber (Js.ofZ (-1)); VNumber (Finite (7 # 2)); VNumber NaN])
     = Ok "/wMA"
  /\ parseAudioPayload Reference.runtime Sample.config
       (Sample.chunkWith [("to", VString Sample.nbsp)])
     = Throw "Missing recipient id".
Proof. vm_compute. auto. Qed.

Example rate_limited_turn :
  let crowded := setRateTimestamps (List.repeat 0 20) Sample.waiting in
  (emitted <$> step Reference.runtime Sample.config crowded 9999 (RunUnit 0%nat))
  = Some [(Some 0%nat,
           ToSender {| SttError.code := "STT_RATE_LIMITED";
                       SttError.message := "Too many audio requests in a short time";
                       SttError.timestamp := 9999 |})]
  /\ (sttRateTimestamps
        <$> step Reference.runtime Sample.config crowded 10000 (RunUnit 0%nat))
     = Some [10000].
Proof. vm_compute. auto. Qed.

Example three_chunks_outcomes :
  let final := Sample.socketAfter Sample.threeChunks in
  List.map (fun '(origin, e) =>
              (origin,
               match e with
               | ToSender error => SttError.code error
               | ToRoom _ _ => "sttResult"
               end))
    (emitted final)
  = [(Some 0%nat, "STT_PROCESSING_FAILED"); (Some 1%nat, "STT_INVALID_PAYLOAD")]
  /\ sttQueue final = [Finished true; Finished true; Settled true]
  /\ pendingSttRequests final = 1.
Proof. vm_compute. auto. Qed.

Example rejected_chain_counts_down :
  let final := Sample.socketAfter Sample.rejectedChain in
  sttQueue final = [Finished false; Finished false]
  /\ emitted final = []
  /\ pendingSttRequests final = 0
  /\ List.length (requests final) = 1%nat.
Proof. vm_compute. auto. Qed.

(** The hypothesis of C1 holds of the three sample chunks. *)
Lemma sttQueue_serializes_sample :
  run Reference.runtime Sample.config (connect "A") Sample.threeChunks
  = Some (Sample.socketAfter Sample.threeChunks)
  /\ (forall a b u v ea eb,
        (a < b)%nat ->
        emitted (Sample.socketAfter Sample.threeChunks) !! a = Some (Some u, ea) ->
        emitted (Sample.socketAfter Sample.threeChunks) !! b = Some (Some v, eb) ->
        (u < v)%nat)
  /\ (forall i j ti tj,
        sttQueue (Sample.socketAfter Sample.threeChunks) !! i = Some ti ->
        sttQueue (Sample.socketAfter Sample.threeChunks) !! j = Some tj ->
        inProgress ti = true -> inProgress tj = true -> i = j).
Proof.
  assert (Hrun :
    run Reference.runtime Sample.config (connect "A") Sample.threeChunks
    = Some (Sample.socketAfter Sample.threeChunks)) by (vm_compute; reflexivity).
  split; [exact Hrun |].
  destruct (sttQueue_serializes Reference.runtime Sample.config "A"
              Sample.threeChunks _ Hrun)
    as (_ & Hone & _ & _ & Horder & _).
  split; [exact Horder | exact Hone].
Defined.

(** The hypothesis of C2 holds of a connection with eight chunks pending. *)
Lemma backpressure_rejects_sample :
  MAX_STT_PENDING_REQUESTS Sample.config <= pendingSttRequests Sample.busy
  /\ exists next,
       step Reference.runtime Sample.config Sample.busy 9
         (AudioRecording Sample.chunk) = Some next
       /\ emitted next
          = (emitted Sample.busy
             ++ [(None,
                  ToSender {| SttError.code := "STT_BACKPRESSURE";
                              SttError.message := "Too many queued audio chunks";
                              SttError.timestamp := 9 |})])%list
       /\ sttQueue next = sttQueue Sample.busy
       /\ pendingSttRequests next = pendingSttRequests Sample.busy
       /\ requests next = requests Sample.busy
       /\ sttRateTimestamps next = sttRateTimestamps Sample.busy.
Proof.
  assert (Hfull :
    MAX_STT_PENDING_REQUESTS Sample.config <= pendingSttRequests Sample.busy)
    by (vm_compute; discriminate).
  split; [exact Hfull |].
  exact (backpressure_rejects_at_submission Reference.runtime Sample.config
           Sample.busy Sample.chunk 9 Hfull).
Defined.

(** The hypotheses of C5 hold of a connection whose first chunk is queued. *)
Lemma rate_limit_at_turn_sample :
  sttQueue Sample.waiting !! 0%nat = Some (Queued Sample.chunk)
  /\ predecessor 0 Sample.waiting = Some true
  /\ exists next,
       step Reference.runtime Sample.config Sample.waiting 2 (RunUnit 0%nat)
       = Some next
       /\ pendingSttRequests next = pendingSttRequests Sample.waiting.
Proof.
  assert (Hqueued : sttQueue Sample.waiting !! 0%nat = Some (Queued Sample.chunk))
    by reflexivity.
  assert (Hturn : predecessor 0 Sample.waiting = Some true) by reflexivity.
  split; [exact Hqueued |]. split; [exact Hturn |].
  destruct (rate_limit_at_turn Reference.runtime Sample.config Sample.waiting
              0%nat Sample.chunk 2 Hqueued Hturn)
    as (next & Hstep & Hpending & _).
  exists next. split; [exact Hstep | exact Hpending].
Defined.

(** The hypothesis of C6 holds of the three sample chunks. *)
Lemma pending_decremented_sample :
  run Reference.runtime Sample.config (connect "A") Sample.threeChunks
  = Some (Sample.socketAfter Sample.threeChunks)
  /\ 0 <= pendingSttRequests (Sample.socketAfter Sample.threeChunks)
  /\ pendingSttRequests (Sample.socketAfter Sample.threeChunks)
     = Z.of_nat (unfinished (sttQueue (Sample.socketAfter Sample.threeChunks))).
Proof.
  assert (Hrun :
    run Reference.runtime Sample.config (connect "A") Sample.threeChunks
    = Some (Sample.socketAfter Sample.threeChunks)) by (vm_compute; reflexivity).
  split; [exact Hrun |].
  destruct (pending_decremented_once_per_unit Reference.runtime Sample.config "A"
              Sample.threeChunks _ Hrun)
    as (Hfloor & Hcount & _).
  split; [exact Hfloor | exact Hcount].
Defined.

(** The hypotheses of C7 hold of an English chunk that asks for English. *)
Lemma same_language_sample :
  sttQueue Sample.listening !! 0%nat = Some (AwaitRecognize Sample.parsedEnglish)
  /\ normalizeTranslationLanguageCode Reference.runtime (sourceLanguageCode Sample.parsedEnglish)
     = targetLanguageCode Sample.parsedEnglish
  /\ exists next,
       step Reference.runtime Sample.config Sample.listening 3
         (RecognizeSettles 0%nat (Resolved Sample.hello)) = Some next
       /\ requests next = requests Sample.listening
       /\ emitted next
          = [(Some 0%nat,
              ToRoom "B"
                {| SttResult.text := "hello";
                   SttResult.translated := "hello";
                   SttResult.from := "A";
                   SttResult.to := "B";
                   SttResult.sequenceId := VNull |})].
Proof.
  assert (Hawait :
    sttQueue Sample.listening !! 0%nat = Some (AwaitRecognize Sample.parsedEnglish))
    by (vm_compute; reflexivity).
  assert (Hsame :
    normalizeTranslationLanguageCode Reference.runtime (sourceLanguageCode Sample.parsedEnglish)
    = targetLanguageCode Sample.parsedEnglish) by reflexivity.
  split; [exact Hawait |]. split; [exact Hsame |].
  destruct (same_language_skips_translation Reference.runtime Sample.config
              Sample.listening 0%nat Sample.parsedEnglish (Resolved Sample.hello) 3
              Hawait Hsame)
    as (next & Hstep & Hrequests & _ & _ & Hemitted).
  exists next. split; [exact Hstep |]. split; [exact Hrequests |].
  exact (Hemitted Sample.hello eq_refl eq_refl).
Defined.

(** The hypotheses of C8 hold of a chunk answered with two results, one
    with a transcript of a no-break space and a space and one with no
    alternative. *)
Lemma empty_transcript_sample :
  sttQueue Sample.listening !! 0%nat = Some (AwaitRecognize Sample.parsedEnglish)
  /\ (JsString.isEmpty (transcriptionOf Sample.blankAnswer) = true
      \/ Forall Listed.blank (transcripts Sample.blankAnswer))
  /\ exists next,
       step Reference.runtime Sample.config Sample.listening 3
         (RecognizeSettles 0%nat (Resolved Sample.blankAnswer)) = Some next
       /\ emitted next = emitted Sample.listening
       /\ requests next = requests Sample.listening
       /\ sttQueue next !! 0%nat = Some (Settled true).
Proof.
  assert (Hawait :
    sttQueue Sample.listening !! 0%nat = Some (AwaitRecognize Sample.parsedEnglish))
    by (vm_compute; reflexivity).
  assert (Hsilent :
    JsString.isEmpty (transcriptionOf Sample.blankAnswer) = true
    \/ Forall Listed.blank (transcripts Sample.blankAnswer))
    by (left; reflexivity).
  split; [exact Hawait |]. split; [exact Hsilent |].
  destruct (empty_transcript_is_silent Reference.runtime Sample.config
              Sample.listening 0%nat Sample.parsedEnglish Sample.blankAnswer 3
              Hawait Hsilent)
    as (next & Hstep & Hemitted & Hrequests & Hsettled & _).
  exists next. auto.
Defined.

(** * The rest of the connection code *)

(** ** Call signalling and the handshake: definitions *)

(** The payload of [signalError]. *)
Module SignalError.
Record t : Type := { code : string; message : string; timestamp : Z }.
End SignalError.

(** What a signalling handler sends: an error to the sender itself, or a
    message to the room of a peer ([socket.to(room).emit]), or [leaveCall] to
    the sender. *)
Inductive signal : Type :=
| SignalErrorToSender (e : SignalError.t)
| NewCall (room callerId sdpOffer : string)
| CallAnswered (room callee sdpAnswer : string)
| CallEnded (room from : string)
| LeaveCall (to : string)
| IceCandidateTo (room sender : string) (iceCandidate : value).

Definition isNonEmptyString (v : value) : bool :=
  match v with
  | VString s => negb (JsString.isEmpty (JsString.trim s))
  | _ => false
  end.

(** [data[key].trim()] is a [TypeError] on a value that is not a string. *)
Definition getRequiredString (data : value) (key errorMessage : string) : result string :=
  _ <- throwIf (negb (Js.truthy data) || negb (Js.isObject data)
                || negb (isNonEmptyString (Js.get data key)))
         errorMessage ;;
  match Js.get data key with
  | VString s => Ok (JsString.trim s)
  | _ => Throw "data[key].trim is not a function"
  end.

Definition emitSignalError (code message : string) (now : Z) : signal :=
  SignalErrorToSender
    {| SignalError.code := code; SignalError.message := message;
       SignalError.timestamp := now |}.

(** [try { ... } catch (validationError) { emitSignalError(...); return; }] *)
Definition orSignalError {A : Type}
    (validated : result A) (code : string) (now : Z)
    (k : A -> result (list signal)) : result (list signal) :=
  match validated with
  | Ok a => k a
  | Throw message => Ok [emitSignalError code message now]
  end.

Definition makeCall (user : string) (data : value) (now : Z) : result (list signal) :=
  orSignalError
    (calleeId <- getRequiredString data "calleeId" "calleeId is required" ;;
     sdpOffer <- getRequiredString data "sdpOffer" "sdpOffer is required" ;;
     Ok (calleeId, sdpOffer))
    "INVALID_MAKE_CALL_PAYLOAD" now
    (fun '(calleeId, sdpOffer) => Ok [NewCall calleeId user sdpOffer]).

Definition answerCall (user : string) (data : value) (now : Z) : result (list signal) :=
  orSignalError
    (callerId <- getRequiredString data "callerId" "callerId is required" ;;
     sdpAnswer <- getRequiredString data "sdpAnswer" "sdpAnswer is required" ;;
     Ok (callerId, sdpAnswer))
    "INVALID_ANSWER_CALL_PAYLOAD" now
    (fun '(callerId, sdpAnswer) => Ok [CallAnswered callerId user sdpAnswer]).

Definition endCall (user : string) (data : value) (now : Z) : result (list signal) :=
  orSignalError
    (getRequiredString data "calleeId" "calleeId is required")
    "INVALID_END_CALL_PAYLOAD" now
    (fun calleeId => Ok [CallEnded calleeId user; LeaveCall calleeId]).

Definition iceCandidate (user : string) (data : value) (now : Z) : result (list signal) :=
  orSignalError
    (calleeId <- getRequiredString data "calleeId" "calleeId is required" ;;
     _ <- throwIf (negb (Js.truthy data) || negb (Js.isObject data)
                   || Js.isNullish (Js.get data "iceCandidate"))
            "iceCandidate is required" ;;
     Ok (calleeId, Js.get data "iceCandidate"))
    "INVALID_ICE_CANDIDATE_PAYLOAD" now
    (fun '(calleeId, candidate) => Ok [IceCandidateTo calleeId user candidate]).

(** [runSafeHandler]: what the handler sends, or the report of what it
    threw. *)
Definition runSafeHandler
    (eventName : string) (handler : value -> Z -> result (list signal))
    (data : value) (now : Z) : list signal :=
  match handler data now with
  | Ok sent => sent
  | Throw _ =>
      [emitSignalError "UNHANDLED_SERVER_ERROR"
         ("Unexpected server error in " ++ eventName) now]
  end.

(** The four signalling events as they are registered on a socket. *)
Definition signalling (user : string) : list (string * (value -> Z -> list signal)) :=
  [ ("makeCall", runSafeHandler "makeCall" (makeCall user));
    ("answerCall", runSafeHandler "answerCall" (answerCall user));
    ("endCall", runSafeHandler "endCall" (endCall user));
    ("IceCandidate", runSafeHandler "IceCandidate" (iceCandidate user)) ].

(** The middleware of [IO.use]: the [callerId] of the handshake query makes
    [socket.user], or the connection is refused. *)
Definition handshake (callerId : value) : result string :=
  match callerId with
  | VString s =>
      _ <- throwIf (JsString.isEmpty (JsString.trim s))
             "callerId query parameter is required" ;;
      Ok (JsString.trim s)
  | _ => Throw "callerId query parameter is required"
  end.

(** The room a signal is sent to, when it goes to a peer. *)
Definition peerRoom (s : signal) : option string :=
  match s with
  | NewCall room _ _ | CallAnswered room _ _ | CallEnded room _
  | IceCandidateTo room _ _ => Some room
  | SignalErrorToSender _ | LeaveCall _ => None
  end.

(** The identity a signal names as its origin. *)
Definition signalOrigin (s : signal) : option string :=
  match s with
  | NewCall _ callerId _ => Some callerId
  | CallAnswered _ callee _ => Some callee
  | CallEnded _ from => Some from
  | IceCandidateTo _ sender _ => Some sender
  | SignalErrorToSender _ | LeaveCall _ => None
  end.

Definition isSignalError (s : signal) : bool :=
  match s with SignalErrorToSender _ => true | _ => false end.

(** A string that [trim] leaves as it is and that is not empty. *)
Definition trimmedNonEmpty (s : string) : Prop :=
  s <> "" /\ JsString.trim s = s.

Lemma trimmedNonEmpty_trim (s : string) :
  JsString.isEmpty (JsString.trim s) = false -> trimmedNonEmpty (JsString.trim s).
Proof.
  intros H. split; [now apply isEmpty_false | apply trim_idempotent].
Qed.

(** ** Call signalling and the handshake: properties *)

(** A value that is not a string, or a string of white space only. *)
Definition blankOrMissing (v : value) : Prop :=
  forall raw, v = VString raw -> Listed.blank raw.

Lemma isNonEmptyString_false (v : value) :
  isNonEmptyString v = false <-> blankOrMissing v.
Proof.
  unfold blankOrMissing.
  destruct v as [| | b | n | s | bs | bs | xs | fs]; cbn;
    try (split; [intros _ raw H; discriminate H | reflexivity]).
  rewrite negb_false_iff, trim_empty_blank. split.
  - intros H raw [= <-]. exact H.
  - intros H. now apply H.
Qed.

Lemma isNonEmptyString_true (v : value) :
  isNonEmptyString v = true
  <-> exists raw core, v = VString raw /\ Listed.padded raw core.
Proof.
  split.
  - destruct v as [| | b | n | s | bs | bs | xs | fs]; cbn; try discriminate.
    intros H. apply negb_true_iff in H.
    exists s, (JsString.trim s). split; [reflexivity |].
    destruct (trim_cases s) as [[_ Hnone] | Hpadded]; [| exact Hpadded].
    rewrite Hnone in H. discriminate H.
  - intros (raw & core & -> & Hpadded). cbn.
    rewrite (trim_padded _ _ Hpadded).
    destruct Hpadded as [(c & Hhead & _) _].
    destruct core; [discriminate Hhead | reflexivity].
Qed.

Lemma get_string_object (data : value) (key raw : string) :
  Js.get data key = VString raw -> Js.truthy data = true /\ Js.isObject data = true.
Proof. destruct data; cbn; intros H; try discriminate H. now split. Qed.

Lemma getRequiredString_cases (data : value) (key errorMessage : string) :
  (exists raw core,
     Js.get data key = VString raw
     /\ Listed.padded raw core
     /\ getRequiredString data key errorMessage = Ok core)
  \/ (blankOrMissing (Js.get data key)
      /\ getRequiredString data key errorMessage = Throw errorMessage).
Proof.
  unfold getRequiredString, bind, throwIf.
  destruct (isNonEmptyString (Js.get data key)) eqn:Hfield.
  - left. apply isNonEmptyString_true in Hfield as (raw & core & Hget & Hpadded).
    destruct (get_string_object data key raw Hget) as [-> ->].
    exists raw, core. rewrite Hget. cbn.
    now rewrite (trim_padded _ _ Hpadded).
  - right. split; [now apply isNonEmptyString_false |]. now rewrite !orb_true_r.
Qed.

Lemma getRequiredString_blank (data : value) (key errorMessage : string) :
  blankOrMissing (Js.get data key) ->
  getRequiredString data key errorMessage = Throw errorMessage.
Proof.
  intros Hbad.
  destruct (getRequiredString_cases data key errorMessage)
    as [(raw & core & Hget & Hpadded & _) | [_ H]]; [| exact H].
  pose proof (trim_blank raw (Hbad raw Hget)) as Hnone.
  rewrite (trim_padded _ _ Hpadded) in Hnone. subst core.
  destruct Hpadded as [(c & Hhead & _) _]. discriminate Hhead.
Qed.

Lemma getRequiredString_present (data : value) (key errorMessage raw core : string) :
  Js.get data key = VString raw ->
  Listed.padded raw core ->
  getRequiredString data key errorMessage = Ok core.
Proof.
  intros Hget Hpadded.
  destruct (getRequiredString_cases data key errorMessage)
    as [(raw' & core' & Hget' & Hpadded' & H) | [Hbad _]].
  - rewrite Hget in Hget'. injection Hget' as <-.
    now rewrite <- (trim_padded _ _ Hpadded'), (trim_padded _ _ Hpadded) in H.
  - pose proof (trim_blank raw (Hbad raw Hget)) as Hnone.
    rewrite (trim_padded _ _ Hpadded) in Hnone. subst core.
    destruct Hpadded as [(c & Hhead & _) _]. discriminate Hhead.
Qed.

(** X1: [getRequiredString] gives a property that is a string with
    something besides white space in it without the white space around it:
    what it gives neither starts nor ends with white space and is not
    empty.  In every other case (no object, no such property, not a string,
    a string of white space only, that of Unicode included) it throws the
    message it was given, and nothing else. *)
Theorem getRequiredString_trimmed (data : value) (key errorMessage : string) :
  (forall s,
     getRequiredString data key errorMessage = Ok s ->
     exists raw, Js.get data key = VString raw /\ Listed.padded raw s)
  /\ (forall thrown,
        getRequiredString data key errorMessage = Throw thrown ->
        thrown = errorMessage /\ blankOrMissing (Js.get data key))
  /\ (forall raw core,
        Js.get data key = VString raw ->
        Listed.padded raw core ->
        getRequiredString data key errorMessage = Ok core)
  /\ (blankOrMissing (Js.get data key) ->
      getRequiredString data key errorMessage = Throw errorMessage).
Proof.
  split; [| split; [| split]].
  - intros s Hs.
    destruct (getRequiredString_cases data key errorMessage)
      as [(raw & core & Hget & Hpadded & Hok) | [_ Hthrow]]; [| congruence].
    rewrite Hok in Hs. injection Hs as <-. now exists raw.
  - intros thrown Ht.
    destruct (getRequiredString_cases data key errorMessage)
      as [(raw & core & _ & _ & Hok) | [Hbad Hthrow]]; [congruence |].
    rewrite Hthrow in Ht. injection Ht as <-. now split.
  - intros raw core. apply getRequiredString_present.
  - apply getRequiredString_blank.
Qed.

(** The code a signalling event reports an invalid payload with. *)
Definition signalErrorCodes : list (string * string) :=
  [ ("makeCall", "INVALID_MAKE_CALL_PAYLOAD");
    ("answerCall", "INVALID_ANSWER_CALL_PAYLOAD");
    ("endCall", "INVALID_END_CALL_PAYLOAD");
    ("IceCandidate", "INVALID_ICE_CANDIDATE_PAYLOAD") ].

(** What a signalling handler may send on a valid payload. *)
Definition forwardOf (user : string) (s : signal) : Prop :=
  isSignalError s = false
  /\ (forall room, peerRoom s = Some room -> Listed.solid room)
  /\ (forall origin, signalOrigin s = Some origin -> origin = user)
  /\ (forall to, s = LeaveCall to -> Listed.solid to).

Lemma forwardOf_room (user : string) (s : signal) (room : string) :
  Listed.solid room ->
  isSignalError s = false ->
  peerRoom s = Some room \/ s = LeaveCall room ->
  signalOrigin s = Some user \/ signalOrigin s = None ->
  forwardOf user s.
Proof.
  intros Hroom Herr Hto Hfrom. split; [exact Herr |]. split; [| split].
  - intros r Hr. destruct Hto as [Hto | ->]; [| discriminate Hr]. congruence.
  - intros o Ho. destruct Hfrom as [Hfrom | Hfrom]; congruence.
  - intros to ->. destruct Hto as [Hto | Hto]; [discriminate Hto |].
    now injection Hto as <-.
Qed.

(** X2: each of the four signalling events sends either one [signalError]
    to the sender, with the code of that event and never
    UNHANDLED_SERVER_ERROR, and nothing to any peer; or no error at all and
    only messages whose room is not empty and neither starts nor ends with
    white space, and whose origin is the identity of the sending socket. *)
Theorem signalling_all_or_nothing
    (user eventName : string) (handler : value -> Z -> list signal)
    (data : value) (now : Z) :
  In (eventName, handler) (signalling user) ->
  (exists e,
     handler data now = [SignalErrorToSender e]
     /\ In (eventName, SignalError.code e) signalErrorCodes
     /\ SignalError.timestamp e = now)
  \/ (handler data now <> [] /\ Forall (forwardOf user) (handler data now)).
Proof.
  intros Hin. cbn in Hin.
  destruct Hin as [H | [H | [H | [H | []]]]]; injection H as <- <-;
    unfold runSafeHandler, makeCall, answerCall, endCall, iceCandidate,
      orSignalError, bind.
  - destruct (getRequiredString_cases data "calleeId" "calleeId is required")
      as [(c & room & _ & [Hroom _] & ->) | [_ ->]];
      [| left; eexists; cbn; intuition].
    destruct (getRequiredString_cases data "sdpOffer" "sdpOffer is required")
      as [(o & offer & _ & _ & ->) | [_ ->]];
      [| left; eexists; cbn; intuition].
    right. split; [discriminate |]. constructor; [| constructor].
    apply (forwardOf_room user _ room); cbn; auto.
  - destruct (getRequiredString_cases data "callerId" "callerId is required")
      as [(c & room & _ & [Hroom _] & ->) | [_ ->]];
      [| left; eexists; cbn; intuition].
    destruct (getRequiredString_cases data "sdpAnswer" "sdpAnswer is required")
      as [(o & answer & _ & _ & ->) | [_ ->]];
      [| left; eexists; cbn; intuition].
    right. split; [discriminate |]. constructor; [| constructor].
    apply (forwardOf_room user _ room); cbn; auto.
  - destruct (getRequiredString_cases data "calleeId" "calleeId is required")
      as [(c & room & _ & [Hroom _] & ->) | [_ ->]];
      [| left; eexists; cbn; intuition].
    right. split; [discriminate |].
    constructor; [| constructor; [| constructor]];
      apply (forwardOf_room user _ room); cbn; auto.
  - destruct (getRequiredString_cases data "calleeId" "calleeId is required")
      as [(c & room & _ & [Hroom _] & ->) | [_ ->]];
      [| left; eexists; cbn; intuition].
    unfold throwIf.
    destruct (negb (Js.truthy data) || negb (Js.isObject data)
              || Js.isNullish (Js.get data "iceCandidate"));
      [left; eexists; cbn; intuition |].
    right. split; [discriminate |]. constructor; [| constructor].
    apply (forwardOf_room user _ room); cbn; auto.
Qed.

(** X3: [makeCall] forwards to the room named by [calleeId], without the
    white space around it, a [newCall] that names the sending socket and
    carries the [sdpOffer] without the white space around it; when
    [calleeId] is missing or blank the sender is told "calleeId is
    required", also when [sdpOffer] is missing too, and when only
    [sdpOffer] is missing or blank "sdpOffer is required".  [answerCall]
    does the same with [callerId] and [sdpAnswer]. *)
Theorem offer_and_answer_forwarded (user : string) (data : value) (now : Z) :
  (forall callee room offer sdp,
     Js.get data "calleeId" = VString callee -> Listed.padded callee room ->
     Js.get data "sdpOffer" = VString offer -> Listed.padded offer sdp ->
     runSafeHandler "makeCall" (makeCall user) data now
     = [NewCall room user sdp])
  /\ (blankOrMissing (Js.get data "calleeId") ->
      runSafeHandler "makeCall" (makeCall user) data now
      = [emitSignalError "INVALID_MAKE_CALL_PAYLOAD" "calleeId is required" now])
  /\ (forall callee room,
        Js.get data "calleeId" = VString callee -> Listed.padded callee room ->
        blankOrMissing (Js.get data "sdpOffer") ->
        runSafeHandler "makeCall" (makeCall user) data now
        = [emitSignalError "INVALID_MAKE_CALL_PAYLOAD" "sdpOffer is required" now])
  /\ (forall caller room answer sdp,
        Js.get data "callerId" = VString caller -> Listed.padded caller room ->
        Js.get data "sdpAnswer" = VString answer -> Listed.padded answer sdp ->
        runSafeHandler "answerCall" (answerCall user) data now
        = [CallAnswered room user sdp])
  /\ (blankOrMissing (Js.get data "callerId") ->
      runSafeHandler "answerCall" (answerCall user) data now
      = [emitSignalError "INVALID_ANSWER_CALL_PAYLOAD" "callerId is required" now])
  /\ (forall caller room,
        Js.get data "callerId" = VString caller -> Listed.padded caller room ->
        blankOrMissing (Js.get data "sdpAnswer") ->
        runSafeHandler "answerCall" (answerCall user) data now
        = [emitSignalError "INVALID_ANSWER_CALL_PAYLOAD" "sdpAnswer is required" now]).
Proof.
  unfold runSafeHandler, makeCall, answerCall, orSignalError, bind.
  repeat apply conj.
  - intros callee room offer sdp Hc Hroom Ho Hsdp.
    now rewrite (getRequiredString_present _ _ _ _ _ Hc Hroom),
      (getRequiredString_present _ _ _ _ _ Ho Hsdp).
  - intros Hbad. now rewrite (getRequiredString_blank _ _ _ Hbad).
  - intros callee room Hc Hroom Hbad.
    now rewrite (getRequiredString_present _ _ _ _ _ Hc Hroom),
      (getRequiredString_blank _ _ _ Hbad).
  - intros caller room answer sdp Hc Hroom Ho Hsdp.
    now rewrite (getRequiredString_present _ _ _ _ _ Hc Hroom),
      (getRequiredString_present _ _ _ _ _ Ho Hsdp).
  - intros Hbad. now rewrite (getRequiredString_blank _ _ _ Hbad).
  - intros caller room Hc Hroom Hbad.
    now rewrite (getRequiredString_present _ _ _ _ _ Hc Hroom),
      (getRequiredString_blank _ _ _ Hbad).
Qed.

(** X4: [endCall] with a [calleeId] that is not blank tells the room named
    by it, without the white space around it, that the sending socket ended
    the call and then tells the sender to leave the call with that peer;
    with a missing or blank [calleeId] the sender gets the error alone and
    is not told to leave. *)
Theorem end_call_notifies_both (user : string) (data : value) (now : Z) :
  (forall callee room,
     Js.get data "calleeId" = VString callee -> Listed.padded callee room ->
     runSafeHandler "endCall" (endCall user) data now
     = [CallEnded room user; LeaveCall room])
  /\ (blankOrMissing (Js.get data "calleeId") ->
      runSafeHandler "endCall" (endCall user) data now
      = [emitSignalError "INVALID_END_CALL_PAYLOAD" "calleeId is required" now]).
Proof.
  unfold runSafeHandler, endCall, orSignalError. split.
  - intros callee room Hc Hroom.
    now rewrite (getRequiredString_present _ _ _ _ _ Hc Hroom).
  - intros Hbad. now rewrite (getRequiredString_blank _ _ _ Hbad).
Qed.

(** X5: [IceCandidate] with a [calleeId] that is not blank forwards the
    candidate as it is whenever it is neither null nor undefined, so also
    when it is false, 0 or the empty string, and reports "iceCandidate is
    required" when it is null or undefined; a missing or blank [calleeId]
    is reported first. *)
Theorem ice_candidate_forwarded (user : string) (data : value) (now : Z) :
  (forall callee room,
     Js.get data "calleeId" = VString callee -> Listed.padded callee room ->
     (Js.get data "iceCandidate" = VUndefined \/ Js.get data "iceCandidate" = VNull ->
      runSafeHandler "IceCandidate" (iceCandidate user) data now
      = [emitSignalError "INVALID_ICE_CANDIDATE_PAYLOAD"
           "iceCandidate is required" now])
     /\ (Js.get data "iceCandidate" <> VUndefined ->
         Js.get data "iceCandidate" <> VNull ->
         runSafeHandler "IceCandidate" (iceCandidate user) data now
         = [IceCandidateTo room user (Js.get data "iceCandidate")]))
  /\ (blankOrMissing (Js.get data "calleeId") ->
      runSafeHandler "IceCandidate" (iceCandidate user) data now
      = [emitSignalError "INVALID_ICE_CANDIDATE_PAYLOAD" "calleeId is required" now]).
Proof.
  unfold runSafeHandler, iceCandidate, orSignalError, bind, throwIf. split.
  - intros callee room Hc Hroom.
    rewrite (getRequiredString_present _ _ _ _ _ Hc Hroom).
    destruct (get_string_object data _ _ Hc) as [-> ->]. cbn [negb orb].
    split.
    + intros [-> | ->]; reflexivity.
    + intros Hu Hn. destruct (Js.get data "iceCandidate"); try reflexivity;
        congruence.
  - intros Hbad. now rewrite (getRequiredString_blank _ _ _ Hbad).
Qed.

(** X6: the handshake accepts a [callerId] exactly when it is a string with
    something besides white space in it; the identity bound to the socket is
    that string without the white space around it, which is not empty,
    neither starts nor ends with white space and is accepted again as it
    is; the socket starts with no pending request, no timestamp and an empty
    chain.  Anything else, a string of Unicode white space included, is
    refused with "callerId query parameter is required". *)
Theorem handshake_binds_identity (callerId : value) :
  (forall identity,
     handshake callerId = Ok identity ->
     (exists raw, callerId = VString raw /\ Listed.padded raw identity)
     /\ handshake (VString identity) = Ok identity
     /\ user (connect identity) = identity
     /\ pendingSttRequests (connect identity) = 0
     /\ sttRateTimestamps (connect identity) = []
     /\ sttQueue (connect identity) = [])
  /\ (forall reason,
        handshake callerId = Throw reason ->
        reason = "callerId query parameter is required"
        /\ blankOrMissing callerId)
  /\ (forall raw identity,
        callerId = VString raw -> Listed.padded raw identity ->
        handshake callerId = Ok identity)
  /\ (blankOrMissing callerId ->
      handshake callerId = Throw "callerId query parameter is required").
Proof.
  assert (Hmissing : forall v, (forall raw, v <> VString raw) -> blankOrMissing v).
  { intros v Hv raw Heq. now destruct (Hv raw). }
  unfold handshake, bind, throwIf.
  destruct callerId as [| | b | n | raw | bs | bs | xs | fs];
    try (split; [intros identity H; discriminate H |];
         split; [intros reason [= <-]; split; [reflexivity |];
                 apply Hmissing; discriminate |];
         split; [intros raw identity H; discriminate H | reflexivity]).
  destruct (trim_cases raw) as [[Hblank Hnone] | Hpadded].
  - rewrite Hnone. cbn [JsString.isEmpty].
    split; [intros identity H; discriminate H |].
    split; [intros reason [= <-]; split; [reflexivity |];
            now intros raw' [= <-] |].
    split; [| reflexivity].
    intros raw' identity [= <-] Hp.
    rewrite (trim_padded _ _ Hp) in Hnone. subst identity.
    destruct Hp as [(c & Hhead & _) _]. discriminate Hhead.
  - pose proof Hpadded as [Hsolid _].
    pose proof (proj1 (solid_trimmed _) Hsolid) as [Hne Hidem].
    apply isEmpty_false in Hne. rewrite Hne.
    split; [| split; [intros reason H; discriminate H | split]].
    + intros identity [= <-].
      split; [now exists raw |]. split; [| now cbn].
      now rewrite Hidem, Hne.
    + intros raw' identity [= <-] Hp. now rewrite (trim_padded _ _ Hp) in *.
    + intros Hbad. pose proof (trim_blank raw (Hbad raw eq_refl)) as Hnone.
      rewrite Hnone in Hne. discriminate Hne.
Qed.

(** ** Language codes and payloads: properties *)

(** A primary language subtag in lower case: 2 or 3 letters a-z. *)
Definition isLanguageSubtag (s : string) : Prop :=
  (2 <= JsString.length s <= 3)%nat /\ JsString.forallb JsString.isLower s = true.

Lemma languageTagRuns_first (t : string) (count : nat) :
  languageTagRuns true count t = true ->
  JsString.forallb JsString.isLetter (JsString.splitFirst t HYPHEN_MINUS) = true
  /\ (2 <= count + JsString.length (JsString.splitFirst t HYPHEN_MINUS) <= 3)%nat.
Proof.
  revert count. induction t as [| c r IH]; intros count;
    cbn [languageTagRuns JsString.splitFirst].
  - unfold runLengthOk. intros H. apply andb_prop in H as [Hlow Hhigh].
    apply Nat.leb_le in Hlow, Hhigh. split; [reflexivity | cbn; lia].
  - destruct (JsString.isLetter c) eqn:Hletter.
    + intros H. destruct (IH (S count) H) as [Hall Hlen].
      assert (Hdash : (HYPHEN_MINUS =? c)%N = false).
      { destruct (HYPHEN_MINUS =? c)%N eqn:Heq; [| reflexivity].
        apply N.eqb_eq in Heq. subst c. discriminate Hletter. }
      rewrite Hdash. cbn [JsString.forallb JsString.length].
      rewrite Hletter, Hall. split; [reflexivity | lia].
    + destruct (c =? HYPHEN_MINUS)%N eqn:Hdash; [| discriminate].
      intros H. apply andb_prop in H as [Hrun _].
      rewrite N.eqb_sym, Hdash. cbn [JsString.forallb JsString.length].
      unfold runLengthOk in Hrun. apply andb_prop in Hrun as [Hlow Hhigh].
      apply Nat.leb_le in Hlow, Hhigh. split; [reflexivity | lia].
Qed.

Lemma lowerChar_dash (c : codeUnit) :
  (HYPHEN_MINUS =? JsString.lowerUnit c)%N = (HYPHEN_MINUS =? c)%N.
Proof.
  unfold JsString.lowerUnit. destruct (JsString.isUpper c) eqn:Hc; [| reflexivity].
  destruct (N.eqb_spec HYPHEN_MINUS (c + 32)), (N.eqb_spec HYPHEN_MINUS c);
    try reflexivity; units.
Qed.

Lemma lowerChar_letter (c : codeUnit) :
  JsString.isLetter c = true -> JsString.isLower (JsString.lowerUnit c) = true.
Proof.
  intros H. unfold JsString.lowerUnit.
  destruct (JsString.isUpper c) eqn:Hc; units.
Qed.

Lemma splitFirst_lower (t : string) :
  JsString.splitFirst (JsString.map JsString.lowerUnit t) HYPHEN_MINUS
  = JsString.map JsString.lowerUnit (JsString.splitFirst t HYPHEN_MINUS).
Proof.
  induction t as [| c r IH]; [reflexivity |].
  cbn [JsString.map JsString.splitFirst].
  rewrite lowerChar_dash.
  destruct (HYPHEN_MINUS =? c)%N; [reflexivity |].
  cbn [JsString.map]. now rewrite <- IH.
Qed.

Lemma lower_letters (s : string) :
  JsString.forallb JsString.isLetter s = true ->
  JsString.forallb JsString.isLower (JsString.map JsString.lowerUnit s) = true
  /\ JsString.length (JsString.map JsString.lowerUnit s) = JsString.length s.
Proof.
  induction s as [| c r IH]; [now split |].
  cbn [JsString.map JsString.forallb JsString.length].
  intros H. apply andb_prop in H as [Hc Hr].
  destruct (IH Hr) as [Hall Hlen].
  rewrite (lowerChar_letter c Hc), Hall, Hlen. now split.
Qed.

(** A string that matches the pattern of language codes is ASCII. *)
Lemma languageTagRuns_ascii (first : bool) (count : nat) (t : string) :
  languageTagRuns first count t = true -> JsString.isAscii t = true.
Proof.
  revert first count. induction t as [| c r IH]; intros first count; [reflexivity |].
  cbn [languageTagRuns]. unfold JsString.isAscii. cbn [JsString.forallb].
  destruct (JsString.isLetter c) eqn:Hletter.
  - intros H. apply andb_true_intro. split; [units | exact (IH _ _ H)].
  - destruct (c =? HYPHEN_MINUS)%N eqn:Hdash; [| discriminate].
    intros H. apply andb_prop in H as [_ H].
    apply andb_true_intro. split; [units | exact (IH _ _ H)].
Qed.

Lemma splitFirst_ascii (t : string) (c : codeUnit) :
  JsString.isAscii t = true -> JsString.isAscii (JsString.splitFirst t c) = true.
Proof.
  unfold JsString.isAscii. induction t as [| d r IH]; [reflexivity |].
  cbn [JsString.forallb JsString.splitFirst]. intros H.
  apply andb_prop in H as [Hd Hr].
  destruct (c =? d)%N; [reflexivity |].
  cbn [JsString.forallb]. now rewrite Hd, IH.
Qed.

Lemma valid_code_subtag (rt : Runtime) (languageCode : string) :
  isValidLanguageCode (VString languageCode) = true ->
  isLanguageSubtag (normalizeTranslationLanguageCode rt languageCode)
  /\ (normalizeTranslationLanguageCode rt languageCode <> "en" ->
      normalizeTranslationLanguageCode rt languageCode <> "my" ->
      normalizeTranslationLanguageCode rt languageCode
      = toLowerCase rt (JsString.splitFirst (JsString.trim languageCode) HYPHEN_MINUS)).
Proof.
  cbn [isValidLanguageCode]. unfold languageTagTest. intros Hvalid.
  destruct (languageTagRuns_first _ 0 Hvalid) as [Hletters Hlen].
  destruct (lower_letters _ Hletters) as [Hlower Hsame].
  pose proof (languageTagRuns_ascii _ _ _ Hvalid) as Hascii.
  assert (Htwo : forall s, s = "my" \/ s = "en" -> isLanguageSubtag s).
  { intros s [-> | ->]; (split; [cbn; lia | reflexivity]). }
  unfold normalizeTranslationLanguageCode.
  destruct (JsString.isEmpty languageCode) eqn:Hempty.
  { destruct languageCode; [| discriminate Hempty]. discriminate Hvalid. }
  destruct (JsString.startsWith _ "my"); [split; [auto | congruence] |].
  destruct (JsString.startsWith _ "en"); [split; [auto | congruence] |].
  rewrite (toLowerCase_ascii rt _ Hascii), splitFirst_lower,
    (toLowerCase_ascii rt _ (splitFirst_ascii _ HYPHEN_MINUS Hascii)).
  split; [| reflexivity].
  split; [rewrite Hsame; lia | exact Hlower].
Qed.

(** X7: the coarse form of a syntactically valid language code is 2 or 3
    letters a-z, never empty: "my", "en", or else the primary subtag of the
    trimmed code in lower case. *)
Theorem valid_code_normalizes_to_subtag (rt : Runtime) (languageCode : string) :
  isValidLanguageCode (VString languageCode) = true ->
  isLanguageSubtag (normalizeTranslationLanguageCode rt languageCode)
  /\ normalizeTranslationLanguageCode rt languageCode <> ""
  /\ (normalizeTranslationLanguageCode rt languageCode <> "en" ->
      normalizeTranslationLanguageCode rt languageCode <> "my" ->
      normalizeTranslationLanguageCode rt languageCode
      = toLowerCase rt (JsString.splitFirst (JsString.trim languageCode) HYPHEN_MINUS)).
Proof.
  intros Hvalid. destruct (valid_code_subtag rt languageCode Hvalid) as [Hsub Hform].
  split; [exact Hsub |]. split; [| exact Hform].
  destruct Hsub as [[Hlow _] _].
  destruct (normalizeTranslationLanguageCode rt languageCode); [cbn in Hlow; lia |].
  discriminate.
Qed.

(** X8: the target language is resolved to the coarse form of the source
    only when the caller asked for it: the requested target is then a valid
    code with that same coarse form; without such a request the resolved
    target differs from the coarse source.  Resolving again with the
    resolved target as the request changes nothing. *)
Theorem target_equals_source_only_on_request
    (rt : Runtime) (sourceLanguageCode : string) (requestedTargetLanguage : value) :
  (resolveTargetLanguage rt sourceLanguageCode requestedTargetLanguage
   = normalizeTranslationLanguageCode rt sourceLanguageCode ->
   exists requested,
     requestedTargetLanguage = VString requested
     /\ isValidLanguageCode requestedTargetLanguage = true
     /\ normalizeTranslationLanguageCode rt requested
        = normalizeTranslationLanguageCode rt sourceLanguageCode)
  /\ resolveTargetLanguage rt sourceLanguageCode
       (VString (resolveTargetLanguage rt sourceLanguageCode requestedTargetLanguage))
     = resolveTargetLanguage rt sourceLanguageCode requestedTargetLanguage.
Proof.
  assert (Hauto :
    (if JsString.eqb (normalizeTranslationLanguageCode rt sourceLanguageCode) "en"
     then "my" else "en")
    <> normalizeTranslationLanguageCode rt sourceLanguageCode).
  { destruct (JsString.eqb (normalizeTranslationLanguageCode rt sourceLanguageCode) "en")
      eqn:Hen.
    - apply string_eqb_eq in Hen. rewrite Hen. discriminate.
    - apply string_eqb_neq in Hen. congruence. }
  split.
  - unfold resolveTargetLanguage.
    destruct requestedTargetLanguage as [| | b | n | r | bs | bs | xs | fs];
      try (intros H; now destruct (Hauto H)).
    destruct (isValidLanguageCode (VString r)) eqn:Hvalid;
      [| intros H; now destruct (Hauto H)].
    destruct (JsString.eqb (normalizeTranslationLanguageCode rt r) "en"
              || JsString.eqb (normalizeTranslationLanguageCode rt r) "my");
      [| intros H; now destruct (Hauto H)].
    intros H. now exists r.
  - destruct (resolveTargetLanguage_supported rt sourceLanguageCode
                requestedTargetLanguage) as [-> | ->]; reflexivity.
Qed.

(** ** Audio payloads: properties *)

Lemma digit_base64 (i : N) : Base64.isBase64Char (Base64.digit i) = true.
Proof.
  unfold Base64.digit. generalize (N.to_nat i). intros n.
  do 64 (destruct n as [| n]; [reflexivity |]).
  unfold Base64.alphabet. cbn [JsString.get]. reflexivity.
Qed.

Lemma encode_base64 (bytes : list Byte.byte) :
  JsString.forallb Base64.isBase64Char (Base64.encode bytes) = true.
Proof.
  enough (H : JsString.forallb Base64.isBase64Char (Base64.encode bytes) = true
              /\ (forall a,
                    JsString.forallb Base64.isBase64Char
                      (Base64.encode (a :: bytes)) = true)
              /\ (forall a b,
                    JsString.forallb Base64.isBase64Char
                      (Base64.encode (a :: b :: bytes)) = true))
    by apply H.
  induction bytes as [| c rest (IH0 & IH1 & IH2)].
  - split; [reflexivity |]. split; intros;
      cbn [Base64.encode JsString.forallb]; rewrite !digit_base64; reflexivity.
  - split; [apply IH1 |]. split; [intros a; apply IH2 |].
    intros a b. cbn [Base64.encode JsString.forallb].
    rewrite !digit_base64, IH0. reflexivity.
Qed.

Section Coverage.

Variable rt : Runtime.
Variable cfg : Config.

Lemma normalized_chars (audio : value) (normalized : string) :
  normalizeAudioToBase64 rt audio = Ok normalized ->
  JsString.forallb Base64.isBase64Char normalized = true
  /\ (forall s, audio = VString s -> normalized <> "").
Proof.
  intros Hok.
  destruct audio as [| | b | n | s | bytes | bytes | items | fields];
    cbn in Hok; try discriminate Hok.
  - unfold bind, throwIf in Hok.
    destruct (JsString.isEmpty (JsString.removeWhiteSpace _)) eqn:Hne;
      [discriminate Hok |].
    destruct (Base64.test (JsString.removeWhiteSpace _)) eqn:Htest;
      [| discriminate Hok].
    cbn in Hok. injection Hok as <-.
    unfold Base64.test in Htest. apply andb_prop in Htest as [_ Hall].
    split; [exact Hall |]. intros _ _. now apply isEmpty_false.
  - injection Hok as <-. split; [apply encode_base64 | discriminate].
  - injection Hok as <-. split; [apply encode_base64 | discriminate].
  - injection Hok as <-. split; [apply encode_base64 | discriminate].
Qed.

(** X9: whatever [normalizeAudioToBase64] returns consists of characters of
    the base64 alphabet and padding only; from a string it is not empty; and
    a result that is not empty is accepted again as it is, so normalizing
    twice is normalizing once. *)
Theorem normalized_audio_is_base64 (audio : value) (normalized : string) :
  normalizeAudioToBase64 rt audio = Ok normalized ->
  JsString.forallb Base64.isBase64Char normalized = true
  /\ (forall s, audio = VString s -> normalized <> "")
  /\ (normalized <> "" ->
      normalizeAudioToBase64 rt (VString normalized) = Ok normalized).
Proof.
  intros Hok.
  destruct (normalized_chars audio normalized Hok) as [Hall Hstring].
  split; [exact Hall |].
  split; [exact Hstring |].
  intros Hne. rewrite <- (removeWhiteSpace_base64 normalized Hall) at 2.
  apply normalize_string.
  - now apply base64_not_data_uri.
  - rewrite (removeWhiteSpace_base64 normalized Hall). unfold Base64.test.
    apply isEmpty_false in Hne. now rewrite Hne, Hall.
Qed.

(** What [parseAudioPayload] promises of the request it builds. *)
Record wellFormedPayload (p : AudioPayload) : Prop := {
  wf_recipient : trimmedNonEmpty (recipientId p);
  wf_source : isValidLanguageCode (VString (sourceLanguageCode p)) = true;
  wf_target : targetLanguageCode p = "en" \/ targetLanguageCode p = "my";
  wf_encoding : allowedEncoding (encoding p) = true;
  wf_rate :
    Js.isNaN (sampleRateHertz p) = false
    /\ Js.ltb (sampleRateHertz p) (Js.ofZ 8000) = false
    /\ Js.gtb (sampleRateHertz p) (Js.ofZ 48000) = false;
  wf_audio : JsString.forallb Base64.isBase64Char (audioBase64 p) = true;
  wf_size : 0 < Z.of_nat (base64ByteLength rt (audioBase64 p)) <= MAX_AUDIO_BYTES cfg;
  wf_sequence : sequenceId p <> VUndefined
}.

Lemma parse_wellFormed (data : value) (p : AudioPayload) :
  parseAudioPayload rt cfg data = Ok p -> wellFormedPayload p.
Proof.
  intros Hp.
  destruct (parseAudioPayload_Ok rt cfg data p Hp)
    as (to & Hto & Hne & Hrecipient & _ & Hnan & Hlow & Hhigh & Henc & Haudio & Hsize).
  destruct (parse_language rt cfg data p Hp) as (Hsource & Htarget & Hseq).
  split.
  - rewrite Hrecipient. now apply trimmedNonEmpty_trim.
  - rewrite Hsource.
    destruct (Js.get data "language") as [| | | | language | | | |];
      try reflexivity.
    destruct (isValidLanguageCode (VString language)) eqn:Hvalid;
      [| reflexivity].
    cbn [isValidLanguageCode] in *. now rewrite trim_idempotent.
  - rewrite Htarget. apply resolveTargetLanguage_supported.
  - rewrite Henc. destruct (Js.get data "encoding"); try reflexivity.
    cbv zeta.
    destruct (allowedEncoding (toUpperCase rt (JsString.trim s))) eqn:Ha;
      [exact Ha | reflexivity].
  - auto.
  - now destruct (normalized_chars _ _ Haudio).
  - exact Hsize.
  - rewrite Hseq. destruct (Js.get data "sequenceId"); discriminate.
Qed.

(** X10: a request built by [parseAudioPayload] has as its recipient the
    [to] property without the white space around it, which is not empty; a
    source language that is a syntactically valid code (the [language]
    property without the white space around it when that is valid, "en-US"
    otherwise) whose coarse form is 2 or 3 letters a-z; a target language
    that is "en" or "my"; an allow-listed encoding; a sample rate in
    [8000, 48000]; audio made of base64 characters whose byte length is in
    (0, MAX_AUDIO_BYTES]; and a sequence id that is never undefined (null
    when none was sent). *)
Theorem parsed_payload_well_formed (data : value) (p : AudioPayload) :
  parseAudioPayload rt cfg data = Ok p ->
  wellFormedPayload p
  /\ (exists raw, Js.get data "to" = VString raw /\ Listed.padded raw (recipientId p))
  /\ isLanguageSubtag (normalizeTranslationLanguageCode rt (sourceLanguageCode p))
  /\ (forall raw code,
        Js.get data "language" = VString raw -> Listed.padded raw code ->
        isValidLanguageCode (VString code) = true ->
        sourceLanguageCode p = code)
  /\ (isValidLanguageCode (Js.get data "language") = false ->
      sourceLanguageCode p = "en-US")
  /\ (Js.get data "sequenceId" = VUndefined -> sequenceId p = VNull).
Proof.
  intros Hp. pose proof (parse_wellFormed data p Hp) as Hwf.
  destruct (parse_language rt cfg data p Hp) as (Hsource & _ & Hseq).
  destruct (parseAudioPayload_Ok rt cfg data p Hp)
    as (to & Hto & Hne & Hrecipient & _).
  split; [exact Hwf |]. split; [| split; [| split; [| split]]].
  - exists to. split; [exact Hto |]. rewrite Hrecipient.
    destruct (trim_cases to) as [[_ Hnone] | Hpadded]; [| exact Hpadded].
    rewrite Hnone in Hne. discriminate Hne.
  - exact (proj1 (valid_code_subtag rt _ (wf_source p Hwf))).
  - intros raw code Hget Hpadded Hvalid. rewrite Hsource, Hget.
    cbn [isValidLanguageCode] in *.
    rewrite (trim_padded _ _ Hpadded).
    pose proof Hpadded as [Hsolid _].
    apply solid_trimmed in Hsolid as [_ Hidem]. rewrite Hidem in Hvalid.
    now rewrite Hvalid.
  - intros Hinvalid. rewrite Hsource.
    destruct (Js.get data "language"); try reflexivity.
    now rewrite Hinvalid.
  - intros Hnone. now rewrite Hseq, Hnone.
Qed.

(** *** Transcripts *)

Lemma last_app_tail {A : Type} (l tail : list A) (d d' : A) :
  tail <> [] -> List.last (l ++ tail)%list d = List.last tail d'.
Proof.
  intros Hne. induction l as [| x l IH].
  - cbn. destruct tail as [| y tail]; [congruence |].
    clear Hne. revert y. induction tail as [| z tail IHt]; intros y; [reflexivity |].
    change (List.last (y :: z :: tail) d) with (List.last (z :: tail) d).
    change (List.last (y :: z :: tail) d') with (List.last (z :: tail) d').
    apply IHt.
  - cbn [app]. destruct (l ++ tail)%list as [| y rest] eqn:Heq.
    + apply app_eq_nil in Heq as [_ Heq]. congruence.
    + exact IH.
Qed.

(** X11: the transcript put together from an answer of the speech service
    is empty exactly when the answer has no result, or every one of its
    results, however many there are, has no first alternative or a
    transcript of white space only, that of Unicode included; otherwise it
    is not empty and neither starts nor ends with white space.  It is the
    transcripts joined by single spaces, without the white space around the
    whole. *)
Theorem transcription_trimmed (sttResponse : SttResponse) :
  (transcriptionOf sttResponse = ""
   <-> Forall Listed.blank (transcripts sttResponse))
  /\ (transcriptionOf sttResponse <> "" ->
      Listed.padded (JsString.join " " (transcripts sttResponse))
        (transcriptionOf sttResponse))
  /\ (forall first rest,
        transcripts sttResponse = first :: rest ->
        Listed.solid first -> Forall (fun t => Listed.solid t) rest ->
        JsString.units (transcriptionOf sttResponse)
        = List.concat
            (JsString.units first
             :: List.map (fun t => SPACE :: JsString.units t) rest)).
Proof.
  unfold transcriptionOf. fold (transcripts sttResponse).
  set (joined := JsString.join " " (transcripts sttResponse)).
  split; [| split].
  - apply blank_transcripts_silent.
  - intros Hne. destruct (trim_cases joined) as [[_ Hnone] | Hpadded];
      [congruence | exact Hpadded].
  - intros first rest Hlist Hfirst Hrest. subst joined. rewrite Hlist.
    clear Hlist.
    enough (H : Listed.solid (JsString.join " " (first :: rest))
                /\ JsString.units (JsString.join " " (first :: rest))
                   = List.concat
                       (JsString.units first
                        :: List.map (fun t => SPACE :: JsString.units t) rest)).
    { destruct H as [Hsolid Hunits].
      apply solid_trimmed in Hsolid as [_ Hidem]. now rewrite Hidem. }
    revert first Hfirst. induction Hrest as [| next rest' Hnext Hrest IH];
      intros first Hfirst.
    + cbn [JsString.join List.map List.concat]. split; [exact Hfirst |].
      now rewrite app_nil_r.
    + destruct (IH next Hnext) as [Hsolid Hunits].
      change (JsString.join " " (first :: next :: rest'))
        with (first ++ " " ++ JsString.join " " (next :: rest')).
      split.
      * destruct Hfirst as (c & Hhead & Hc & _).
        destruct Hsolid as (d & Hd & _ & Hlast).
        exists c. rewrite !units_append.
        destruct (JsString.units first) as [| c' more]; [discriminate Hhead |].
        injection Hhead as ->.
        split; [reflexivity |]. split; [exact Hc |].
        destruct (JsString.units (JsString.join " " (next :: rest')))
          as [| d' tail] eqn:Htail; [discriminate Hd |].
        injection Hd as ->.
        rewrite app_assoc, (last_app_tail _ (d :: tail) c d) by discriminate.
        exact Hlast.
      * rewrite !units_append, Hunits. cbn [JsString.units List.map List.concat].
        reflexivity.
Qed.

(** *** The rate limit *)

Lemma filter_none (now : Z) (timestamps : list Z) :
  Forall (fun t => RATE_LIMIT_WINDOW_MS cfg <= now - t) timestamps ->
  List.filter (fun t => now - t <? RATE_LIMIT_WINDOW_MS cfg) timestamps = [].
Proof.
  induction timestamps as [| t rest IH]; [reflexivity |].
  intros H. apply Forall_cons in H as [Ht Hrest].
  cbn. apply Z.ltb_ge in Ht. rewrite Ht. exact (IH Hrest).
Qed.

Lemma filter_length_le (now : Z) (timestamps : list Z) :
  Nat.le
    (List.length
       (List.filter (fun t => now - t <? RATE_LIMIT_WINDOW_MS cfg) timestamps))
    (List.length timestamps).
Proof.
  induction timestamps as [| t rest IH]; [reflexivity |].
  cbn. destruct (now - t <? RATE_LIMIT_WINDOW_MS cfg); cbn; lia.
Qed.

Lemma isRateLimited_stored (now : Z) (timestamps : list Z) :
  let stored := snd (isRateLimited cfg now timestamps) in
  Forall (fun t => now - t < RATE_LIMIT_WINDOW_MS cfg \/ t = now) stored
  /\ (Z.of_nat (List.length timestamps) <= Z.max 0 (RATE_LIMIT_MAX_REQUESTS cfg) ->
      Z.of_nat (List.length stored) <= Z.max 0 (RATE_LIMIT_MAX_REQUESTS cfg)).
Proof.
  unfold isRateLimited.
  set (recent := List.filter _ timestamps).
  assert (Hrecent : Forall (fun t => now - t < RATE_LIMIT_WINDOW_MS cfg \/ t = now)
                      recent).
  { apply Forall_forall. intros t Ht. apply list_elem_of_In in Ht.
    apply List.filter_In in Ht as [_ Ht]. left. now apply Z.ltb_lt. }
  pose proof (filter_length_le now timestamps) as Hle. fold recent in Hle.
  destruct (RATE_LIMIT_MAX_REQUESTS cfg <=? Z.of_nat (List.length recent)) eqn:Hmax;
    cbn [snd].
  - split; [exact Hrecent | lia].
  - apply Z.leb_gt in Hmax. split.
    + apply Forall_app. split; [exact Hrecent |]. constructor; [now right | constructor].
    + intros _. rewrite List.length_app. cbn. lia.
Qed.

(** X12: [isRateLimited] refuses exactly when the ceiling is reached among
    the timestamps less than the window old.  When every stored timestamp is
    at least the window old and the ceiling is positive, the request is let
    through and the stored list is the new timestamp alone: waiting for the
    window to pass always lifts the limit.  What is stored afterwards is
    less than the window old or the new timestamp, and after a refusal it is
    part of what was stored before: a refused request leaves no timestamp. *)
Theorem rate_limit_recovers (now : Z) (timestamps : list Z) :
  let recent :=
    List.filter (fun t => now - t <? RATE_LIMIT_WINDOW_MS cfg) timestamps in
  (fst (isRateLimited cfg now timestamps) = true
   <-> RATE_LIMIT_MAX_REQUESTS cfg <= Z.of_nat (List.length recent))
  /\ (Forall (fun t => RATE_LIMIT_WINDOW_MS cfg <= now - t) timestamps ->
      0 < RATE_LIMIT_MAX_REQUESTS cfg ->
      isRateLimited cfg now timestamps = (false, [now]))
  /\ Forall (fun t => now - t < RATE_LIMIT_WINDOW_MS cfg \/ t = now)
       (snd (isRateLimited cfg now timestamps))
  /\ (fst (isRateLimited cfg now timestamps) = true ->
      Forall (fun t => In t timestamps) (snd (isRateLimited cfg now timestamps))).
Proof.
  intros recent.
  split; [| split; [| split; [exact (proj1 (isRateLimited_stored now timestamps)) |]]];
    unfold isRateLimited; fold recent.
  - destruct (RATE_LIMIT_MAX_REQUESTS cfg <=? Z.of_nat (List.length recent)) eqn:Hmax;
      cbn [fst].
    + apply Z.leb_le in Hmax. tauto.
    + apply Z.leb_gt in Hmax. split; [discriminate | lia].
  - intros Hold Hpositive. subst recent. rewrite (filter_none now timestamps Hold).
    change (Z.of_nat (List.length (@nil Z))) with 0.
    apply Z.leb_gt in Hpositive. now rewrite Hpositive.
  - destruct (RATE_LIMIT_MAX_REQUESTS cfg <=? Z.of_nat (List.length recent)) eqn:Hmax;
      cbn [fst snd]; [| discriminate].
    intros _. apply Forall_forall. intros t Ht. apply list_elem_of_In in Ht.
    now apply List.filter_In in Ht as [Ht _].
Qed.

(** *** Histories of a connection *)

Lemma run_induction (P : Socket -> Prop) :
  (forall socket now e next,
     P socket -> step rt cfg socket now e = Some next -> P next) ->
  forall history socket next,
    P socket -> run rt cfg socket history = Some next -> P next.
Proof.
  intros Hstep history.
  induction history as [| [now e] rest IH]; intros socket next HP Hrun.
  - cbn in Hrun. now injection Hrun as <-.
  - cbn in Hrun.
    destruct (step rt cfg socket now e) as [mid |] eqn:Hmid; [| discriminate Hrun].
    exact (IH mid next (Hstep socket now e mid HP Hmid) Hrun).
Qed.

(** What a turn leaves alone: the identity always, the timestamps unless a
    then stage reacts, the counter unless an event arrives or a finally
    callback runs. *)
Lemma step_frame (socket : Socket) (now : Z) (e : event) (next : Socket) :
  step rt cfg socket now e = Some next ->
  user next = user socket
  /\ match e with
     | RunUnit _ => True
     | _ => sttRateTimestamps next = sttRateTimestamps socket
     end
  /\ match e with
     | AudioRecording _ | RunFinally _ => True
     | _ => pendingSttRequests next = pendingSttRequests socket
     end.
Proof.
  destruct e as [data | u | u outcome | u outcome | u]; cbn; intros Hstep.
  - injection Hstep as <-. unfold audioRecording.
    destruct (_ <=? _); cbn; auto.
  - destruct (sttQueue socket !! u) as [[data | | | |] |]; try discriminate Hstep.
    destruct (predecessor u socket) as [[] |]; [| | discriminate Hstep];
      injection Hstep as <-; [| cbn; auto].
    unfold runUnit.
    destruct (isRateLimited cfg now (sttRateTimestamps socket)) as [[] ts];
      [| destruct (parseAudioPayload rt cfg data)]; cbn; auto.
  - destruct (sttQueue socket !! u) as [[| p | | |] |]; try discriminate Hstep.
    injection Hstep as <-. unfold recognizeSettles, processingFailed.
    destruct outcome as [sttResponse | reason];
      [destruct (JsString.isEmpty (transcriptionOf sttResponse));
         [| destruct (project cfg); [destruct (negb (JsString.eqb _ _)) |]]
      | destruct (Js.isNullish reason)]; cbn; auto.
  - destruct (sttQueue socket !! u) as [[| | p tr | |] |]; try discriminate Hstep.
    injection Hstep as <-. unfold translateSettles, processingFailed.
    destruct outcome as [response | reason];
      [| destruct (Js.isNullish reason)]; cbn; auto.
  - destruct (sttQueue socket !! u) as [[| | | ok | ok] |]; try discriminate Hstep.
    injection Hstep as <-. cbn. auto.
Qed.

Lemma step_bounds (socket : Socket) (now : Z) (e : event) (next : Socket) :
  pendingSttRequests socket <= Z.max 0 (MAX_STT_PENDING_REQUESTS cfg)
  /\ Z.of_nat (List.length (sttRateTimestamps socket))
     <= Z.max 0 (RATE_LIMIT_MAX_REQUESTS cfg) ->
  step rt cfg socket now e = Some next ->
  pendingSttRequests next <= Z.max 0 (MAX_STT_PENDING_REQUESTS cfg)
  /\ Z.of_nat (List.length (sttRateTimestamps next))
     <= Z.max 0 (RATE_LIMIT_MAX_REQUESTS cfg).
Proof.
  intros [Hpending Hstamps] Hstep.
  pose proof (step_frame socket now e next Hstep) as (_ & Hts & Hp).
  destruct e as [data | u | u outcome | u outcome | u]; cbn in Hstep.
  - rewrite Hts. injection Hstep as <-. unfold audioRecording.
    destruct (MAX_STT_PENDING_REQUESTS cfg <=? pendingSttRequests socket) eqn:Hfull;
      cbn; [auto |].
    apply Z.leb_gt in Hfull. split; [lia | exact Hstamps].
  - rewrite Hp. split; [exact Hpending |].
    destruct (sttQueue socket !! u) as [[data | | | |] |]; try discriminate Hstep.
    destruct (predecessor u socket) as [[] |]; [| | discriminate Hstep];
      injection Hstep as <-; [| exact Hstamps].
    pose proof (proj2 (isRateLimited_stored now (sttRateTimestamps socket)) Hstamps)
      as Hstored.
    unfold runUnit.
    destruct (isRateLimited cfg now (sttRateTimestamps socket)) as [[] ts];
      [| destruct (parseAudioPayload rt cfg data)]; exact Hstored.
  - rewrite Hp, Hts. auto.
  - rewrite Hp, Hts. auto.
  - rewrite Hts. split; [| exact Hstamps].
    destruct (sttQueue socket !! u) as [[| | | ok | ok] |]; try discriminate Hstep.
    injection Hstep as <-. cbn. lia.
Qed.

(** X13: on every connection, whatever the client sends and however the
    services answer, the pending counter stays between 0 and the
    backpressure ceiling, at most that many chained units are unfinished,
    the stored timestamps number at most the rate ceiling, and the identity
    of the socket is the one bound at the handshake. *)
Theorem resources_bounded
    (callerId : string) (history : list (Z * event)) (socket : Socket) :
  run rt cfg (connect callerId) history = Some socket ->
  0 <= pendingSttRequests socket <= Z.max 0 (MAX_STT_PENDING_REQUESTS cfg)
  /\ Z.of_nat (unfinished (sttQueue socket)) <= Z.max 0 (MAX_STT_PENDING_REQUESTS cfg)
  /\ Z.of_nat (List.length (sttRateTimestamps socket))
     <= Z.max 0 (RATE_LIMIT_MAX_REQUESTS cfg)
  /\ user socket = callerId.
Proof.
  intros Hrun.
  pose proof (run_invariant rt cfg history _ _ (invariant_connect callerId) Hrun)
    as Hinv.
  pose proof (inv_pending _ Hinv) as Hcount.
  assert (Hbounds :
    pendingSttRequests socket <= Z.max 0 (MAX_STT_PENDING_REQUESTS cfg)
    /\ Z.of_nat (List.length (sttRateTimestamps socket))
       <= Z.max 0 (RATE_LIMIT_MAX_REQUESTS cfg)).
  { apply (run_induction _ step_bounds history (connect callerId) socket);
      [cbn; lia | exact Hrun]. }
  assert (Huser : user socket = callerId).
  { apply (run_induction (fun s => user s = callerId)) with
      (history := history) (socket := connect callerId); [| reflexivity | exact Hrun].
    intros s now e next Hs Hstep.
    destruct (step_frame s now e next Hstep) as [Hu _]. congruence. }
  destruct Hbounds as [Hp Hts]. repeat split; try assumption; lia.
Qed.

(** *** Reasons of a failed parse *)

Definition parseErrors : list string :=
  ["Invalid payload"; "Missing recipient id"; "Invalid sample rate";
   "Empty audio payload"; "Audio payload is not valid base64";
   "Unsupported audio payload type"; "Audio payload size is invalid"].

Lemma normalize_throws (audio : value) (reason : string) :
  normalizeAudioToBase64 rt audio = Throw reason ->
  In reason ["Empty audio payload"; "Audio payload is not valid base64";
             "Unsupported audio payload type"].
Proof.
  destruct audio as [| | b | n | s | bytes | bytes | items | fields]; cbn;
    try (intros [= <-]; cbn; tauto); try discriminate.
  unfold bind, throwIf.
  destruct (JsString.isEmpty _); [intros [= <-]; cbn; tauto |].
  destruct (Base64.test _); cbn; [discriminate | intros [= <-]; tauto].
Qed.

Lemma parse_throws (data : value) (reason : string) :
  parseAudioPayload rt cfg data = Throw reason -> In reason parseErrors.
Proof.
  unfold parseAudioPayload, bind, throwIf.
  destruct (negb (Js.truthy data) || negb (Js.isObject data));
    [intros [= <-]; cbn; tauto |].
  destruct (Js.get data "to") as [| | | | to | | | |];
    try (intros [= <-]; cbn; tauto).
  destruct (JsString.isEmpty (JsString.trim to)); [intros [= <-]; cbn; tauto |].
  destruct (_ || _ || _); [intros [= <-]; cbn; tauto |].
  destruct (normalizeAudioToBase64 rt (Js.get data "audio")) as [b64 | why] eqn:Haudio.
  - destruct (_ || _); [intros [= <-]; cbn; tauto | discriminate].
  - intros [= <-]. pose proof (normalize_throws _ _ Haudio) as Hin.
    cbn in Hin |- *. tauto.
Qed.

(** X14: a parse that fails gives one of seven reasons and no other;
    "Invalid payload" is the reason whenever the payload is not an object
    (undefined, null, a boolean, a number or a string), and "Missing
    recipient id" whenever it is an object whose [to] is not a string or is
    a string of white space only, that of Unicode included, whatever else
    is wrong with the payload. *)
Theorem parse_fails_with_known_reason (data : value) :
  (forall reason,
     parseAudioPayload rt cfg data = Throw reason -> In reason parseErrors)
  /\ (Js.truthy data && Js.isObject data = false ->
      parseAudioPayload rt cfg data = Throw "Invalid payload")
  /\ (forall b n s,
        In data [VUndefined; VNull; VBool b; VNumber n; VString s] ->
        parseAudioPayload rt cfg data = Throw "Invalid payload")
  /\ (Js.truthy data && Js.isObject data = true ->
      blankOrMissing (Js.get data "to") ->
      parseAudioPayload rt cfg data = Throw "Missing recipient id").
Proof.
  split; [exact (parse_throws data) |].
  unfold parseAudioPayload, bind, throwIf. split; [| split].
  - intros Hbad. apply andb_false_iff in Hbad as [-> | ->]; cbn;
      [reflexivity | now rewrite orb_true_r].
  - intros b n s Hin. cbn [In] in Hin.
    destruct Hin as [<- | [<- | [<- | [<- | [<- | []]]]]]; cbn;
      try reflexivity; now rewrite orb_true_r.
  - intros Hobject Hto. apply andb_prop in Hobject as [-> ->]. cbn [negb orb].
    destruct (Js.get data "to") as [| | | | to | | | |]; try reflexivity.
    now rewrite (trim_blank to (Hto to eq_refl)).
Qed.

(** *** What a connection sends and asks for *)

Definition taskWellFormed (t : task) : Prop :=
  match t with
  | AwaitRecognize p => wellFormedPayload p
  | AwaitTranslate p transcription =>
      wellFormedPayload p /\ trimmedNonEmpty transcription
  | _ => True
  end.

(** A request as the services expect it. *)
Definition requestWellFormed (r : request) : Prop :=
  match r with
  | Recognize q =>
      allowedEncoding (SttRequest.encoding q) = true
      /\ Js.isNaN (SttRequest.sampleRateHertz q) = false
      /\ Js.ltb (SttRequest.sampleRateHertz q) (Js.ofZ 8000) = false
      /\ Js.gtb (SttRequest.sampleRateHertz q) (Js.ofZ 48000) = false
      /\ isValidLanguageCode (VString (SttRequest.languageCode q)) = true
      /\ SttRequest.enableAutomaticPunctuation q = true
      /\ JsString.forallb Base64.isBase64Char (SttRequest.content q) = true
      /\ 0 < Z.of_nat (base64ByteLength rt (SttRequest.content q))
           <= MAX_AUDIO_BYTES cfg
  | TranslateText q =>
      (exists p,
         projectId cfg = Some p /\ p <> ""
         /\ TranslateRequest.parent q = "projects/" ++ p ++ "/locations/global")
      /\ TranslateRequest.mimeType q = "text/plain"
      /\ (exists transcription,
            TranslateRequest.contents q = [transcription]
            /\ trimmedNonEmpty transcription)
      /\ isLanguageSubtag (TranslateRequest.sourceLanguageCode q)
      /\ (TranslateRequest.targetLanguageCode q = "en"
          \/ TranslateRequest.targetLanguageCode q = "my")
      /\ TranslateRequest.sourceLanguageCode q
         <> TranslateRequest.targetLanguageCode q
  end.

(** An emission as a client may rely on it. *)
Definition emissionWellFormed (identity : string) (tagged : option nat * emission) : Prop :=
  match tagged with
  | (origin, ToSender e) =>
      (origin = None
       /\ SttError.code e = "STT_BACKPRESSURE"
       /\ SttError.message e = "Too many queued audio chunks")
      \/ (origin <> None
          /\ ((SttError.code e = "STT_RATE_LIMITED"
               /\ SttError.message e = "Too many audio requests in a short time")
              \/ (SttError.code e = "STT_INVALID_PAYLOAD"
                  /\ In (SttError.message e) parseErrors)
              \/ (SttError.code e = "STT_PROCESSING_FAILED"
                  /\ SttError.message e = "Unable to process this audio chunk")))
  | (origin, ToRoom room r) =>
      origin <> None
      /\ room = SttResult.to r
      /\ trimmedNonEmpty room
      /\ SttResult.from r = identity
      /\ trimmedNonEmpty (SttResult.text r)
      /\ SttResult.translated r <> ""
      /\ SttResult.sequenceId r <> VUndefined
  end.

Record wellFormed (socket : Socket) : Prop := {
  wf_tasks : Forall taskWellFormed (sttQueue socket);
  wf_requests : Forall (fun r => requestWellFormed (snd r)) (requests socket);
  wf_emitted : Forall (emissionWellFormed (user socket)) (emitted socket)
}.

Lemma wellFormed_setTask (unit : nat) (t : task) (socket : Socket) :
  wellFormed socket -> taskWellFormed t -> wellFormed (setTask unit t socket).
Proof.
  intros [Ht Hr He] Htask. split; cbn; [| exact Hr | exact He].
  now apply Forall_insert.
Qed.

Lemma wellFormed_emit (origin : option nat) (e : emission) (socket : Socket) :
  wellFormed socket -> emissionWellFormed (user socket) (origin, e) ->
  wellFormed (emit origin e socket).
Proof.
  intros [Ht Hr He] Hnew. split; cbn; [exact Ht | exact Hr |].
  apply Forall_app. split; [exact He |]. now constructor.
Qed.

Lemma wellFormed_call (unit : nat) (r : request) (socket : Socket) :
  wellFormed socket -> requestWellFormed r -> wellFormed (call unit r socket).
Proof.
  intros [Ht Hr He] Hnew. split; cbn; [exact Ht | | exact He].
  apply Forall_app. split; [exact Hr |]. now constructor.
Qed.

Lemma orString_nonempty (s : option string) (d : string) :
  d <> "" -> orString s d <> "".
Proof.
  intros Hd. unfold orString. destruct s as [t |]; [| exact Hd].
  destruct (JsString.isEmpty t) eqn:Ht; [exact Hd | now apply isEmpty_false].
Qed.

Lemma sttResult_wellFormed
    (socket : Socket) (unit : nat) (p : AudioPayload) (text translated : string) :
  wellFormedPayload p -> trimmedNonEmpty text -> translated <> "" ->
  emissionWellFormed (user socket) (Some unit, sttResult socket p text translated).
Proof.
  intros Hp Htext Htranslated. cbn.
  repeat split; try discriminate; try assumption;
    try apply (wf_recipient p Hp); try apply Htext; try apply (wf_sequence p Hp).
Qed.

Lemma processingFailed_wellFormed
    (unit : nat) (reason : value) (now : Z) (socket : Socket) :
  wellFormed socket -> wellFormed (processingFailed unit reason now socket).
Proof.
  intros Hwf. unfold processingFailed, emitSttError.
  destruct (Js.isNullish reason).
  - now apply wellFormed_setTask.
  - apply wellFormed_setTask; [| exact I].
    apply wellFormed_emit; [exact Hwf |].
    cbn. right. split; [discriminate |]. right. right. now split.
Qed.

Lemma step_wellFormed (socket : Socket) (now : Z) (e : event) (next : Socket) :
  wellFormed socket -> step rt cfg socket now e = Some next -> wellFormed next.
Proof.
  intros Hwf Hstep.
  destruct e as [data | u | u outcome | u outcome | u]; cbn in Hstep.
  - injection Hstep as <-. unfold audioRecording, emitSttError.
    destruct (_ <=? _).
    + apply wellFormed_emit; [exact Hwf |]. cbn. left. auto.
    + destruct Hwf as [Ht Hr He]. split; cbn; [| exact Hr | exact He].
      apply Forall_app. split; [exact Ht |]. now constructor.
  - destruct (sttQueue socket !! u) as [[data | | | |] |]; try discriminate Hstep.
    destruct (predecessor u socket) as [[] |]; [| | discriminate Hstep];
      injection Hstep as <-; [| now apply wellFormed_setTask].
    unfold runUnit, emitSttError.
    destruct (isRateLimited cfg now (sttRateTimestamps socket)) as [limited ts].
    assert (Hwf' : wellFormed (setRateTimestamps ts socket)).
    { destruct Hwf as [Ht Hr He]. now split. }
    destruct limited.
    + apply wellFormed_setTask; [| exact I].
      apply wellFormed_emit; [exact Hwf' |].
      cbn. right. split; [discriminate |]. left. now split.
    + destruct (parseAudioPayload rt cfg data) as [p | reason] eqn:Hparse.
      * pose proof (parse_wellFormed data p Hparse) as Hp.
        apply wellFormed_setTask; [| exact Hp].
        apply wellFormed_call; [exact Hwf' |].
        destruct Hp as [_ Hsource _ Henc (Hnan & Hlow & Hhigh) Haudio Hsize _].
        cbn. auto 10.
      * apply wellFormed_setTask; [| exact I].
        apply wellFormed_emit; [exact Hwf' |].
        cbn. right. split; [discriminate |]. right. left.
        split; [reflexivity | exact (parse_throws data reason Hparse)].
  - destruct (sttQueue socket !! u) as [[| p | | |] |] eqn:Hq;
      try discriminate Hstep.
    injection Hstep as <-.
    assert (Hp : wellFormedPayload p).
    { exact (Forall_lookup_1 _ _ _ _ (wf_tasks _ Hwf) Hq). }
    unfold recognizeSettles.
    destruct outcome as [sttResponse | reason];
      [| now apply processingFailed_wellFormed].
    destruct (JsString.isEmpty (transcriptionOf sttResponse)) eqn:Hheard;
      [now apply wellFormed_setTask |].
    assert (Htext : trimmedNonEmpty (transcriptionOf sttResponse)).
    { split; [now apply isEmpty_false |].
      unfold transcriptionOf. apply trim_idempotent. }
    assert (Hresult :
      wellFormed
        (setTask u (Settled true)
           (emit (Some u)
              (sttResult socket p (transcriptionOf sttResponse)
                 (transcriptionOf sttResponse)) socket))).
    { apply wellFormed_setTask; [| exact I].
      apply wellFormed_emit; [exact Hwf |].
      apply sttResult_wellFormed; [exact Hp | exact Htext | apply Htext]. }
    destruct (project cfg) as [pr |] eqn:Hproject; [| exact Hresult].
    destruct (negb (JsString.eqb _ _)) eqn:Hdiffer; [| exact Hresult].
    apply wellFormed_setTask; [| now split].
    apply wellFormed_call; [exact Hwf |].
    cbn. split; [| split; [reflexivity | split; [| split; [| split]]]].
    + exists pr. unfold project in Hproject.
      destruct (projectId cfg) as [pid |]; [| discriminate Hproject].
      destruct (JsString.isEmpty pid) eqn:Hpid; [discriminate Hproject |].
      injection Hproject as <-. split; [reflexivity |].
      split; [now apply isEmpty_false | reflexivity].
    + now exists (transcriptionOf sttResponse).
    + exact (proj1 (valid_code_subtag rt _ (wf_source p Hp))).
    + exact (wf_target p Hp).
    + apply negb_true_iff in Hdiffer. now apply string_eqb_neq.
  - destruct (sttQueue socket !! u) as [[| | p tr | |] |] eqn:Hq;
      try discriminate Hstep.
    injection Hstep as <-.
    destruct (Forall_lookup_1 _ _ _ _ (wf_tasks _ Hwf) Hq) as [Hp Htr].
    unfold translateSettles.
    destruct outcome as [response | reason];
      [| now apply processingFailed_wellFormed].
    apply wellFormed_setTask; [| exact I].
    apply wellFormed_emit; [exact Hwf |].
    apply sttResult_wellFormed; [exact Hp | exact Htr |].
    unfold translatedTextOf. apply orString_nonempty. apply Htr.
  - destruct (sttQueue socket !! u) as [[| | | ok | ok] |]; try discriminate Hstep.
    injection Hstep as <-. unfold runFinally.
    apply wellFormed_setTask; [| exact I].
    destruct Hwf as [Ht Hr He]. now split.
Qed.

Lemma run_wellFormed (callerId : string) (history : list (Z * event)) (socket : Socket) :
  run rt cfg (connect callerId) history = Some socket -> wellFormed socket.
Proof.
  apply (run_induction wellFormed step_wellFormed).
  split; cbn; constructor.
Qed.

Lemma run_user (callerId : string) (history : list (Z * event)) (socket : Socket) :
  run rt cfg (connect callerId) history = Some socket -> user socket = callerId.
Proof.
  apply (run_induction (fun s => user s = callerId)); [| reflexivity].
  intros s now e next Hs Hstep.
  destruct (step_frame s now e next Hstep) as [Hu _]. congruence.
Qed.

(** X15: every request a connection ever sends to a service is well formed.
    A request to the speech service has an allow-listed encoding, a sample
    rate in [8000, 48000], a syntactically valid language code, punctuation
    switched on and base64 audio of a byte length in (0, MAX_AUDIO_BYTES].
    A request to the translation service is made only with a project
    configured, carries one trimmed, non-empty transcript as plain text, a
    source language of 2 or 3 letters a-z and a target language "en" or
    "my" that differs from the source. *)
Theorem requests_well_formed
    (callerId : string) (history : list (Z * event)) (socket : Socket)
    (unit : nat) (r : request) :
  run rt cfg (connect callerId) history = Some socket ->
  In (unit, r) (requests socket) ->
  requestWellFormed r
  /\ (projectId cfg = None \/ projectId cfg = Some "" ->
      exists q, r = Recognize q).
Proof.
  intros Hrun Hin.
  pose proof (wf_requests _ (run_wellFormed callerId history socket Hrun)) as Hall.
  rewrite Forall_forall in Hall.
  assert (Hr : requestWellFormed r).
  { apply (Hall (unit, r)). now apply list_elem_of_In. }
  split; [exact Hr |].
  intros Hnone. destruct r as [q | q]; [now exists q |].
  destruct Hr as [(p & Hp & Hne & _) _].
  destruct Hnone as [Hnone | Hnone]; congruence.
Qed.

(** X16: everything a connection ever emits for audio is of a known form.
    An error to the sender has one of four codes: STT_BACKPRESSURE from the
    handler, or from a unit STT_RATE_LIMITED, STT_PROCESSING_FAILED, each
    with its fixed message whatever the service said, or
    STT_INVALID_PAYLOAD with one of the seven reasons of a failed parse.  A
    result comes from a unit, goes to the room named in its [to], which is
    trimmed and not empty, names the identity bound at the handshake as its
    [from], and has a trimmed, non-empty text, a non-empty translated text
    and a sequence id that is never undefined. *)
Theorem emissions_well_formed
    (callerId : string) (history : list (Z * event)) (socket : Socket)
    (tagged : option nat * emission) :
  run rt cfg (connect callerId) history = Some socket ->
  In tagged (emitted socket) ->
  emissionWellFormed callerId tagged.
Proof.
  intros Hrun Hin.
  pose proof (wf_emitted _ (run_wellFormed callerId history socket Hrun)) as Hall.
  rewrite (run_user callerId history socket Hrun) in Hall.
  rewrite Forall_forall in Hall. apply Hall. now apply list_elem_of_In.
Qed.

(** *** A rejected chain *)

(** The promise of the then stage of the unit is rejected. *)
Definition rejected (t : task) : bool :=
  match t with
  | Settled false | Finished false => true
  | _ => false
  end.

(** Rejection is passed down the chain. *)
Definition rejectionPassedOn (queue : list task) : Prop :=
  forall i j ti tj,
    (i < j)%nat -> queue !! i = Some ti -> rejected ti = true ->
    queue !! j = Some tj -> started tj = true -> rejected tj = true.

Ltac chain_moved u Hq :=
  right; right; eexists u, _, _;
  split; [reflexivity |]; split; [exact Hq |];
  cbn; split; [reflexivity |]; split; [reflexivity |]; split; [reflexivity |].

(** What a turn does to the chain. *)
Lemma step_chain (socket : Socket) (now : Z) (e : event) (next : Socket) :
  step rt cfg socket now e = Some next ->
  (exists data, sttQueue next = (sttQueue socket ++ [Queued data])%list)
  \/ sttQueue next = sttQueue socket
  \/ exists unit t t',
       eventUnit e = Some unit
       /\ sttQueue socket !! unit = Some t
       /\ sttQueue next = <[unit := t']> (sttQueue socket)
       /\ finished t = false /\ started t' = true
       /\ ((exists data fulfilled,
              t = Queued data /\ predecessor unit socket = Some fulfilled
              /\ rejected t' = negb fulfilled)
           \/ (started t = true /\ working t = true)
           \/ (exists fulfilled, t = Settled fulfilled /\ t' = Finished fulfilled)).
Proof.
  destruct e as [data | u | u outcome | u outcome | u]; cbn; intros Hstep.
  - injection Hstep as <-. unfold audioRecording.
    destruct (_ <=? _); cbn; eauto.
  - destruct (sttQueue socket !! u) as [[data | | | |] |] eqn:Hq;
      try discriminate Hstep.
    destruct (predecessor u socket) as [[] |] eqn:Hpred; [| | discriminate Hstep];
      injection Hstep as <-.
    + unfold runUnit.
      destruct (isRateLimited cfg now (sttRateTimestamps socket)) as [[] ts];
        [| destruct (parseAudioPayload rt cfg data)];
        chain_moved u Hq; left; eexists _, _; eauto.
    + chain_moved u Hq. left. eexists _, _; eauto.
  - destruct (sttQueue socket !! u) as [[| p | | |] |] eqn:Hq;
      try discriminate Hstep.
    injection Hstep as <-.
    unfold recognizeSettles, processingFailed.
    destruct outcome as [sttResponse | reason];
      [destruct (JsString.isEmpty (transcriptionOf sttResponse));
         [| destruct (project cfg); [destruct (negb (JsString.eqb _ _)) |]]
      | destruct (Js.isNullish reason)];
      chain_moved u Hq; auto.
  - destruct (sttQueue socket !! u) as [[| | p tr | |] |] eqn:Hq;
      try discriminate Hstep.
    injection Hstep as <-.
    unfold translateSettles, processingFailed.
    destruct outcome as [response | reason];
      [| destruct (Js.isNullish reason)];
      chain_moved u Hq; auto.
  - destruct (sttQueue socket !! u) as [[| | | ok | ok] |] eqn:Hq;
      try discriminate Hstep.
    injection Hstep as <-. chain_moved u Hq.
    right. right. now exists ok.
Qed.

Lemma step_rejection (socket : Socket) (now : Z) (e : event) (next : Socket) :
  invariant socket /\ rejectionPassedOn (sttQueue socket) ->
  step rt cfg socket now e = Some next ->
  invariant next /\ rejectionPassedOn (sttQueue next).
Proof.
  intros [Hinv Hpass] Hstep.
  split; [exact (effect_invariant _ _ Hinv (step_effect rt cfg _ _ _ _ Hstep)) |].
  destruct (step_chain socket now e next Hstep)
    as [[data Hq] | [Hq | (u & t & t' & _ & Hu & Hq & Hopen & Hstarted & Hkind)]];
    rewrite Hq.
  - intros i j ti tj Hlt Hi Hri Hj Hsj.
    apply lookup_snoc_Some in Hj as [[Hjlt Hj] | [-> <-]]; [| discriminate Hsj].
    apply lookup_snoc_Some in Hi as [[_ Hi] | [-> _]]; [| lia].
    exact (Hpass i j ti tj Hlt Hi Hri Hj Hsj).
  - exact Hpass.
  - assert (Hin : (u < List.length (sttQueue socket))%nat)
      by (eapply lookup_lt_Some; eauto).
    intros i j ti tj Hlt Hi Hri Hj Hsj.
    destruct (decide (u = i)) as [<- | Hiu].
    + (* the unit that moved is the earlier one: a later one cannot have
         started, as this one had not finished *)
      rewrite list_lookup_insert_ne in Hj by lia.
      pose proof (inv_order _ Hinv u j t tj Hlt Hu Hj Hsj). congruence.
    + rewrite list_lookup_insert_ne in Hi by exact Hiu.
      destruct (decide (u = j)) as [<- | Hju].
      * rewrite list_lookup_insert_eq in Hj by exact Hin. injection Hj as <-.
        destruct Hkind as [(data & ok & -> & Hpred & Hrej)
                          | [[Hst Hwork] | (ok & -> & ->)]].
        -- (* the then stage reacts: the unit before passes the rejection on *)
           destruct u as [| before]; [lia |]. cbn in Hpred.
           destruct (sttQueue socket !! before) as [[| | | | bok] |] eqn:Hb;
             try discriminate Hpred.
           injection Hpred as ->.
           assert (Hbrej : rejected (Finished ok) = true).
           { destruct (decide (i = before)) as [-> | Hne].
             - rewrite Hb in Hi. injection Hi as <-. exact Hri.
             - apply (Hpass i before ti (Finished ok)); auto. lia. }
           rewrite Hrej. now destruct ok.
        -- pose proof (Hpass i u ti t Hlt Hi Hri Hu Hst) as Hcontra.
           destruct t; discriminate.
        -- exact (Hpass i u ti (Settled ok) Hlt Hi Hri Hu eq_refl).
      * rewrite list_lookup_insert_ne in Hj by exact Hju.
        exact (Hpass i j ti tj Hlt Hi Hri Hj Hsj).
Qed.

Lemma run_rejection (callerId : string) (history : list (Z * event)) (socket : Socket) :
  run rt cfg (connect callerId) history = Some socket ->
  invariant socket /\ rejectionPassedOn (sttQueue socket).
Proof.
  apply (run_induction _ step_rejection).
  split; [apply invariant_connect |].
  intros i j ti tj _ Hi. discriminate Hi.
Qed.

(** X17: a service that rejects with null or undefined makes the [catch]
    block throw before it emits: the sender gets no error and the promise of
    the unit is rejected.  From then on the chain stays rejected: every
    later unit whose turn comes is skipped, its callback never runs, so it
    emits nothing, calls no service and stores no timestamp, and it ends
    rejected as well.  This follows the promise chain alone: nothing in the
    code handles the rejection of the last promise, and what Node does with
    such a rejection is not part of the model. *)
Theorem rejection_is_passed_on
    (callerId : string) (history : list (Z * event)) (socket : Socket) :
  run rt cfg (connect callerId) history = Some socket ->
  (forall unit p reason now next,
     sttQueue socket !! unit = Some (AwaitRecognize p) ->
     Js.isNullish reason = true ->
     step rt cfg socket now (RecognizeSettles unit (Rejected reason)) = Some next ->
     emitted next = emitted socket
     /\ sttQueue next !! unit = Some (Settled false))
  /\ (forall i j ti tj,
        (i < j)%nat ->
        sttQueue socket !! i = Some ti -> rejected ti = true ->
        sttQueue socket !! j = Some tj -> started tj = true ->
        rejected tj = true)
  /\ (forall i j ti now next,
        (i < j)%nat ->
        sttQueue socket !! i = Some ti -> rejected ti = true ->
        step rt cfg socket now (RunUnit j) = Some next ->
        emitted next = emitted socket
        /\ requests next = requests socket
        /\ sttRateTimestamps next = sttRateTimestamps socket
        /\ sttQueue next = <[j := Settled false]> (sttQueue socket)).
Proof.
  intros Hrun. destruct (run_rejection callerId history socket Hrun) as [Hinv Hpass].
  split; [| split; [exact Hpass |]].
  - intros unit p reason now next Hq Hnull Hstep. cbn in Hstep.
    rewrite Hq in Hstep. injection Hstep as <-.
    unfold recognizeSettles, processingFailed. rewrite Hnull. cbn.
    split; [reflexivity |]. apply list_lookup_insert_eq.
    eapply lookup_lt_Some; eauto.
  - intros i j ti now next Hlt Hi Hri Hstep. cbn in Hstep.
    destruct (sttQueue socket !! j) as [[data | | | |] |] eqn:Hj;
      try discriminate Hstep.
    destruct j as [| before]; [lia |]. cbn in Hstep.
    destruct (sttQueue socket !! before) as [[| | | | ok] |] eqn:Hb;
      try discriminate Hstep.
    assert (Hbrej : rejected (Finished ok) = true).
    { destruct (decide (i = before)) as [-> | Hne].
      - rewrite Hb in Hi. injection Hi as <-. exact Hri.
      - apply (Hpass i before ti (Finished ok)); auto. lia. }
    destruct ok; [discriminate Hbrej |].
    injection Hstep as <-. cbn. auto.
Qed.

(** *** Calls of the services, unit by unit *)

Definition isRecognize (r : request) : bool :=
  match r with Recognize _ => true | TranslateText _ => false end.

(** How many calls of the speech service ([recognize = true]) or of the
    translation service ([recognize = false]) a unit has made. *)
Definition calls (recognize : bool) (unit : nat) (made : list (nat * request)) : nat :=
  List.length
    (List.filter
       (fun c => Nat.eqb (fst c) unit && Bool.eqb (isRecognize (snd c)) recognize)
       made).

(** The calls a unit has made, by how far it has come. *)
Definition callsFit (t : option task) (speech translation : nat) : Prop :=
  match t with
  | None | Some (Queued _) => speech = 0%nat /\ translation = 0%nat
  | Some (AwaitRecognize _) => speech = 1%nat /\ translation = 0%nat
  | Some (AwaitTranslate _ _) => speech = 1%nat /\ translation = 1%nat
  | Some (Settled _) | Some (Finished _) =>
      (speech <= 1)%nat /\ (translation <= speech)%nat
  end.

Definition callsInStep (socket : Socket) : Prop :=
  forall unit,
    callsFit (sttQueue socket !! unit)
      (calls true unit (requests socket)) (calls false unit (requests socket)).

Lemma calls_snoc (recognize : bool) (unit v : nat) (r : request)
    (made : list (nat * request)) :
  calls recognize unit (made ++ [(v, r)])
  = (calls recognize unit made
     + if Nat.eqb v unit && Bool.eqb (isRecognize r) recognize then 1 else 0)%nat.
Proof.
  unfold calls. rewrite List.filter_app, List.length_app. cbn.
  now destruct (Nat.eqb v unit && Bool.eqb (isRecognize r) recognize).
Qed.

Lemma callsFit_bounds (t : option task) (speech translation : nat) :
  callsFit t speech translation -> (speech <= 1)%nat /\ (translation <= speech)%nat.
Proof. destruct t as [[| | | |] |]; cbn; lia. Qed.

(** What a turn does to the chain and to the calls together. *)
Lemma step_calls (socket : Socket) (now : Z) (e : event) (next : Socket) :
  step rt cfg socket now e = Some next ->
  (requests next = requests socket
   /\ ((exists data, sttQueue next = (sttQueue socket ++ [Queued data])%list)
       \/ sttQueue next = sttQueue socket
       \/ exists unit t ended,
            sttQueue socket !! unit = Some t
            /\ sttQueue next = <[unit := ended]> (sttQueue socket)
            /\ working ended = false))
  \/ (exists unit data p r,
        sttQueue socket !! unit = Some (Queued data)
        /\ sttQueue next = <[unit := AwaitRecognize p]> (sttQueue socket)
        /\ requests next = (requests socket ++ [(unit, Recognize r)])%list)
  \/ (exists unit p transcription r,
        sttQueue socket !! unit = Some (AwaitRecognize p)
        /\ sttQueue next = <[unit := AwaitTranslate p transcription]> (sttQueue socket)
        /\ requests next = (requests socket ++ [(unit, TranslateText r)])%list).
Proof.
  destruct e as [data | u | u outcome | u outcome | u]; cbn; intros Hstep.
  - injection Hstep as <-. left. unfold audioRecording.
    destruct (_ <=? _); cbn; eauto.
  - destruct (sttQueue socket !! u) as [[data | | | |] |] eqn:Hq;
      try discriminate Hstep.
    destruct (predecessor u socket) as [[] |]; [| | discriminate Hstep];
      injection Hstep as <-.
    + unfold runUnit.
      destruct (isRateLimited cfg now (sttRateTimestamps socket)) as [[] ts];
        [| destruct (parseAudioPayload rt cfg data) as [p | reason]].
      * left. split; [reflexivity |]. right. right. eexists u, _, _. eauto.
      * right. left. eexists u, data, p, _. eauto.
      * left. split; [reflexivity |]. right. right. eexists u, _, _. eauto.
    + left. split; [reflexivity |]. right. right. eexists u, _, _. eauto.
  - destruct (sttQueue socket !! u) as [[| p | | |] |] eqn:Hq;
      try discriminate Hstep.
    injection Hstep as <-. unfold recognizeSettles, processingFailed.
    destruct outcome as [sttResponse | reason];
      [destruct (JsString.isEmpty (transcriptionOf sttResponse));
         [| destruct (project cfg); [destruct (negb (JsString.eqb _ _)) |]]
      | destruct (Js.isNullish reason)];
      try (left; split; [reflexivity |]; right; right; eexists u, _, _;
           split; [exact Hq |]; split; reflexivity).
    right. right. eexists u, p, _, _. eauto.
  - destruct (sttQueue socket !! u) as [[| | p tr | |] |] eqn:Hq;
      try discriminate Hstep.
    injection Hstep as <-. unfold translateSettles, processingFailed.
    left.
    destruct outcome as [response | reason];
      [| destruct (Js.isNullish reason)];
      (split; [reflexivity |]; right; right; eexists u, _, _;
       split; [exact Hq |]; split; reflexivity).
  - destruct (sttQueue socket !! u) as [[| | | ok | ok] |] eqn:Hq;
      try discriminate Hstep.
    injection Hstep as <-. left. split; [reflexivity |].
    right. right. eexists u, _, _. split; [exact Hq |]. split; reflexivity.
Qed.

Lemma step_callsInStep (socket : Socket) (now : Z) (e : event) (next : Socket) :
  callsInStep socket -> step rt cfg socket now e = Some next -> callsInStep next.
Proof.
  intros Hfit Hstep v. specialize (Hfit v).
  destruct (step_calls socket now e next Hstep)
    as [[Hr [[data Hq] | [Hq | (u & t & ended & Hu & Hq & Hended)]]]
       | [(u & data & p & r & Hu & Hq & Hr) | (u & p & tr & r & Hu & Hq & Hr)]];
    rewrite Hq, Hr.
  - destruct (sttQueue socket !! v) as [t |] eqn:Hv.
    + now rewrite (lookup_app_l_Some _ _ _ _ Hv).
    + apply lookup_ge_None in Hv.
      destruct (decide (v = List.length (sttQueue socket))) as [-> | Hne].
      * rewrite lookup_app_r by lia. now rewrite Nat.sub_diag.
      * rewrite (lookup_ge_None_2 (sttQueue socket ++ [Queued data]) v);
          [exact Hfit |].
        rewrite length_app. cbn. lia.
  - exact Hfit.
  - destruct (decide (u = v)) as [<- | Hne].
    + rewrite list_lookup_insert_eq by (eapply lookup_lt_Some; eauto).
      apply callsFit_bounds in Hfit. destruct ended; try discriminate Hended;
        exact Hfit.
    + now rewrite list_lookup_insert_ne.
  - rewrite !calls_snoc. cbn [isRecognize Bool.eqb].
    destruct (decide (u = v)) as [<- | Hne].
    + rewrite list_lookup_insert_eq by (eapply lookup_lt_Some; eauto).
      rewrite Hu in Hfit. rewrite Nat.eqb_refl. cbn in *. lia.
    + rewrite list_lookup_insert_ne by exact Hne.
      apply Nat.eqb_neq in Hne. rewrite Hne. cbn [andb].
      now rewrite !Nat.add_0_r.
  - rewrite !calls_snoc. cbn [isRecognize Bool.eqb].
    destruct (decide (u = v)) as [<- | Hne].
    + rewrite list_lookup_insert_eq by (eapply lookup_lt_Some; eauto).
      rewrite Hu in Hfit. rewrite Nat.eqb_refl. cbn in *. lia.
    + rewrite list_lookup_insert_ne by exact Hne.
      apply Nat.eqb_neq in Hne. rewrite Hne. cbn [andb].
      now rewrite !Nat.add_0_r.
Qed.

(** X18: on every connection each chained unit calls the speech service at
    most once and the translation service at most once, the latter only
    after the former; a unit whose turn has not come has called nothing, and
    no call is made for anything that is not a unit of the chain, an event
    refused for backpressure included. *)
Theorem one_call_of_each_service_per_unit
    (callerId : string) (history : list (Z * event)) (socket : Socket)
    (unit : nat) :
  run rt cfg (connect callerId) history = Some socket ->
  (calls true unit (requests socket) <= 1)%nat
  /\ (calls false unit (requests socket) <= calls true unit (requests socket))%nat
  /\ (started <$> sttQueue socket !! unit <> Some true ->
      forall r, ~ In (unit, r) (requests socket)).
Proof.
  intros Hrun.
  assert (Hfit : callsInStep socket).
  { apply (run_induction _ step_callsInStep history (connect callerId));
      [| exact Hrun].
    intros v. cbn. now split. }
  specialize (Hfit unit).
  destruct (callsFit_bounds _ _ _ Hfit) as [Hone Htwo].
  split; [exact Hone |]. split; [exact Htwo |].
  intros Hnot r Hin.
  assert (Hzero : calls true unit (requests socket) = 0%nat
                  /\ calls false unit (requests socket) = 0%nat).
  { destruct (sttQueue socket !! unit) as [[| | | |] |]; cbn in Hnot, Hfit;
      try congruence; exact Hfit. }
  assert (Hsome : (0 < calls (isRecognize r) unit (requests socket))%nat).
  { unfold calls.
    assert (Hf : In (unit, r)
                   (List.filter
                      (fun c => Nat.eqb (fst c) unit
                                && Bool.eqb (isRecognize (snd c)) (isRecognize r))
                      (requests socket))).
    { apply List.filter_In. split; [exact Hin |]. cbn.
      rewrite Nat.eqb_refl. now destruct (isRecognize r). }
    destruct (List.filter _ (requests socket)); [destruct Hf | cbn; lia]. }
  destruct (isRecognize r); lia.
Qed.

End Coverage.

(** ** From submission to delivery *)

Section Delivery.

Variable rt : Runtime.
Variable cfg : Config.

Lemma unfinished_all_finished (queue : list task) :
  Forall (fun t => finished t = true) queue -> unfinished queue = 0%nat.
Proof.
  induction queue as [| t rest IH]; [reflexivity |].
  intros H. apply Forall_cons in H as [Ht Hrest].
  rewrite unfinished_cons, Ht. exact (IH Hrest).
Qed.

(** X19: on every connection an [audioRecording] event is accepted exactly
    when fewer chained units than the backpressure ceiling are unfinished:
    it is then chained behind the others, counted, and nothing is emitted.
    So once every chained unit has finished, the counter is back at 0 and,
    with a positive ceiling, the next event is accepted. *)
Theorem backpressure_lifts_when_drained
    (callerId : string) (history : list (Z * event)) (socket : Socket)
    (data : value) (now : Z) :
  run rt cfg (connect callerId) history = Some socket ->
  (Z.of_nat (unfinished (sttQueue socket)) < MAX_STT_PENDING_REQUESTS cfg ->
   step rt cfg socket now (AudioRecording data)
   = Some (chain data (setPending (pendingSttRequests socket + 1) socket)))
  /\ (MAX_STT_PENDING_REQUESTS cfg <= Z.of_nat (unfinished (sttQueue socket)) ->
      sttQueue <$> step rt cfg socket now (AudioRecording data)
      = Some (sttQueue socket))
  /\ (Forall (fun t => finished t = true) (sttQueue socket) ->
      pendingSttRequests socket = 0
      /\ (0 < MAX_STT_PENDING_REQUESTS cfg ->
          sttQueue <$> step rt cfg socket now (AudioRecording data)
          = Some (sttQueue socket ++ [Queued data])%list)).
Proof.
  intros Hrun.
  pose proof (inv_pending _
                (run_invariant rt cfg history _ _ (invariant_connect callerId) Hrun))
    as Hcount.
  cbn [step]. unfold audioRecording.
  split; [| split].
  - intros Hroom. rewrite <- Hcount in Hroom. apply Z.leb_gt in Hroom.
    now rewrite Hroom.
  - intros Hfull. rewrite <- Hcount in Hfull. apply Z.leb_le in Hfull.
    now rewrite Hfull.
  - intros Hdone. rewrite (unfinished_all_finished _ Hdone) in Hcount.
    change (Z.of_nat 0) with 0 in Hcount.
    split; [exact Hcount |]. intros Hpositive. rewrite Hcount.
    apply Z.leb_gt in Hpositive. now rewrite Hpositive.
Qed.

(** X20: a chunk that parses, sent on a fresh connection with positive
    ceilings and a project configured, whose source and target languages
    differ, goes all the way: the speech service is called, then for a
    transcript that is not empty the translation service, and when that
    answers the recipient gets one result with the transcript and the first
    translation (the transcript itself when none came), the finally
    callback runs, and the connection is left with no pending request. *)
Theorem chunk_is_transcribed_translated_and_delivered
    (callerId : string) (data : value) (p : AudioPayload) (projectName : string)
    (sttResponse : SttResponse) (translationResponse : TranslationResponse)
    (t1 t2 t3 t4 t5 : Z) :
  parseAudioPayload rt cfg data = Ok p ->
  0 < MAX_STT_PENDING_REQUESTS cfg ->
  0 < RATE_LIMIT_MAX_REQUESTS cfg ->
  projectId cfg = Some projectName -> projectName <> "" ->
  JsString.isEmpty (transcriptionOf sttResponse) = false ->
  normalizeTranslationLanguageCode rt (sourceLanguageCode p) <> targetLanguageCode p ->
  exists final,
    run rt cfg (connect callerId)
      [ (t1, AudioRecording data);
        (t2, RunUnit 0%nat);
        (t3, RecognizeSettles 0%nat (Resolved sttResponse));
        (t4, TranslateSettles 0%nat (Resolved translationResponse));
        (t5, RunFinally 0%nat) ]
    = Some final
    /\ emitted final
       = [(Some 0%nat,
           ToRoom (recipientId p)
             {| SttResult.text := transcriptionOf sttResponse;
                SttResult.translated :=
                  translatedTextOf translationResponse (transcriptionOf sttResponse);
                SttResult.from := callerId;
                SttResult.to := recipientId p;
                SttResult.sequenceId := sequenceId p |})]
    /\ requests final
       = [(0%nat, Recognize (sttRequest p));
          (0%nat,
           TranslateText
             (translateRequest projectName p (transcriptionOf sttResponse)
                (normalizeTranslationLanguageCode rt (sourceLanguageCode p))))]
    /\ sttQueue final = [Finished true]
    /\ pendingSttRequests final = 0
    /\ sttRateTimestamps final = [t2].
Proof.
  intros Hparse Hpending Hrate Hproject Hnamed Hheard Hdiffer.
  assert (Hp : project cfg = Some projectName).
  { unfold project. rewrite Hproject.
    apply isEmpty_false in Hnamed. now rewrite Hnamed. }
  apply Z.leb_gt in Hpending, Hrate.
  apply string_eqb_neq in Hdiffer.
  set (text := transcriptionOf sttResponse) in *.
  set (source := normalizeTranslationLanguageCode rt (sourceLanguageCode p)) in *.
  set (s1 := {| user := callerId; sttRateTimestamps := [];
                pendingSttRequests := 1; sttQueue := [Queued data];
                emitted := []; requests := [] |}).
  set (s2 := {| user := callerId; sttRateTimestamps := [t2];
                pendingSttRequests := 1; sttQueue := [AwaitRecognize p];
                emitted := [];
                requests := [(0%nat, Recognize (sttRequest p))] |}).
  set (s3 := {| user := callerId; sttRateTimestamps := [t2];
                pendingSttRequests := 1; sttQueue := [AwaitTranslate p text];
                emitted := [];
                requests :=
                  [(0%nat, Recognize (sttRequest p));
                   (0%nat,
                    TranslateText (translateRequest projectName p text source))]
             |}).
  set (result := sttResult s3 p text (translatedTextOf translationResponse text)).
  set (s4 := {| user := callerId; sttRateTimestamps := [t2];
                pendingSttRequests := 1; sttQueue := [Settled true];
                emitted := [(Some 0%nat, result)];
                requests := requests s3 |}).
  set (s5 := {| user := callerId; sttRateTimestamps := [t2];
                pendingSttRequests := 0; sttQueue := [Finished true];
                emitted := [(Some 0%nat, result)];
                requests := requests s3 |}).
  assert (H1 : step rt cfg (connect callerId) t1 (AudioRecording data) = Some s1).
  { cbn [step]. unfold audioRecording. cbn [connect pendingSttRequests].
    now rewrite Hpending. }
  assert (H2 : step rt cfg s1 t2 (RunUnit 0%nat) = Some s2).
  { unfold s1. cbn [step sttQueue lookup list_lookup predecessor].
    unfold runUnit, isRateLimited.
    cbn [sttRateTimestamps List.filter List.length].
    change (Z.of_nat 0) with 0. now rewrite Hrate, Hparse. }
  assert (H3 : step rt cfg s2 t3 (RecognizeSettles 0%nat (Resolved sttResponse))
               = Some s3).
  { unfold s2. cbn [step sttQueue lookup list_lookup].
    unfold recognizeSettles. fold text. fold source.
    now rewrite Hheard, Hp, Hdiffer. }
  assert (H4 : step rt cfg s3 t4 (TranslateSettles 0%nat (Resolved translationResponse))
               = Some s4).
  { reflexivity. }
  assert (H5 : step rt cfg s4 t5 (RunFinally 0%nat) = Some s5).
  { reflexivity. }
  exists s5. split.
  - cbn [run]. now rewrite H1, H2, H3, H4, H5.
  - cbn. auto 6.
Qed.

End Delivery.

(** ** The further properties on sample inputs *)

Definition parsedChunk : AudioPayload := {|
  audioBase64 := "aGVsbG8=";
  sourceLanguageCode := "en-US";
  targetLanguageCode := "my";
  recipientId := "B";
  sampleRateHertz := Js.ofZ 16000;
  encoding := "LINEAR16";
  sequenceId := VNull
|}.

Definition greeting : TranslationResponse :=
  {| translations := Some [{| translatedText := Some "mingalaba" |}] |}.

(** [{calleeId: " B ", sdpOffer: "v=0 ", iceCandidate: false}] *)
Definition callPayload : value :=
  VObject [("calleeId", VString " B "); ("sdpOffer", VString "v=0 ");
           ("iceCandidate", VBool false)].

Example signalling_samples :
  runSafeHandler "makeCall" (makeCall "A") callPayload 5 = [NewCall "B" "A" "v=0"]
  /\ runSafeHandler "makeCall" (makeCall "A") (VObject [("sdpOffer", VString "v=0")]) 5
     = [emitSignalError "INVALID_MAKE_CALL_PAYLOAD" "calleeId is required" 5]
  /\ runSafeHandler "makeCall" (makeCall "A") VNull 5
     = [emitSignalError "INVALID_MAKE_CALL_PAYLOAD" "calleeId is required" 5]
  /\ runSafeHandler "makeCall" (makeCall "A")
       (VObject [("calleeId", VString Sample.nbsp); ("sdpOffer", VString "v=0")]) 5
     = [emitSignalError "INVALID_MAKE_CALL_PAYLOAD" "calleeId is required" 5]
  /\ runSafeHandler "endCall" (endCall "A") callPayload 5
     = [CallEnded "B" "A"; LeaveCall "B"]
  /\ runSafeHandler "endCall" (endCall "A")
       (VObject [("calleeId", VString (Sample.nbsp ++ "B" ++ Sample.nbsp))]) 5
     = [CallEnded "B" "A"; LeaveCall "B"]
  /\ runSafeHandler "IceCandidate" (iceCandidate "A") callPayload 5
     = [IceCandidateTo "B" "A" (VBool false)]
  /\ runSafeHandler "IceCandidate" (iceCandidate "A")
       (VObject [("calleeId", VString "B"); ("iceCandidate", VNull)]) 5
     = [emitSignalError "INVALID_ICE_CANDIDATE_PAYLOAD" "iceCandidate is required" 5]
  /\ handshake (VString "  A ") = Ok "A"
  /\ handshake (VString "   ") = Throw "callerId query parameter is required"
  /\ handshake (VString Sample.nbsp) = Throw "callerId query parameter is required"
  /\ handshake VUndefined = Throw "callerId query parameter is required".
Proof. vm_compute. auto 13. Qed.

Example transcript_samples :
  transcriptionOf Sample.blankAnswer = ""
  /\ transcriptionOf
       {| results := Some [ {| transcript := Some " good" |};
                            {| transcript := Some ("day" ++ Sample.nbsp) |} ] |}
     = "good day"
  /\ transcriptionOf
       {| results := Some [ {| transcript := None |};
                            {| transcript := Some "hello" |} ] |}
     = "hello".
Proof. vm_compute. auto. Qed.

(** The hypothesis of X2 holds of the [endCall] event. *)
Lemma signalling_all_or_nothing_sample :
  In ("endCall", runSafeHandler "endCall" (endCall "A")) (signalling "A")
  /\ ((exists e,
         runSafeHandler "endCall" (endCall "A") callPayload 5
         = [SignalErrorToSender e]
         /\ In ("endCall", SignalError.code e) signalErrorCodes
         /\ SignalError.timestamp e = 5)
      \/ (runSafeHandler "endCall" (endCall "A") callPayload 5 <> []
          /\ Forall (forwardOf "A")
               (runSafeHandler "endCall" (endCall "A") callPayload 5))).
Proof.
  assert (Hin : In ("endCall", runSafeHandler "endCall" (endCall "A"))
                  (signalling "A")).
  { right. right. left. reflexivity. }
  split; [exact Hin |].
  exact (signalling_all_or_nothing "A" "endCall" _ callPayload 5 Hin).
Defined.

(** The hypothesis of X7 holds of the code "zh-Hans-CN". *)
Lemma valid_code_sample :
  isValidLanguageCode (VString "zh-Hans-CN") = true
  /\ isLanguageSubtag (normalizeTranslationLanguageCode Reference.runtime "zh-Hans-CN")
  /\ normalizeTranslationLanguageCode Reference.runtime "zh-Hans-CN" = "zh".
Proof.
  assert (Hvalid : isValidLanguageCode (VString "zh-Hans-CN") = true)
    by reflexivity.
  split; [exact Hvalid |].
  destruct (valid_code_normalizes_to_subtag Reference.runtime "zh-Hans-CN" Hvalid) as (Hsub & _ & _).
  split; [exact Hsub | reflexivity].
Defined.

(** The hypothesis of X9 holds of a data URI with a blank in it. *)
Lemma normalized_audio_sample :
  normalizeAudioToBase64 Reference.runtime (VString "data:audio/wav;base64,aGVs bG8=")
  = Ok "aGVsbG8="
  /\ JsString.forallb Base64.isBase64Char "aGVsbG8=" = true
  /\ ("aGVsbG8=" <> "" ->
      normalizeAudioToBase64 Reference.runtime (VString "aGVsbG8=") = Ok "aGVsbG8=").
Proof.
  assert (Hok :
    normalizeAudioToBase64 Reference.runtime
      (VString "data:audio/wav;base64,aGVs bG8=") = Ok "aGVsbG8=")
    by (vm_compute; reflexivity).
  split; [exact Hok |].
  destruct (normalized_audio_is_base64 Reference.runtime _ _ Hok) as (Hchars & _ & Hagain).
  split; [exact Hchars | exact Hagain].
Defined.

(** The hypothesis of X10 holds of the sample chunk. *)
Lemma parsed_payload_sample :
  parseAudioPayload Reference.runtime Sample.config Sample.chunk = Ok parsedChunk
  /\ wellFormedPayload Reference.runtime Sample.config parsedChunk.
Proof.
  assert (Hparse :
    parseAudioPayload Reference.runtime Sample.config Sample.chunk = Ok parsedChunk)
    by (vm_compute; reflexivity).
  split; [exact Hparse |].
  exact (proj1 (parsed_payload_well_formed Reference.runtime Sample.config
                  Sample.chunk parsedChunk Hparse)).
Defined.

(** The hypothesis of X13 holds of the three sample chunks. *)
Lemma resources_bounded_sample :
  run Reference.runtime Sample.config (connect "A") Sample.threeChunks
  = Some (Sample.socketAfter Sample.threeChunks)
  /\ 0 <= pendingSttRequests (Sample.socketAfter Sample.threeChunks) <= 8
  /\ Z.of_nat (List.length (sttRateTimestamps (Sample.socketAfter Sample.threeChunks)))
     <= 20.
Proof.
  assert (Hrun :
    run Reference.runtime Sample.config (connect "A") Sample.threeChunks
    = Some (Sample.socketAfter Sample.threeChunks)) by (vm_compute; reflexivity).
  split; [exact Hrun |].
  destruct (resources_bounded Reference.runtime Sample.config "A"
              Sample.threeChunks _ Hrun) as (Hpending & _ & Hstamps & _).
  split; [exact Hpending | exact Hstamps].
Defined.

(** The hypotheses of X15 hold of the first call of the three sample
    chunks. *)
Lemma requests_well_formed_sample :
  run Reference.runtime Sample.config (connect "A") Sample.threeChunks
  = Some (Sample.socketAfter Sample.threeChunks)
  /\ In (0%nat, Recognize (sttRequest parsedChunk))
       (requests (Sample.socketAfter Sample.threeChunks))
  /\ requestWellFormed Reference.runtime Sample.config
       (Recognize (sttRequest parsedChunk)).
Proof.
  assert (Hrun :
    run Reference.runtime Sample.config (connect "A") Sample.threeChunks
    = Some (Sample.socketAfter Sample.threeChunks)) by (vm_compute; reflexivity).
  assert (Hin :
    In (0%nat, Recognize (sttRequest parsedChunk))
      (requests (Sample.socketAfter Sample.threeChunks)))
    by (left; vm_compute; reflexivity).
  split; [exact Hrun |]. split; [exact Hin |].
  exact (proj1 (requests_well_formed Reference.runtime Sample.config "A"
                  Sample.threeChunks _ 0%nat _ Hrun Hin)).
Defined.

(** The hypotheses of X16 hold of the first emission of the three sample
    chunks. *)
Lemma emissions_well_formed_sample :
  run Reference.runtime Sample.config (connect "A") Sample.threeChunks
  = Some (Sample.socketAfter Sample.threeChunks)
  /\ In (Some 0%nat,
         ToSender {| SttError.code := "STT_PROCESSING_FAILED";
                     SttError.message := "Unable to process this audio chunk";
                     SttError.timestamp := 6 |})
       (emitted (Sample.socketAfter Sample.threeChunks))
  /\ emissionWellFormed "A"
       (Some 0%nat,
        ToSender {| SttError.code := "STT_PROCESSING_FAILED";
                    SttError.message := "Unable to process this audio chunk";
                    SttError.timestamp := 6 |}).
Proof.
  assert (Hrun :
    run Reference.runtime Sample.config (connect "A") Sample.threeChunks
    = Some (Sample.socketAfter Sample.threeChunks)) by (vm_compute; reflexivity).
  assert (Hin :
    In (Some 0%nat,
        ToSender {| SttError.code := "STT_PROCESSING_FAILED";
                    SttError.message := "Unable to process this audio chunk";
                    SttError.timestamp := 6 |})
      (emitted (Sample.socketAfter Sample.threeChunks)))
    by (left; vm_compute; reflexivity).
  split; [exact Hrun |]. split; [exact Hin |].
  exact (emissions_well_formed Reference.runtime Sample.config "A"
           Sample.threeChunks _ _ Hrun Hin).
Defined.

(** The hypothesis of X17 holds of the chain rejected by its first unit. *)
Lemma rejection_sample :
  run Reference.runtime Sample.config (connect "A") Sample.rejectedChain
  = Some (Sample.socketAfter Sample.rejectedChain)
  /\ (forall i j ti tj,
        (i < j)%nat ->
        sttQueue (Sample.socketAfter Sample.rejectedChain) !! i = Some ti ->
        rejected ti = true ->
        sttQueue (Sample.socketAfter Sample.rejectedChain) !! j = Some tj ->
        started tj = true ->
        rejected tj = true).
Proof.
  assert (Hrun :
    run Reference.runtime Sample.config (connect "A") Sample.rejectedChain
    = Some (Sample.socketAfter Sample.rejectedChain)) by (vm_compute; reflexivity).
  split; [exact Hrun |].
  exact (proj1 (proj2 (rejection_is_passed_on Reference.runtime Sample.config "A"
                         Sample.rejectedChain _ Hrun))).
Defined.

(** The hypothesis of X18 holds of the three sample chunks. *)
Lemma one_call_sample :
  run Reference.runtime Sample.config (connect "A") Sample.threeChunks
  = Some (Sample.socketAfter Sample.threeChunks)
  /\ (calls true 0 (requests (Sample.socketAfter Sample.threeChunks)) <= 1)%nat
  /\ (calls false 0 (requests (Sample.socketAfter Sample.threeChunks))
      <= calls true 0 (requests (Sample.socketAfter Sample.threeChunks)))%nat.
Proof.
  assert (Hrun :
    run Reference.runtime Sample.config (connect "A") Sample.threeChunks
    = Some (Sample.socketAfter Sample.threeChunks)) by (vm_compute; reflexivity).
  split; [exact Hrun |].
  destruct (one_call_of_each_service_per_unit Reference.runtime Sample.config "A"
              Sample.threeChunks _ 0%nat Hrun) as (Hspeech & Htranslation & _).
  split; [exact Hspeech | exact Htranslation].
Defined.

(** The hypothesis of X19 holds of a connection with eight chunks
    pending, which refuses the ninth. *)
Lemma backpressure_lifts_sample :
  run Reference.runtime Sample.config (connect "A") Sample.busyHistory
  = Some Sample.busy
  /\ (MAX_STT_PENDING_REQUESTS Sample.config
      <= Z.of_nat (unfinished (sttQueue Sample.busy)) ->
      sttQueue <$> step Reference.runtime Sample.config Sample.busy 9
                     (AudioRecording Sample.chunk)
      = Some (sttQueue Sample.busy)).
Proof.
  assert (Hrun :
    run Reference.runtime Sample.config (connect "A") Sample.busyHistory
    = Some Sample.busy) by (vm_compute; reflexivity).
  split; [exact Hrun |].
  exact (proj1 (proj2 (backpressure_lifts_when_drained Reference.runtime
                         Sample.config "A" Sample.busyHistory Sample.busy
                         Sample.chunk 9 Hrun))).
Defined.

(** The hypotheses of X20 hold of the sample chunk. *)
Lemma chunk_delivered_sample :
  parseAudioPayload Reference.runtime Sample.config Sample.chunk = Ok parsedChunk
  /\ exists final,
       run Reference.runtime Sample.config (connect "A")
         [ (1, AudioRecording Sample.chunk);
           (2, RunUnit 0%nat);
           (3, RecognizeSettles 0%nat (Resolved Sample.hello));
           (4, TranslateSettles 0%nat (Resolved greeting));
           (5, RunFinally 0%nat) ]
       = Some final
       /\ emitted final
          = [(Some 0%nat,
              ToRoom "B"
                {| SttResult.text := "hello";
                   SttResult.translated := "mingalaba";
                   SttResult.from := "A";
                   SttResult.to := "B";
                   SttResult.sequenceId := VNull |})]
       /\ pendingSttRequests final = 0.
Proof.
  assert (Hparse :
    parseAudioPayload Reference.runtime Sample.config Sample.chunk = Ok parsedChunk)
    by (vm_compute; reflexivity).
  split; [exact Hparse |].
  destruct (chunk_is_transcribed_translated_and_delivered Reference.runtime
              Sample.config "A" Sample.chunk parsedChunk "demo-project"
              Sample.hello greeting 1 2 3 4 5 Hparse)
    as (final & Hrun & Hemitted & _ & _ & Hpending & _);
    try reflexivity; try discriminate.
  exists final. split; [exact Hrun |]. split; [exact Hemitted | exact Hpending].
Defined.
